(** * SpatialReader: the acquisition pipeline and the spectral aggregation

    A shallow embedding of [main.c]: the one-sided amplitude spectrum
    ([calc_amplitude_spectrum]), the circular pipeline of one-second slots
    filled by the data callback ([SpatialDataHandler]), the consumer that
    drains it ([process]), the row emitter ([output_csv]) and the start-up
    path ([main], [controlloop], [alloc_spec_buffers]).

    Conventions of the model.
    - The file-scope variables of [main.c] that change while the program
      runs are the fields of the record [globals]; the ones fixed by the
      command line are the fields of [config].
    - Every array access is checked: reading or writing outside an array,
      and signed overflow of the one product that can leave the [int] range,
      are undefined behaviour in C and make the model return [None].
    - [fftw_real], [double] and [float] values are real numbers: the model
      describes the arithmetic the program performs, not its rounding.
    - The transform [rfftw_one] belongs to the FFTW library; the
      development is parametric in it (class [Fftw]).
    - What the program prints or writes is recorded, in order, in the
      [trace] field.
    - The data callback and the main loop are interleaved call by call:
      a schedule is a list of deliveries and calls of [process]. *)

From Stdlib Require Import ZArith Reals Lra Lia List.
From stdpp Require Import base numbers option list.

Local Open Scope Z_scope.

(** ** C integers, arrays and loops *)

Definition INT_MAX : Z := 2147483647.
Definition INT_MIN : Z := -2147483648.

(** [a * b] on [int]; overflow is undefined. *)
Definition int_mul (a b : Z) : option Z :=
  if decide (INT_MIN ≤ a * b ≤ INT_MAX) then Some (a * b) else None.

(** [l[i]] as an rvalue. *)
Definition aget {A : Type} (l : list A) (i : Z) : option A :=
  if decide (0 ≤ i) then l !! Z.to_nat i else None.

(** [l[i] = x]. *)
Definition aset {A : Type} (l : list A) (i : Z) (x : A) : option (list A) :=
  if decide (0 ≤ i < Z.of_nat (length l)) then Some (<[Z.to_nat i := x]> l)
  else None.

(** [buf[a][b]] and [buf[a][b][c]] as rvalues. *)
Definition aget2 {A : Type} (buf : list (list A)) (a b : Z) : option A :=
  row ← aget buf a; aget row b.

Definition aget3 {A : Type} (buf : list (list (list A))) (a b c : Z) : option A :=
  row ← aget2 buf a b; aget row c.

(** [buf[a][b] = x] and [buf[a][b][c] = x]. *)
Definition aset2 {A : Type} (buf : list (list A)) (a b : Z) (x : A)
  : option (list (list A)) :=
  row ← aget buf a; row' ← aset row b x; aset buf a row'.

Definition aset3 {A : Type} (buf : list (list (list A))) (a b c : Z) (x : A)
  : option (list (list (list A))) :=
  row ← aget2 buf a b; row' ← aset row c x; aset2 buf a b row'.

(** [for (i = lo; i < hi; i++) s = body i s]; the body changes neither [i]
    nor [hi]. *)
Fixpoint for_loop_from {T : Type} (n : nat) (i : Z) (body : Z → T → option T)
    (s : T) : option T :=
  match n with
  | O => Some s
  | S n' => s' ← body i s; for_loop_from n' (i + 1) body s'
  end.

Definition for_loop {T : Type} (lo hi : Z) (body : Z → T → option T) (s : T)
  : option T :=
  for_loop_from (Z.to_nat (hi - lo)) lo body s.

(** The same loop when it only reads the cells of an array, in order. *)
Fixpoint fold_opt {A T : Type} (f : A → T → option T) (l : list A) (s : T) : option T :=
  match l with
  | [] => Some s
  | x :: l' => s' ← f x s; fold_opt f l' s'
  end.

(** [g_new0 (type, n)]: [n] zeroed cells.  The count is converted to
    [gsize]; for a negative [int] the size overflows and GLib aborts. *)
Definition g_new0 {A : Type} (zero : A) (n : Z) : option (list A) :=
  if decide (0 ≤ n) then Some (replicate (Z.to_nat n) zero) else None.

(** ** Configuration and program state *)

Definition PIPELINE_LEN : Z := 100.

Record config := Config {
  samplerate : Z;
  maxfreq : Z;
  avg_int_in_sec : Z;
  max_instead_of_avg : bool;
  info_only : bool
}.

(** The values [main.c] gives its variables before the options are read. *)
Definition default_config : config :=
  {| samplerate := 1000; maxfreq := 150; avg_int_in_sec := 10;
     max_instead_of_avg := false; info_only := false |}.

(** What the program prints or writes. *)
Inductive event :=
  | Realtime_error                       (* printf ("Realtime error!\n") *)
  | Open_error (dim : Z)                 (* "ERROR: could not open/create output file" *)
  | Reopen_error (dim : Z)               (* "ERROR: could not reopen output file" *)
  | Csv_row (dim : Z) (vals : list R)    (* a row appended to the file of axis [dim] *)
  | Csv_row_lost (dim : Z).              (* the row's fprintf calls failed *)

Record globals := Globals {
  rbufi : Z;
  inbuf : list (list (list R));
  unproc : list bool;
  ibptr : Z;
  aind : Z;
  ampspec : list (list (list R));
  trace : list event
}.

Definition set_rbufi (v : Z) (g : globals) : globals :=
  {| rbufi := v; inbuf := inbuf g; unproc := unproc g; ibptr := ibptr g;
     aind := aind g; ampspec := ampspec g; trace := trace g |}.
Definition set_inbuf (v : list (list (list R))) (g : globals) : globals :=
  {| rbufi := rbufi g; inbuf := v; unproc := unproc g; ibptr := ibptr g;
     aind := aind g; ampspec := ampspec g; trace := trace g |}.
Definition set_unproc (v : list bool) (g : globals) : globals :=
  {| rbufi := rbufi g; inbuf := inbuf g; unproc := v; ibptr := ibptr g;
     aind := aind g; ampspec := ampspec g; trace := trace g |}.
Definition set_ibptr (v : Z) (g : globals) : globals :=
  {| rbufi := rbufi g; inbuf := inbuf g; unproc := unproc g; ibptr := v;
     aind := aind g; ampspec := ampspec g; trace := trace g |}.
Definition set_aind (v : Z) (g : globals) : globals :=
  {| rbufi := rbufi g; inbuf := inbuf g; unproc := unproc g; ibptr := ibptr g;
     aind := v; ampspec := ampspec g; trace := trace g |}.
Definition set_ampspec (v : list (list (list R))) (g : globals) : globals :=
  {| rbufi := rbufi g; inbuf := inbuf g; unproc := unproc g; ibptr := ibptr g;
     aind := aind g; ampspec := v; trace := trace g |}.
Definition emit_event (e : event) (g : globals) : globals :=
  {| rbufi := rbufi g; inbuf := inbuf g; unproc := unproc g; ibptr := ibptr g;
     aind := aind g; ampspec := ampspec g; trace := trace g ++ [e] |}.

(** The static initialisers: all cursors 0, no flag set, no buffer yet. *)
Definition initial_globals : globals :=
  {| rbufi := 0; inbuf := []; unproc := replicate (Z.to_nat PIPELINE_LEN) false;
     ibptr := 0; aind := 0; ampspec := []; trace := [] |}.

(** [alloc_spec_buffers]: [PIPELINE_LEN] slots of 3 axes of [samplerate]
    samples, and 3 windows of [avg_int_in_sec] spectra of
    [samplerate / 2 + 1] bins, all zeroed.  The spectra are allocated inside
    the loop over the window, so none is when the window is empty.  At
    start-up there is nothing for [free_spec_buffers] to free. *)
Definition alloc_spec_buffers (cfg : config) (g : globals) : option globals :=
  axis ← g_new0 0%R (samplerate cfg);
  slot ← g_new0 axis 3;
  slots ← g_new0 slot PIPELINE_LEN;
  spectra ←
    (if decide (0 < avg_int_in_sec cfg) then
       spectrum ← g_new0 0%R (Z.quot (samplerate cfg) 2 + 1);
       g_new0 spectrum (avg_int_in_sec cfg)
     else g_new0 ([] : list R) (avg_int_in_sec cfg));
  windows ← g_new0 spectra 3;
  Some (set_ampspec windows (set_inbuf slots g)).

(** ** The sink

    The answers of the file system to the calls of [csv_prepare] and
    [output_csv] for one row: whether the [fopen] of [csv_prepare] succeeds,
    whether the second [fopen] of [output_csv] does, and whether the
    [fprintf] calls do.  The environment chooses them from what has happened
    so far and from the axis. *)
Record sink_answers := Sink {
  fopen_create : bool;
  fopen_append : bool;
  fprintf_ok : bool
}.

Definition sink_env : Type := list event → Z → sink_answers.

Definition sink_all_ok : sink_env := fun _ _ =>
  {| fopen_create := true; fopen_append := true; fprintf_ok := true |}.

Definition sink_unopenable : sink_env := fun _ _ =>
  {| fopen_create := false; fopen_append := false; fprintf_ok := false |}.

(** A full disk: the files open, every write fails. *)
Definition sink_unwritable : sink_env := fun _ _ =>
  {| fopen_create := true; fopen_append := true; fprintf_ok := false |}.

(** ** Samples *)

(** [data[k]->acceleration], a [double[3]]. *)
Definition acceleration : Type := (R * R * R)%type.

Definition acceleration_at (d : acceleration) (i : Z) : option R :=
  let '(x, y, z) := d in
  if decide (i = 0) then Some x
  else if decide (i = 1) then Some y
  else if decide (i = 2) then Some z
  else None.

(** One step of the scheduler: the library delivers a batch of samples to
    the callback, or the main loop calls [process]. *)
Inductive action :=
  | Deliver (data : list acceleration)
  | Process.

Definition delivered (a : action) : list acceleration :=
  match a with Deliver data => data | Process => [] end.

(** What start-up leads to. *)
Inductive startup :=
  | Invalid_options            (* "ERROR: invalid options", exit code 1 *)
  | Info_shown                 (* display_properties, then exit *)
  | Allocation_aborted         (* g_new0 aborted *)
  | Division_by_zero           (* 1000 / samplerate with samplerate = 0 *)
  | Processing (datarate : Z) (g : globals).
      (* buffers allocated, setDataRate (datarate), the for (;;) loop runs *)

(** [rfftw_one (p, in, out)] for a real-to-complex plan of size [N]: the
    [N] values written to [out] from the [N] values of [in].  Any
    implementation of the interface will do. *)
Class Fftw := {
  rfftw_one : list R → list R;
  rfftw_one_length : ∀ l, length (rfftw_one l) = length l
}.

Section Model.
Context {fftw : Fftw}.

(** ** [calc_amplitude_spectrum] *)

Definition calc_amplitude_spectrum (inp : list R) (N : Z)
    (amplitude_spectrum : list R) : option (list R) :=
  if decide (0 < N ≤ Z.of_nat (length inp)) then
    let out := rfftw_one (take (Z.to_nat N) inp) in
    o ← aget out 0;
    amplitude_spectrum ← aset amplitude_spectrum 0 (sqrt (o * o));
    amplitude_spectrum ←
      for_loop 1 (Z.quot (N + 1) 2)
        (fun k amp =>
           a ← aget out k;
           b ← aget out (N - k);
           aset amp k (sqrt (a * a + b * b)))
        amplitude_spectrum;
    if decide (Z.rem N 2 = 0) then
      c ← aget out (Z.quot N 2);
      aset amplitude_spectrum (Z.quot N 2) (sqrt (c * c))
    else Some amplitude_spectrum
  else None.

(** ** [output_csv] *)

(** The body of the loop over [k]: the value printed for bin [k]. *)
Definition csv_value (cfg : config) (g : globals) (dim k : Z) : option R :=
  let v := 0%R in
  if max_instead_of_avg cfg then
    for_loop 0 (avg_int_in_sec cfg)
      (fun j v =>
         a ← aget3 (ampspec g) dim j k;
         let v := if Rgt_dec a v then a else if decide (j = 0) then a else v in
         Some (v / (IZR (samplerate cfg) / 1000))%R)
      v
  else
    v ← for_loop 0 (avg_int_in_sec cfg)
          (fun j v => a ← aget3 (ampspec g) dim j k; Some (v + a)%R)
          v;
    n ← int_mul (avg_int_in_sec cfg) (samplerate cfg);
    Some (v / (IZR n / 1000))%R.

(** [csv_prepare] creates the file of the day and axis, with its header,
    when it is not there; only the success of its [fopen] matters here.
    The time stamp that starts the row is left out of the model. *)
Definition output_csv (fs : sink_env) (cfg : config) (dim : Z) (g : globals)
  : option (bool * globals) :=
  let answers := fs (trace g) dim in
  if negb (fopen_create answers) then Some (false, emit_event (Open_error dim) g)
  else if negb (fopen_append answers) then
    Some (false, emit_event (Reopen_error dim) g)
  else
    vals ← for_loop 0 (maxfreq cfg + 1)
             (fun k vals => v ← csv_value cfg g dim k; Some (vals ++ [v]))
             [];
    Some (true, emit_event (if fprintf_ok answers then Csv_row dim vals
                            else Csv_row_lost dim) g).

(** ** [process] *)

(** [while ((ptr >= PIPELINE_LEN) && (ptr >= 0)) ptr = ptr - PIPELINE_LEN;]
    The loop runs at most [ptr / PIPELINE_LEN] times, so [fuel] iterations
    always suffice when [fuel] is [ptr] itself. *)
Fixpoint wrap_ptr (fuel : nat) (ptr : Z) : Z :=
  match fuel with
  | O => ptr
  | S fuel' =>
      if (ptr >=? PIPELINE_LEN) && (ptr >=? 0)
      then wrap_ptr fuel' (ptr - PIPELINE_LEN)
      else ptr
  end.

(** The slot that iteration [k] of [process] looks at. *)
Definition scan_ptr (ibptr k : Z) : Z :=
  let ptr := ibptr + k + Z.quot PIPELINE_LEN 10 in
  wrap_ptr (Z.to_nat ptr) ptr.

(** The branch taken when [unproc[ptr]] is set. *)
Definition process_slot (fs : sink_env) (cfg : config) (ptr : Z) (g : globals)
  : option globals :=
  let ptr := if ptr >=? PIPELINE_LEN then 0 else ptr in
  g ← for_loop 0 3
         (fun i g =>
            inp ← aget2 (inbuf g) ptr i;
            amp ← aget2 (ampspec g) i (aind g);
            amp' ← calc_amplitude_spectrum inp (samplerate cfg) amp;
            spec' ← aset2 (ampspec g) i (aind g) amp';
            Some (set_ampspec spec' g))
         g;
  let g := set_aind (aind g + 1) g in
  g ← (if decide (aind g = avg_int_in_sec cfg) then
         let g := set_aind 0 g in
         for_loop 0 3 (fun i g => r ← output_csv fs cfg i g; Some (r.2)) g
       else Some g);
  flags ← aset (unproc g) ptr false;
  Some (set_unproc flags g).

Definition process_iter (fs : sink_env) (cfg : config) (k : Z) (g : globals)
  : option globals :=
  let ptr := scan_ptr (ibptr g) k in
  flag ← aget (unproc g) ptr;
  if (flag : bool) then process_slot fs cfg ptr g else Some g.

Definition process (fs : sink_env) (cfg : config) (g : globals) : option globals :=
  for_loop 0 PIPELINE_LEN (process_iter fs cfg) g.

(** ** [SpatialDataHandler] *)

(** The body of the loop over the samples of a batch.  The branch for the
    WAV file only touches [wavfile] and [moving_average], which nothing
    modelled here reads. *)
Definition handle_sample (cfg : config) (d : acceleration) (g : globals)
  : option globals :=
  g ← for_loop 0 3
         (fun i g =>
            v ← acceleration_at d i;
            buf ← aset3 (inbuf g) (ibptr g) i (rbufi g) v;
            Some (set_inbuf buf g))
         g;
  let g := set_rbufi (rbufi g + 1) g in
  if decide (rbufi g = samplerate cfg) then
    let g := set_rbufi 0 g in
    flags ← aset (unproc g) (ibptr g) true;
    let g := set_unproc flags g in
    let g := set_ibptr (ibptr g + 1) g in
    let g := if ibptr g >=? PIPELINE_LEN then set_ibptr 0 g else g in
    flag ← aget (unproc g) (ibptr g);
    Some (if (flag : bool) then emit_event Realtime_error g else g)
  else Some g.

Definition SpatialDataHandler (cfg : config) (data : list acceleration)
    (count : Z) (g : globals) : option globals :=
  for_loop 0 count (fun k g => d ← aget data k; handle_sample cfg d g) g.

(** ** Start-up and scheduling *)

(** [controlloop] once the sensor is attached: [open_output], which is
    [alloc_spec_buffers], then
    [CPhidgetSpatial_setDataRate (spatial, (int)(1000 / samplerate))], then
    the [for (;;)] loop.  The quotient is one of two [int] values, which
    truncates; dividing by 0 is undefined and ends the program.  The [pow]
    that sets [avgconst] before is a floating-point operation and cannot
    trap. *)
Definition controlloop (cfg : config) : startup :=
  if info_only cfg then Info_shown
  else
    match alloc_spec_buffers cfg initial_globals with
    | Some g =>
        if decide (samplerate cfg = 0) then Division_by_zero
        else Processing (Z.quot 1000 (samplerate cfg)) g
    | None => Allocation_aborted
    end.

(** [main]: [parsed] is what [g_option_context_parse] made of the command
    line, [None] when it failed. *)
Definition main (parsed : option config) : startup :=
  match parsed with
  | None => Invalid_options
  | Some cfg => controlloop cfg
  end.

Definition run_action (fs : sink_env) (cfg : config) (a : action) (g : globals)
  : option globals :=
  match a with
  | Deliver data => SpatialDataHandler cfg data (Z.of_nat (length data)) g
  | Process => process fs cfg g
  end.

Fixpoint run (fs : sink_env) (cfg : config) (sched : list action) (g : globals)
  : option globals :=
  match sched with
  | [] => Some g
  | a :: sched' => g' ← run_action fs cfg a g; run fs cfg sched' g'
  end.

(** ** Specification-side definitions

    The definitions below follow the words of the specification, or name
    the invariants and observations the theorems are about; the theorems
    compare them with the code above. *)

(** The cell [out[i]], 0 outside the array. *)
Definition cell (out : list R) (i : Z) : R := default 0%R (aget out i).

(** The bins of a one-sided amplitude spectrum of [N] transform outputs:
    bin 0 is the magnitude of the DC coefficient, bin [N / 2] for an even
    [N] the magnitude of the Nyquist coefficient, every other bin combines
    the pair [out[k]], [out[N - k]]. *)
Definition spectrum_bin (out : list R) (N k : Z) : R :=
  if decide (k = 0) then Rabs (cell out 0)
  else if decide (2 * k = N) then Rabs (cell out k)
  else sqrt (cell out k * cell out k + cell out (N - k) * cell out (N - k)).

Definition amplitude_bins (out : list R) (N : Z) : list R :=
  spectrum_bin out N <$> seqZ 0 (N / 2 + 1).

(** The shape [alloc_spec_buffers] gives the buffers. *)
Definition dims3 {A : Type} (a b c : Z) (buf : list (list (list A))) : Prop :=
  Z.of_nat (length buf) = a ∧
  ∀ i j row, aget2 buf i j = Some row → Z.of_nat (length row) = c.

Definition rows2 {A : Type} (a b : Z) (buf : list (list (list A))) : Prop :=
  Z.of_nat (length buf) = a ∧
  ∀ i plane, aget buf i = Some plane → Z.of_nat (length plane) = b.

Definition buffers_allocated (cfg : config) (g : globals) : Prop :=
  Z.of_nat (length (unproc g)) = PIPELINE_LEN ∧
  rows2 PIPELINE_LEN 3 (inbuf g) ∧
  dims3 PIPELINE_LEN 3 (samplerate cfg) (inbuf g) ∧
  rows2 3 (avg_int_in_sec cfg) (ampspec g) ∧
  dims3 3 (avg_int_in_sec cfg) (samplerate cfg / 2 + 1) (ampspec g).

(** The write cursors of the producer and the fill index of the consumer. *)
Definition cursors_in_range (cfg : config) (g : globals) : Prop :=
  0 ≤ ibptr g < PIPELINE_LEN ∧ 0 ≤ rbufi g < samplerate cfg.

Definition window_in_range (cfg : config) (g : globals) : Prop :=
  0 ≤ aind g < avg_int_in_sec cfg.

(** Slots whose ready flag is set, and overruns reported so far. *)
Definition ready_slots (g : globals) : nat :=
  length (filter (fun b : bool => b = true) (unproc g)).

Definition is_realtime_error (e : event) : bool :=
  match e with Realtime_error => true | _ => false end.

Definition overruns (g : globals) : nat :=
  length (filter (fun e => is_realtime_error e = true) (trace g)).

(** The axis of the row a call of [output_csv] wrote, lost or failed to
    open a file for. *)
Definition emission_axis (e : event) : option Z :=
  match e with
  | Realtime_error => None
  | Open_error dim | Reopen_error dim | Csv_row dim _ | Csv_row_lost dim => Some dim
  end.

(** The program from its start: the buffers are allocated, then the
    scheduler runs. *)
Definition boot (fs : sink_env) (cfg : config) (sched : list action)
  : option globals :=
  alloc_spec_buffers cfg initial_globals ≫= run fs cfg sched.

(** The flags after [n] whole seconds without draining: the first
    [min n PIPELINE_LEN] slots are ready. *)
Definition flags_after (n : nat) : list bool :=
  replicate (n `min` Z.to_nat PIPELINE_LEN) true ++
  replicate (Z.to_nat PIPELINE_LEN - n `min` Z.to_nat PIPELINE_LEN) false.

(** The state of the producer after [n] whole seconds without draining. *)
Definition undrained (n : nat) (g : globals) : Prop :=
  rbufi g = 0 ∧
  ibptr g = Z.of_nat n mod PIPELINE_LEN ∧
  unproc g = flags_after n ∧
  trace g = replicate (n + 1 - Z.to_nat PIPELINE_LEN) Realtime_error.

(** The order in which one call of [process] looks at the slots, in the
    words of the drain operation: circular, increasing, from the slot
    [start] positions after the write pointer [ib]. *)
Definition circular_scan (start ib : Z) : list Z :=
  (fun k => (ib + start + k) mod PIPELINE_LEN) <$> seqZ 0 PIPELINE_LEN.

(** What the drain operation does with the slot it looks at: a slot whose
    flag is set is processed, any other is left alone. *)
Definition visit (fs : sink_env) (cfg : config) (ptr : Z) (g : globals)
  : option globals :=
  flag ← aget (unproc g) ptr;
  if (flag : bool) then process_slot fs cfg ptr g else Some g.

(** The configurations the buffers are large enough for. *)
Definition config_ok (cfg : config) : Prop :=
  0 < samplerate cfg ∧ 0 < avg_int_in_sec cfg ∧
  maxfreq cfg ≤ samplerate cfg / 2 ∧
  (max_instead_of_avg cfg = false →
   avg_int_in_sec cfg * samplerate cfg ≤ INT_MAX).

(** What the consumer leaves alone: the producer's cursors and slots. *)
Definition same_producer (g g' : globals) : Prop :=
  rbufi g' = rbufi g ∧ ibptr g' = ibptr g ∧ inbuf g' = inbuf g.

(** The value of bin [k] in the [j]-th spectrum of the window of axis
    [dim]. *)
Definition window_entry (g : globals) (dim k : Z) (j : nat) : R :=
  default 0%R (aget3 (ampspec g) dim (Z.of_nat j) k).

(** The sum of the first [n] entries. *)
Fixpoint window_sum (a : nat → R) (n : nat) : R :=
  match n with
  | O => 0
  | S n' => window_sum a n' + a n'
  end.

(** The largest of the entries [0 .. j]. *)
Fixpoint window_max (a : nat → R) (j : nat) : R :=
  match j with
  | O => a O
  | S j' => Rmax (window_max a j') (a j)
  end.

(** The reference running-max loop, as the value of the accumulator at the
    end of iteration [j]: the accumulator takes the [j]-th entry when that
    entry exceeds it or [j = 0], and is then divided by [d]. *)
Fixpoint reference_max (d : R) (a : nat → R) (j : nat) : R :=
  match j with
  | O => a O / d
  | S j' =>
      let v := reference_max d a j' in
      (if Rgt_dec (a j) v then a j else v) / d
  end.

(** The scale factor [samplerate / 1000.0]. *)
Definition scale (cfg : config) : R := IZR (samplerate cfg) / 1000.

(** The value a row carries for bin [k]. *)
Definition row_value (cfg : config) (g : globals) (dim k : Z) : R :=
  if max_instead_of_avg cfg then
    reference_max (scale cfg) (window_entry g dim k) (Z.to_nat (avg_int_in_sec cfg - 1))
  else
    window_sum (window_entry g dim k) (Z.to_nat (avg_int_in_sec cfg))
      / (IZR (avg_int_in_sec cfg * samplerate cfg) / 1000).

Definition row_values (cfg : config) (g : globals) (dim : Z) : list R :=
  row_value cfg g dim <$> seqZ 0 (maxfreq cfg + 1).

(** What one call of [output_csv] adds to the trace. *)
Definition emission (fs : sink_env) (cfg : config) (dim : Z) (g : globals) : event :=
  let answers := fs (trace g) dim in
  if negb (fopen_create answers) then Open_error dim
  else if negb (fopen_append answers) then Reopen_error dim
  else if fprintf_ok answers then Csv_row dim (row_values cfg g dim)
  else Csv_row_lost dim.

Definition emission_result (fs : sink_env) (dim : Z) (g : globals) : bool :=
  let answers := fs (trace g) dim in
  fopen_create answers && fopen_append answers.

(** ** Further observations *)

(** Component [i] of a sample, 0 for an index that is not an axis. *)
Definition axis_of (i : Z) (d : acceleration) : R :=
  default 0%R (acceleration_at d i).

(** Calls of [output_csv] so far: every event but the overrun report. *)
Definition emissions (g : globals) : nat :=
  length (filter (fun e => is_realtime_error e = false) (trace g)).

(** A round of the scheduler: some batches are delivered, then the main
    loop calls [process]. *)
Definition round (batches : list (list acceleration)) : list action :=
  (Deliver <$> batches) ++ [Process].

(** A round that delivers exactly [m] whole seconds, with [m] below the
    length of the pipeline. *)
Definition round_of (cfg : config) (batches : list (list acceleration)) (m : nat)
  : Prop :=
  Z.of_nat m < PIPELINE_LEN ∧
  Z.of_nat (length (concat batches)) = samplerate cfg * Z.of_nat m.

(** The producer [k] seconds after a state in which no flag was set and the
    write pointer was at [p]: the [k] slots from [p] on are ready. *)
Definition ahead_by (cfg : config) (p : Z) (k : nat) (g : globals) : Prop :=
  buffers_allocated cfg g ∧ rbufi g = 0 ∧
  ibptr g = (p + Z.of_nat k) mod PIPELINE_LEN ∧
  (∀ j, 0 ≤ j < PIPELINE_LEN →
     aget (unproc g) j = Some (bool_decide ((j - p) mod PIPELINE_LEN < Z.of_nat k))) ∧
  ready_slots g = k.

(** The consumer has caught up: no slot is ready, no second is under way. *)
Definition drained (cfg : config) (g : globals) : Prop :=
  buffers_allocated cfg g ∧ cursors_in_range cfg g ∧ window_in_range cfg g ∧
  rbufi g = 0 ∧
  ∀ j, 0 ≤ j < PIPELINE_LEN → aget (unproc g) j = Some false.

(** ** [csv_prepare]

    The columns of the header line: ["timestamp"], then [",%i Hz"] for the
    bins 0 to [maxfreq]. *)
Inductive column :=
  | Timestamp_col
  | Hz_col (i : Z).

(** [for (i = lo; i < hi; i++) s = body i s] for a body that cannot fail. *)
Definition for_each {T : Type} (lo hi : Z) (body : Z → T → T) (s : T) : T :=
  foldl (fun s i => body i s) s (seqZ lo (hi - lo)).

Definition csv_header (cfg : config) : list column :=
  for_each 0 (maxfreq cfg + 1) (fun i cols => cols ++ [Hz_col i]) [Timestamp_col].

(** [does_file_exist]: whether [fopen (name, "r")] gives a stream.  The
    answer is [FALSE] for a file that is not there and also for one that is
    there and cannot be opened for reading. *)
Definition does_file_exist (fopen_read : bool) : bool :=
  let exist := false in
  if fopen_read then true else exist.

(** The mode of an [fopen]: ["w"] creates the file or truncates it to
    length zero, ["a"] appends. *)
Inductive fopen_mode := Mode_w | Mode_a.

(** [csv_prepare]: [fopen_read] is whether the [fopen] of
    [does_file_exist] succeeds and [fopen_ok] whether the [fopen] in the
    chosen mode does.  The result is the value returned, the mode chosen
    and the header line written, if any. *)
Definition csv_prepare (cfg : config) (fopen_read fopen_ok : bool)
  : bool * fopen_mode * option (list column) :=
  let open_mode := Mode_w in
  let open_mode := if does_file_exist fopen_read then Mode_a else open_mode in
  if negb fopen_ok then (false, open_mode, None)
  else
    match open_mode with
    | Mode_w => (true, open_mode, Some (csv_header cfg))
    | Mode_a => (true, open_mode, None)
    end.

(** ** The WAV file

    [wavfile], [moving_average] and [avgconst], and what libsndfile is
    asked to do.  A [double[3]] is a triple.  The file system and the
    library answer through an environment that sees the calls made so far:
    the day that [localtime] reports, whether the file of that day exists
    as [does_file_exist] sees it, that is whether it opens for reading, and
    the handle an [sf_open] returns, [None] for a null pointer.  The
    [SF_INFO] that [sf_open] reads and fills belongs to the library. *)

Definition MAX_G : R := 0.005.
Definition tau : R := 10.

(** [avgconst = pow (2.0, -1.0 / (tau * samplerate))], for a sample rate
    other than 0. *)
Definition avgconst (cfg : config) : R :=
  Rpower 2 (-1 / (tau * IZR (samplerate cfg))).

Definition frame : Type := (R * R * R)%type.

Definition frame_zip (f : R → R → R) (a b : frame) : frame :=
  let '(a0, a1, a2) := a in
  let '(b0, b1, b2) := b in
  (f a0 b0, f a1 b1, f a2 b2).

Inductive sf_mode := SFM_WRITE | SFM_RDWR.

Inductive wav_event :=
  | Sf_close (h : nat)
  | Sf_open (day : Z) (mode : sf_mode) (h : option nat)
  | Sf_seek_end (h : option nat)
  | Sf_write_double (h : nat) (data : frame).

Record wav_answers := Wav_answers {
  today : Z;
  file_exists : bool;
  sf_open : option nat
}.

Definition wav_env : Type := list wav_event → wav_answers.

Record wav_globals := Wav_globals {
  wavfile : option nat;
  moving_average : frame;
  wav_trace : list wav_event
}.

Definition initial_wav : wav_globals :=
  {| wavfile := None; moving_average := (0, 0, 0)%R; wav_trace := [] |}.

Definition set_wavfile (v : option nat) (w : wav_globals) : wav_globals :=
  {| wavfile := v; moving_average := moving_average w; wav_trace := wav_trace w |}.
Definition set_moving_average (v : frame) (w : wav_globals) : wav_globals :=
  {| wavfile := wavfile w; moving_average := v; wav_trace := wav_trace w |}.
Definition wav_call (e : wav_event) (w : wav_globals) : wav_globals :=
  {| wavfile := wavfile w; moving_average := moving_average w;
     wav_trace := wav_trace w ++ [e] |}.

Definition close_wav (w : wav_globals) : wav_globals :=
  match wavfile w with
  | Some h => set_wavfile None (wav_call (Sf_close h) w)
  | None => w
  end.

(** [wavfile = sf_open (filename, mode, &sfinfo)] *)
Definition open_wav (env : wav_env) (day : Z) (mode : sf_mode) (w : wav_globals)
  : wav_globals :=
  let h := sf_open (env (wav_trace w)) in
  set_wavfile h (wav_call (Sf_open day mode h) w).

Definition write_wav (env : wav_env) (c : R) (data : frame) (check : bool)
    (w : wav_globals) : wav_globals :=
  let w :=
    if check then
      let day := today (env (wav_trace w)) in
      let w :=
        if negb (file_exists (env (wav_trace w))) then
          let w := close_wav w in
          let w := open_wav env day SFM_WRITE w in
          set_moving_average data w
        else w in
      match wavfile w with
      | None =>
          let w := open_wav env day SFM_RDWR w in
          let w := wav_call (Sf_seek_end (wavfile w)) w in
          set_moving_average data w
      | Some _ => w
      end
    else w in
  let ma := frame_zip (fun m d => c * m + (1 - c) * d)%R (moving_average w) data in
  let data := frame_zip Rminus data ma in
  let w := set_moving_average ma w in
  match wavfile w with
  | Some h => wav_call (Sf_write_double h data) w
  | None => w
  end.

(** The sample as the WAV branch of [SpatialDataHandler] passes it on. *)
Definition wav_buf (d : acceleration) : frame :=
  let '(x, y, z) := d in (x / MAX_G, y / MAX_G, z / MAX_G)%R.

(** [SpatialDataHandler], as far as the WAV file goes: [wav] is the option
    of the command line, and [avgconst] has been set by [controlloop]. *)
Definition SpatialDataHandler_wav (env : wav_env) (cfg : config) (wav : bool)
    (data : list acceleration) (count : Z) (w : wav_globals) : option wav_globals :=
  for_loop 0 count
    (fun k w =>
       d ← aget data k;
       Some (if wav then write_wav env (avgconst cfg) (wav_buf d) (k =? 0) w else w))
    w.

(** The moving average after [n] more samples [buf], and the frame written
    for the [n]-th of them. *)
Definition decayed (c : R) (n : nat) (ma buf : frame) : frame :=
  frame_zip (fun m b => b + c ^ n * (m - b))%R ma buf.

Definition residue (c : R) (n : nat) (ma buf : frame) : frame :=
  frame_zip (fun m b => c ^ n * (b - m))%R ma buf.

(** The use the program makes of libsndfile, replayed from the handle
    [cur] that is open: a close closes it, an open finds none open, a seek
    or a write goes to it.  The result is the handle open at the end,
    [None] when a call breaks this discipline. *)
Fixpoint wav_replay (cur : option nat) (t : list wav_event) : option (option nat) :=
  match t with
  | [] => Some cur
  | Sf_close h :: t' =>
      if decide (cur = Some h) then wav_replay None t' else None
  | Sf_open _ _ r :: t' =>
      if decide (cur = None) then wav_replay r t' else None
  | Sf_seek_end r :: t' =>
      if decide (cur = r) then wav_replay cur t' else None
  | Sf_write_double h _ :: t' =>
      if decide (cur = Some h) then wav_replay cur t' else None
  end.

Definition is_write (e : wav_event) : bool :=
  match e with Sf_write_double _ _ => true | _ => false end.

End Model.

(** ** A transform and some states, for the examples *)

(** The transform FFTW documents for [rfftw_one]: the discrete Fourier
    transform of a real sequence in halfcomplex order, the real parts of
    the coefficients [0 .. N / 2] followed by the imaginary parts of the
    coefficients [(N + 1) / 2 - 1 .. 1]. *)
Definition dft_sum (w : nat → R) (l : list R) : R :=
  foldr Rplus 0%R (imap (fun n x => (x * w n)%R) l).

Definition halfcomplex_dft (l : list R) : list R :=
  let N := length l in
  (fun k : nat =>
     if decide (2 * k ≤ N)%nat
     then dft_sum (fun n => cos (2 * PI * INR k * INR n / INR N)) l
     else dft_sum (fun n => (- sin (2 * PI * INR (N - k) * INR n / INR N))%R) l)
  <$> seq 0 N.

#[global] Instance halfcomplex : Fftw :=
  {| rfftw_one := halfcomplex_dft;
     rfftw_one_length := fun l =>
       eq_trans (length_fmap _ (seq 0 (length l))) (length_seq _ _) |}.

(** The state in which the processing loop starts. *)
Definition fresh (cfg : config) : globals :=
  default initial_globals (alloc_spec_buffers cfg initial_globals).

(** The same with the three windows holding the given spectra. *)
Definition with_window (cfg : config) (spectra : list (list R)) : globals :=
  set_ampspec (replicate 3 spectra) (fresh cfg).

(** A spectrum that is zero except for its DC bin. *)
Definition dc_spectrum (cfg : config) (x : R) : list R :=
  <[0%nat := x]> (replicate (Z.to_nat (samplerate cfg / 2 + 1)) 0%R).

(** The default configuration with the policy max and a window of two
    seconds. *)
Definition max_config : config :=
  {| samplerate := 1000; maxfreq := 150; avg_int_in_sec := 2;
     max_instead_of_avg := true; info_only := false |}.

(** The same at 2000 samples per second. *)
Definition fast_config : config :=
  {| samplerate := 2000; maxfreq := 150; avg_int_in_sec := 2;
     max_instead_of_avg := true; info_only := false |}.

(** The default configuration with [maxfreq] above [samplerate / 2]. *)
Definition wide_config : config :=
  {| samplerate := 1000; maxfreq := 600; avg_int_in_sec := 10;
     max_instead_of_avg := false; info_only := false |}.

(** The default configuration at 100 samples per second. *)
Definition slow_config : config :=
  {| samplerate := 100; maxfreq := 50; avg_int_in_sec := 10;
     max_instead_of_avg := false; info_only := false |}.

(** The default configuration with the sample rate 0. *)
Definition zero_rate_config : config :=
  {| samplerate := 0; maxfreq := 150; avg_int_in_sec := 10;
     max_instead_of_avg := false; info_only := false |}.

Definition still : acceleration := (0%R, 0%R, 1%R).

(** A window whose spectra all have the DC bin [x]. *)
Definition constant_window (cfg : config) (x : R) : globals :=
  with_window cfg (replicate (Z.to_nat (avg_int_in_sec cfg)) (dc_spectrum cfg x)).

(** Three seconds of samples in two batches, and 99 samples with calls of
    [process] in between. *)
Definition three_seconds : list (list acceleration) :=
  [replicate 1500 still; replicate 1500 still].

Definition interrupted_second : list action :=
  [Deliver (replicate 50 still); Process; Deliver (replicate 49 still); Process].

(** [n] whole seconds of samples in one batch, at the default rate. *)
Definition whole_seconds (n : Z) : list (list acceleration) :=
  [replicate (Z.to_nat (1000 * n)) still].

(** The starting state with the flag of one slot set. *)
Definition only_slot_ready (cfg : config) (slot : nat) : globals :=
  set_unproc (<[slot := true]> (unproc (fresh cfg))) (fresh cfg).

(** One second of samples at the default rate, in two batches. *)
Definition one_second : list (list acceleration) :=
  [replicate 400 still; replicate 600 still].

(** Three seconds in two rounds, of one second and of two. *)
Definition two_rounds : list (list (list acceleration)) :=
  [[replicate 1000 still]; [replicate 1500 still; replicate 500 still]].

(** The file of the day exists and opens. *)
Definition wav_env_ready : wav_env := fun _ =>
  {| today := 0; file_exists := true; sf_open := Some 1%nat |}.

(** A new day: no file yet, and [sf_open] creates it. *)
Definition wav_env_new_day : wav_env := fun _ =>
  {| today := 1; file_exists := false; sf_open := Some 2%nat |}.

(** The state after the file of the day has been opened for appending. *)
Definition wav_opened : wav_globals :=
  {| wavfile := Some 1%nat; moving_average := (0, 0, 0)%R;
     wav_trace := [Sf_open 0 SFM_RDWR (Some 1%nat); Sf_seek_end (Some 1%nat)] |}.

Section Proofs.
Context {fftw : Fftw}.

(** * Proofs *)

(** ** Arrays and loops *)

Lemma aget_lookup {A : Type} (l : list A) (i : Z) :
  0 ≤ i → aget l i = l !! Z.to_nat i.
Proof. intros Hi. unfold aget. by rewrite decide_True. Qed.

Lemma aget_nat {A : Type} (l : list A) (n : nat) :
  aget l (Z.of_nat n) = l !! n.
Proof. rewrite aget_lookup by lia. by rewrite Nat2Z.id. Qed.

Lemma aget_Some_inv {A : Type} (l : list A) (i : Z) (x : A) :
  aget l i = Some x → 0 ≤ i < Z.of_nat (length l) ∧ l !! Z.to_nat i = Some x.
Proof.
  unfold aget. case_decide; [|done]. intros Hx. split; [|done].
  apply lookup_lt_Some in Hx. lia.
Qed.

Lemma aget_is_Some {A : Type} (l : list A) (i : Z) :
  0 ≤ i < Z.of_nat (length l) → is_Some (aget l i).
Proof.
  intros Hi. rewrite aget_lookup by lia. apply lookup_lt_is_Some. lia.
Qed.

Lemma aget_None {A : Type} (l : list A) (i : Z) :
  ¬ (0 ≤ i < Z.of_nat (length l)) → aget l i = None.
Proof.
  intros Hi. unfold aget. case_decide; [|done].
  apply lookup_ge_None. lia.
Qed.

Lemma aset_Some {A : Type} (l : list A) (i : Z) (x : A) :
  0 ≤ i < Z.of_nat (length l) → aset l i x = Some (<[Z.to_nat i := x]> l).
Proof. intros Hi. unfold aset. by rewrite decide_True. Qed.

Lemma aset_Some_inv {A : Type} (l l' : list A) (i : Z) (x : A) :
  aset l i x = Some l' →
  0 ≤ i < Z.of_nat (length l) ∧ l' = <[Z.to_nat i := x]> l.
Proof. unfold aset. case_decide; [|done]. intros [= <-]. done. Qed.

Lemma for_loop_from_inv {T : Type} (I : Z → T → Prop) (body : Z → T → option T)
    (n : nat) (lo : Z) (s : T) :
  I lo s →
  (∀ i t, lo ≤ i < lo + Z.of_nat n → I i t → ∃ t', body i t = Some t' ∧ I (i + 1) t') →
  ∃ s', for_loop_from n lo body s = Some s' ∧ I (lo + Z.of_nat n) s'.
Proof.
  revert lo s. induction n as [|n IH]; intros lo s Hs Hbody.
  - exists s. split; [done|]. by replace (lo + Z.of_nat 0) with lo by lia.
  - destruct (Hbody lo s) as (t & Ht & HIt); [lia|done|].
    destruct (IH (lo + 1) t) as (s' & Hs' & HI'); [done| |].
    + intros i u Hi Hu. apply Hbody; [lia|done].
    + exists s'. cbn. rewrite Ht. cbn. split; [done|].
      by replace (lo + Z.of_nat (S n)) with (lo + 1 + Z.of_nat n) by lia.
Qed.

Lemma for_loop_inv {T : Type} (I : Z → T → Prop) (body : Z → T → option T)
    (lo hi : Z) (s : T) :
  lo ≤ hi → I lo s →
  (∀ i t, lo ≤ i < hi → I i t → ∃ t', body i t = Some t' ∧ I (i + 1) t') →
  ∃ s', for_loop lo hi body s = Some s' ∧ I hi s'.
Proof.
  intros Hle Hs Hbody. unfold for_loop.
  destruct (for_loop_from_inv I body (Z.to_nat (hi - lo)) lo s) as (s' & H1 & H2);
    [done| |].
  - intros i t Hi. apply Hbody. lia.
  - exists s'. split; [done|].
    by replace (lo + Z.of_nat (Z.to_nat (hi - lo))) with hi in H2 by lia.
Qed.

Lemma for_loop_empty {T : Type} (body : Z → T → option T) (lo hi : Z) (s : T) :
  hi ≤ lo → for_loop lo hi body s = Some s.
Proof. intros H. unfold for_loop. by replace (Z.to_nat (hi - lo)) with O by lia. Qed.

Lemma for_loop_from_ext {T : Type} (f g : Z → T → option T) (n : nat) (lo : Z) (s : T) :
  (∀ i t, lo ≤ i < lo + Z.of_nat n → f i t = g i t) →
  for_loop_from n lo f s = for_loop_from n lo g s.
Proof.
  revert lo s. induction n as [|n IH]; intros lo s Hfg; [done|].
  cbn. rewrite Hfg by lia. destruct (g lo s) as [t|]; [|done]. cbn.
  apply IH. intros i u Hi. apply Hfg. lia.
Qed.

Lemma for_loop_from_snoc {T : Type} (body : Z → T → option T) (n : nat) (lo : Z) (s : T) :
  for_loop_from (S n) lo body s =
  for_loop_from n lo body s ≫= body (lo + Z.of_nat n).
Proof.
  revert lo s. induction n as [|n IH]; intros lo s.
  - cbn. replace (lo + Z.of_nat 0) with lo by lia. by destruct (body lo s).
  - change (for_loop_from (S (S n)) lo body s)
      with (body lo s ≫= for_loop_from (S n) (lo + 1) body).
    change (for_loop_from (S n) lo body s)
      with (body lo s ≫= for_loop_from n (lo + 1) body).
    destruct (body lo s) as [t|]; [|done]. cbn [mbind option_bind].
    rewrite IH. by replace (lo + 1 + Z.of_nat n) with (lo + Z.of_nat (S n)) by lia.
Qed.

Lemma for_loop_snoc {T : Type} (body : Z → T → option T) (lo hi : Z) (s : T) :
  lo ≤ hi → for_loop lo (hi + 1) body s = for_loop lo hi body s ≫= body hi.
Proof.
  intros Hle. unfold for_loop.
  replace (Z.to_nat (hi + 1 - lo)) with (S (Z.to_nat (hi - lo))) by lia.
  rewrite for_loop_from_snoc. by replace (lo + Z.of_nat (Z.to_nat (hi - lo))) with hi by lia.
Qed.


(** ** The amplitude spectrum *)

Lemma cell_aget (out : list R) (i : Z) :
  0 ≤ i < Z.of_nat (length out) → aget out i = Some (cell out i).
Proof.
  intros Hi. unfold cell. by destruct (aget_is_Some out i Hi) as [x ->].
Qed.

Lemma cell_lookup (out : list R) (i : Z) (x : R) :
  0 ≤ i → out !! Z.to_nat i = Some x → cell out i = x.
Proof. intros Hi Hx. unfold cell. rewrite aget_lookup by done. by rewrite Hx. Qed.

Lemma sqrt_square (x : R) : sqrt (x * x) = Rabs x.
Proof. apply sqrt_Rsqr_abs. Qed.

Lemma spectrum_bin_nonneg (out : list R) (N k : Z) : (0 <= spectrum_bin out N k)%R.
Proof.
  unfold spectrum_bin. repeat case_decide; auto using Rabs_pos, sqrt_pos.
Qed.

Lemma amplitude_bins_length (out : list R) (N : Z) :
  length (amplitude_bins out N) = Z.to_nat (N / 2 + 1).
Proof. unfold amplitude_bins. by rewrite length_fmap, length_seqZ. Qed.

Lemma amplitude_bins_lookup (out : list R) (N k : Z) :
  0 ≤ k ≤ N / 2 →
  amplitude_bins out N !! Z.to_nat k = Some (spectrum_bin out N k).
Proof.
  intros Hk. unfold amplitude_bins. rewrite list_lookup_fmap.
  rewrite lookup_seqZ_lt by lia. cbn. f_equal. f_equal. lia.
Qed.

Lemma calc_amplitude_spectrum_refines (inp : list R) (N : Z) (amp : list R) :
  0 < N ≤ Z.of_nat (length inp) →
  N / 2 + 1 ≤ Z.of_nat (length amp) →
  calc_amplitude_spectrum inp N amp =
    Some (amplitude_bins (rfftw_one (take (Z.to_nat N) inp)) N
            ++ drop (Z.to_nat (N / 2 + 1)) amp).
Proof.
  intros HN Hamp. unfold calc_amplitude_spectrum.
  rewrite decide_True by done.
  set (out := rfftw_one (take (Z.to_nat N) inp)).
  assert (Hout : Z.of_nat (length out) = N).
  { unfold out. rewrite rfftw_one_length, length_take. lia. }
  assert (Hh : 0 ≤ N / 2) by (apply Z.div_pos; lia).
  assert (HN2 : N = 2 * (N / 2) + N mod 2) by (apply Z.div_mod; lia).
  assert (Hm : 0 ≤ N mod 2 < 2) by (apply Z.mod_pos_bound; lia).
  rewrite (cell_aget out 0) by lia. cbn [mbind option_bind].
  rewrite aset_Some by lia. cbn [mbind option_bind].
  rewrite !Z.quot_div_nonneg, Z.rem_mod_nonneg by lia.
  set (P := fun (k : Z) (a : list R) =>
    length a = length amp ∧
    ∀ j : nat, a !! j = if decide (Z.of_nat j < k) then Some (spectrum_bin out N (Z.of_nat j))
                        else amp !! j).
  destruct (for_loop_inv P
    (fun k a => x ← aget out k; y ← aget out (N - k); aset a k (sqrt (x * x + y * y)))
    1 ((N + 1) / 2) (<[Z.to_nat 0 := sqrt (cell out 0 * cell out 0)]> amp))
    as (a1 & -> & Hlen & Ha1).
  - assert (2 * 1 ≤ N + 1) by lia. apply Z.div_le_lower_bound; lia.
  - split; [by rewrite length_insert|]. intros j. case_decide.
    + replace j with O by lia. cbn. rewrite list_lookup_insert_eq by lia.
      unfold spectrum_bin. rewrite decide_True by done. by rewrite sqrt_square.
    + rewrite list_lookup_insert_ne by lia. done.
  - intros k a Hk [Hl Ha].
    assert (2 * k < N).
    { assert (k + 1 ≤ (N + 1) / 2) by lia.
      assert (2 * ((N + 1) / 2) ≤ N + 1) by (apply Z.mul_div_le; lia). lia. }
    rewrite (cell_aget out k), (cell_aget out (N - k)) by lia.
    cbn [mbind option_bind]. rewrite aset_Some by lia.
    eexists. split; [done|]. split; [by rewrite length_insert|].
    intros j. destruct (decide (j = Z.to_nat k)) as [->|Hne].
    + rewrite list_lookup_insert_eq by lia. rewrite decide_True by lia.
      rewrite Z2Nat.id by lia. unfold spectrum_bin.
      rewrite decide_False by lia. by rewrite decide_False by lia.
    + rewrite list_lookup_insert_ne by done. rewrite Ha.
      repeat case_decide; try done; lia.
  - cbn [mbind option_bind].
    assert (Hfin : ∀ a : list R, length a = length amp →
      (∀ j : nat, a !! j = if decide (Z.of_nat j < N / 2 + 1)
                           then Some (spectrum_bin out N (Z.of_nat j)) else amp !! j) →
      a = amplitude_bins out N ++ drop (Z.to_nat (N / 2 + 1)) amp).
    { intros a Hl Ha. apply list_eq. intros j. rewrite Ha. case_decide.
      - rewrite lookup_app_l by (rewrite amplitude_bins_length; lia).
        rewrite <- (Nat2Z.id j) at 2. by rewrite amplitude_bins_lookup by lia.
      - rewrite lookup_app_r by (rewrite amplitude_bins_length; lia).
        rewrite amplitude_bins_length, lookup_drop. f_equal. lia. }
    case_decide as Heven.
    + assert ((N + 1) / 2 = N / 2).
      { symmetry. apply Z.div_unique with 1; lia. }
      rewrite (cell_aget out (N / 2)) by lia. cbn [mbind option_bind].
      rewrite aset_Some by lia. f_equal. apply Hfin; [by rewrite length_insert|].
      intros j. destruct (decide (j = Z.to_nat (N / 2))) as [->|Hne].
      * rewrite list_lookup_insert_eq by lia. rewrite decide_True by lia.
        rewrite Z2Nat.id by lia. unfold spectrum_bin.
        rewrite sqrt_square. case_decide as H0; [by rewrite H0|].
        by rewrite decide_True by lia.
      * rewrite list_lookup_insert_ne by done. rewrite Ha1.
        repeat case_decide; try done; lia.
    + assert ((N + 1) / 2 = N / 2 + 1).
      { symmetry. apply Z.div_unique with 0; lia. }
      f_equal. apply Hfin; [done|]. intros j. rewrite Ha1.
      repeat case_decide; try done; lia.
Qed.

(** ** Shapes of the buffers *)

Lemma aget_replicate {A : Type} (n : nat) (x : A) (i : Z) :
  0 ≤ i < Z.of_nat n → aget (replicate n x) i = Some x.
Proof.
  intros Hi. rewrite aget_lookup by lia. apply lookup_replicate_2. lia.
Qed.

Lemma aget_replicate_inv {A : Type} (n : nat) (x y : A) (i : Z) :
  aget (replicate n x) i = Some y → y = x ∧ 0 ≤ i < Z.of_nat n.
Proof.
  intros H. apply aget_Some_inv in H as [Hi H]. rewrite length_replicate in Hi.
  apply lookup_replicate in H as [-> _]. done.
Qed.

Lemma aget_insert_eq {A : Type} (l : list A) (i : Z) (x : A) :
  0 ≤ i < Z.of_nat (length l) → aget (<[Z.to_nat i := x]> l) i = Some x.
Proof.
  intros Hi. rewrite aget_lookup by lia. apply list_lookup_insert_eq. lia.
Qed.

Lemma aget_insert_ne {A : Type} (l : list A) (i j : Z) (x : A) :
  0 ≤ i → i ≠ j → aget (<[Z.to_nat i := x]> l) j = aget l j.
Proof.
  intros Hi Hne. unfold aget. case_decide; [|done].
  apply list_lookup_insert_ne. lia.
Qed.

Lemma aget_insert {A : Type} (l : list A) (i j : Z) (x y : A) :
  0 ≤ i → aget (<[Z.to_nat i := x]> l) j = Some y →
  (j = i ∧ y = x) ∨ (j ≠ i ∧ aget l j = Some y).
Proof.
  intros Hi H. destruct (decide (j = i)) as [->|Hne].
  - left. split; [done|]. apply aget_Some_inv in H as [Hj H].
    rewrite length_insert in Hj. rewrite list_lookup_insert_eq in H by lia.
    congruence.
  - right. split; [done|]. by rewrite aget_insert_ne in H.
Qed.

Lemma aget2_Some_inv {A : Type} (buf : list (list A)) (a b : Z) (x : A) :
  aget2 buf a b = Some x → ∃ row, aget buf a = Some row ∧ aget row b = Some x.
Proof.
  unfold aget2. destruct (aget buf a) as [row|]; [|done]. cbn. eauto.
Qed.

Lemma aget2_intro {A : Type} (buf : list (list A)) (a b : Z) (row : list A) :
  aget buf a = Some row → aget2 buf a b = aget row b.
Proof. intros H. unfold aget2. by rewrite H. Qed.

Lemma dims3_aget2 {A : Type} (a b c : Z) (buf : list (list (list A))) (i j : Z) :
  rows2 a b buf → dims3 a b c buf → 0 ≤ i < a → 0 ≤ j < b →
  ∃ row, aget2 buf i j = Some row ∧ Z.of_nat (length row) = c.
Proof.
  intros [Hl Hr] [_ Hd] Hi Hj.
  destruct (aget_is_Some buf i) as [plane Hp]; [lia|].
  destruct (aget_is_Some plane j) as [row Hrow]; [rewrite (Hr i plane Hp); lia|].
  exists row. rewrite (aget2_intro _ _ _ _ Hp). split; [done|].
  apply (Hd i j). by rewrite (aget2_intro _ _ _ _ Hp).
Qed.

(** Storing a row of the right length keeps the shape. *)
Lemma aset2_shape {A : Type} (a b c : Z) (buf : list (list (list A))) (i j : Z)
    (row : list A) :
  rows2 a b buf → dims3 a b c buf → 0 ≤ i < a → 0 ≤ j < b →
  Z.of_nat (length row) = c →
  ∃ buf', aset2 buf i j row = Some buf' ∧ rows2 a b buf' ∧ dims3 a b c buf' ∧
    aget2 buf' i j = Some row ∧
    (∀ i' j', (i', j') ≠ (i, j) → aget2 buf' i' j' = aget2 buf i' j').
Proof.
  intros [Hl Hr] [_ Hd] Hi Hj Hrow.
  destruct (aget_is_Some buf i) as [plane Hp]; [lia|].
  pose proof (Hr i plane Hp) as Hpl.
  unfold aset2. rewrite Hp. cbn [mbind option_bind].
  rewrite aset_Some by lia. cbn [mbind option_bind]. rewrite aset_Some by lia.
  eexists. split; [done|].
  assert (Hget : ∀ i' j', aget2 (<[Z.to_nat i := <[Z.to_nat j := row]> plane]> buf) i' j' =
    if decide ((i', j') = (i, j)) then Some row else aget2 buf i' j').
  { intros i' j'. unfold aget2. destruct (decide (i' = i)) as [->|Hne].
    - rewrite aget_insert_eq by lia. rewrite Hp. cbn [mbind option_bind].
      destruct (decide (j' = j)) as [->|Hnj].
      + rewrite decide_True by done. apply aget_insert_eq. lia.
      + rewrite decide_False by congruence. apply aget_insert_ne; lia.
    - rewrite aget_insert_ne by lia. rewrite decide_False by congruence. done. }
  repeat split.
  - by rewrite length_insert.
  - intros i' plane' H'. apply aget_insert in H' as [[-> ->]|[_ H']]; [|eauto|lia].
    by rewrite length_insert.
  - by rewrite length_insert.
  - intros i' j' row'. rewrite Hget. case_decide; [congruence|]. apply Hd.
  - rewrite Hget. by rewrite decide_True.
  - intros i' j' Hne. rewrite Hget. by rewrite decide_False.
Qed.

Lemma aset3_shape {A : Type} (a b c : Z) (buf : list (list (list A))) (i j k : Z)
    (x : A) :
  rows2 a b buf → dims3 a b c buf → 0 ≤ i < a → 0 ≤ j < b → 0 ≤ k < c →
  ∃ buf', aset3 buf i j k x = Some buf' ∧ rows2 a b buf' ∧ dims3 a b c buf'.
Proof.
  intros Hr Hd Hi Hj Hk.
  destruct (dims3_aget2 a b c buf i j Hr Hd Hi Hj) as (row & Hrow & Hlen).
  unfold aset3. rewrite Hrow. cbn [mbind option_bind].
  rewrite aset_Some by lia. cbn [mbind option_bind].
  destruct (aset2_shape a b c buf i j (<[Z.to_nat k := x]> row) Hr Hd Hi Hj)
    as (buf' & -> & ? & ? & _); [by rewrite length_insert|]. eauto.
Qed.

Lemma alloc_spec_buffers_shape (cfg : config) (g g' : globals) :
  alloc_spec_buffers cfg g = Some g' →
  0 ≤ samplerate cfg ∧ 0 ≤ avg_int_in_sec cfg ∧
  rbufi g' = rbufi g ∧ ibptr g' = ibptr g ∧ aind g' = aind g ∧
  unproc g' = unproc g ∧ trace g' = trace g ∧
  rows2 PIPELINE_LEN 3 (inbuf g') ∧
  dims3 PIPELINE_LEN 3 (samplerate cfg) (inbuf g') ∧
  rows2 3 (avg_int_in_sec cfg) (ampspec g') ∧
  dims3 3 (avg_int_in_sec cfg) (samplerate cfg / 2 + 1) (ampspec g').
Proof.
  unfold alloc_spec_buffers, g_new0. intros H.
  destruct (decide (0 ≤ samplerate cfg)) as [HR|]; [|done].
  cbn [mbind option_bind] in H.
  rewrite (decide_True (P := 0 ≤ 3)) in H by lia.
  cbn [mbind option_bind] in H.
  rewrite (decide_True (P := 0 ≤ PIPELINE_LEN)) in H by (unfold PIPELINE_LEN; lia).
  cbn [mbind option_bind] in H.
  assert (HW : 0 ≤ avg_int_in_sec cfg).
  { destruct (decide (0 < avg_int_in_sec cfg)); [lia|].
    destruct (decide (0 ≤ avg_int_in_sec cfg)); [done|]. by cbn in H. }
  assert (Hq : Z.quot (samplerate cfg) 2 = samplerate cfg / 2)
    by (apply Z.quot_div_nonneg; lia).
  assert (0 ≤ samplerate cfg / 2) by (apply Z.div_pos; lia).
  assert (∃ spectra, ampspec g' = replicate (Z.to_nat 3) spectra ∧
            inbuf g' = replicate (Z.to_nat PIPELINE_LEN)
                         (replicate (Z.to_nat 3) (replicate (Z.to_nat (samplerate cfg)) 0%R)) ∧
            rbufi g' = rbufi g ∧ ibptr g' = ibptr g ∧ aind g' = aind g ∧
            unproc g' = unproc g ∧ trace g' = trace g ∧
            Z.of_nat (length spectra) = avg_int_in_sec cfg ∧
            ∀ j row, aget spectra j = Some row →
                     Z.of_nat (length row) = samplerate cfg / 2 + 1)
    as (spectra & Ha & Hi & ? & ? & ? & ? & ? & Hsl & Hsr).
  { destruct (decide (0 < avg_int_in_sec cfg)).
    - rewrite Hq in H. rewrite (decide_True (P := 0 ≤ samplerate cfg / 2 + 1)) in H by lia.
      cbn [mbind option_bind] in H.
      rewrite (decide_True (P := 0 ≤ avg_int_in_sec cfg)) in H by lia.
      cbn [mbind option_bind] in H.
      rewrite (decide_True (P := 0 ≤ 3)) in H by lia.
      cbn [mbind option_bind] in H. injection H as <-. eexists. cbn.
      repeat split; try done.
      + rewrite length_replicate. lia.
      + intros j row Hj. apply aget_replicate_inv in Hj as [-> _].
        rewrite length_replicate. lia.
    - rewrite (decide_True (P := 0 ≤ avg_int_in_sec cfg)) in H by lia.
      cbn [mbind option_bind] in H.
      rewrite (decide_True (P := 0 ≤ 3)) in H by lia.
      cbn [mbind option_bind] in H. injection H as <-. eexists. cbn.
      repeat split; try done.
      + rewrite length_replicate. lia.
      + intros j row Hj. apply aget_replicate_inv in Hj as [_ Hj]. lia. }
  repeat split; try done.
  - rewrite Hi, length_replicate. unfold PIPELINE_LEN. lia.
  - rewrite Hi. intros i plane Hp. apply aget_replicate_inv in Hp as [-> _].
    by rewrite length_replicate.
  - rewrite Hi, length_replicate. unfold PIPELINE_LEN. lia.
  - rewrite Hi. intros i j row Hrow.
    apply aget2_Some_inv in Hrow as (plane & Hp & Hrow).
    apply aget_replicate_inv in Hp as [-> _].
    apply aget_replicate_inv in Hrow as [-> _].
    rewrite length_replicate. lia.
  - rewrite Ha, length_replicate. lia.
  - rewrite Ha. intros i plane Hp. by apply aget_replicate_inv in Hp as [-> _].
  - rewrite Ha, length_replicate. lia.
  - rewrite Ha. intros i j row Hrow.
    apply aget2_Some_inv in Hrow as (plane & Hp & Hrow).
    apply aget_replicate_inv in Hp as [-> _]. eauto.
Qed.

Lemma alloc_spec_buffers_Some (cfg : config) (g : globals) :
  0 ≤ samplerate cfg → 0 ≤ avg_int_in_sec cfg →
  is_Some (alloc_spec_buffers cfg g).
Proof.
  intros HR HW. unfold alloc_spec_buffers, g_new0.
  assert (Hq : Z.quot (samplerate cfg) 2 = samplerate cfg / 2)
    by (apply Z.quot_div_nonneg; lia).
  assert (0 ≤ samplerate cfg / 2) by (apply Z.div_pos; lia).
  destruct (decide (0 < avg_int_in_sec cfg)); rewrite ?Hq;
    repeat first [ rewrite decide_True by (unfold PIPELINE_LEN; lia)
                 | progress cbn [mbind option_bind] ];
    eauto.
Qed.

(** ** The data callback *)

Lemma acceleration_at_Some (d : acceleration) (i : Z) :
  0 ≤ i < 3 → is_Some (acceleration_at d i).
Proof.
  intros Hi. destruct d as [[x y] z]. unfold acceleration_at.
  repeat case_decide; eauto. lia.
Qed.

(** What one sample does to the state: the three cells of the active slot
    are written; [rbufi] moves up, or the slot is handed over and [ibptr]
    moves on. *)
Lemma handle_sample_spec (cfg : config) (d : acceleration) (g : globals) :
  buffers_allocated cfg g → cursors_in_range cfg g →
  ∃ g', handle_sample cfg d g = Some g' ∧
    buffers_allocated cfg g' ∧ aind g' = aind g ∧ ampspec g' = ampspec g ∧
    if decide (rbufi g + 1 = samplerate cfg) then
      rbufi g' = 0 ∧
      unproc g' = <[Z.to_nat (ibptr g) := true]> (unproc g) ∧
      ibptr g' = (ibptr g + 1) mod PIPELINE_LEN ∧
      trace g' = trace g ++
        (if aget (unproc g') (ibptr g') is Some true then [Realtime_error] else [])
    else
      rbufi g' = rbufi g + 1 ∧ unproc g' = unproc g ∧ ibptr g' = ibptr g ∧
      trace g' = trace g.
Proof.
  intros (Hu & Hir & Hid & Har & Had) [Hib Hrb]. unfold handle_sample.
  destruct (for_loop_inv
    (fun (_ : Z) g1 =>
       rows2 PIPELINE_LEN 3 (inbuf g1) ∧
       dims3 PIPELINE_LEN 3 (samplerate cfg) (inbuf g1) ∧
       rbufi g1 = rbufi g ∧ ibptr g1 = ibptr g ∧ unproc g1 = unproc g ∧
       aind g1 = aind g ∧ ampspec g1 = ampspec g ∧ trace g1 = trace g)
    (fun i g1 =>
       v ← acceleration_at d i;
       buf ← aset3 (inbuf g1) (ibptr g1) i (rbufi g1) v;
       Some (set_inbuf buf g1))
    0 3 g) as (g1 & -> & Hir1 & Hid1 & Hr1 & Hi1 & Hu1 & Ha1 & Hs1 & Ht1);
    [lia|done| |].
  { intros i t Hi (Htr & Htd & Hr & Hp & ?).
    destruct (acceleration_at_Some d i Hi) as [v ->]. cbn [mbind option_bind].
    destruct (aset3_shape PIPELINE_LEN 3 (samplerate cfg) (inbuf t) (ibptr t) i (rbufi t) v)
      as (buf & -> & ? & ?); try done; try lia.
    cbn [mbind option_bind]. eexists. split; [done|]. by cbn. }
  cbn [mbind option_bind].
  assert (Hbuf : ∀ r u p tr, buffers_allocated cfg
            {| rbufi := r; inbuf := inbuf g1; unproc := u; ibptr := p;
               aind := aind g1; ampspec := ampspec g1; trace := tr |} ↔
            Z.of_nat (length u) = PIPELINE_LEN).
  { intros. unfold buffers_allocated.
    cbn [rbufi inbuf unproc ibptr aind ampspec trace]. rewrite Hs1. tauto. }
  cbn [set_rbufi rbufi]. rewrite Hr1. case_decide as Hfull.
  - cbn [set_rbufi set_unproc set_ibptr unproc ibptr inbuf aind ampspec trace].
    rewrite Hu1, Hi1. rewrite aset_Some by lia. cbn [mbind option_bind].
    cbn [set_rbufi set_unproc set_ibptr unproc ibptr inbuf aind ampspec trace].
    set (p := if ibptr g + 1 >=? PIPELINE_LEN then _ else _).
    assert (Hp : ibptr p = (ibptr g + 1) mod PIPELINE_LEN ∧
                 unproc p = <[Z.to_nat (ibptr g) := true]> (unproc g) ∧
                 rbufi p = 0 ∧ inbuf p = inbuf g1 ∧ aind p = aind g ∧
                 ampspec p = ampspec g ∧ trace p = trace g).
    { unfold p. destruct (Z.geb_spec (ibptr g + 1) PIPELINE_LEN); cbn.
      - replace (ibptr g + 1) with PIPELINE_LEN by lia. by rewrite Z.mod_same.
      - by rewrite Z.mod_small by lia. }
    destruct Hp as (Hpi & Hpu & Hpr & Hpb & Hpa & Hps & Hpt).
    assert (Hir' : 0 ≤ ibptr p < PIPELINE_LEN).
    { rewrite Hpi. apply Z.mod_pos_bound. done. }
    destruct (aget_is_Some (unproc p) (ibptr p)) as [flag Hflag].
    { rewrite Hpu, length_insert. lia. }
    rewrite Hflag. cbn [mbind option_bind]. eexists. split; [done|].
    assert (Hall : buffers_allocated cfg p).
    { unfold buffers_allocated. rewrite Hpu, Hpb, Hps, length_insert. done. }
    destruct flag; cbn [emit_event rbufi ibptr unproc aind ampspec trace];
      rewrite ?Hflag; repeat split; try done; try apply Hall.
    + by rewrite Hpt.
    + by rewrite Hpt, app_nil_r.
  - eexists. split; [done|].
    split; [apply Hbuf; by rewrite Hu1|].
    cbn [set_rbufi rbufi inbuf unproc ibptr aind ampspec trace]. done.
Qed.

Lemma fold_opt_app {A T : Type} (f : A → T → option T) (l1 l2 : list A) (s : T) :
  fold_opt f (l1 ++ l2) s = fold_opt f l1 s ≫= fold_opt f l2.
Proof.
  revert s. induction l1 as [|x l1 IH]; intros s; [done|].
  cbn. destruct (f x s) as [t|]; [|done]. cbn. apply IH.
Qed.

Lemma for_loop_from_aget {A T : Type} (f : A → T → option T) (pre l : list A) (s : T) :
  for_loop_from (length l) (Z.of_nat (length pre))
    (fun k s => d ← aget (pre ++ l) k; f d s) s = fold_opt f l s.
Proof.
  revert pre s. induction l as [|x l IH]; intros pre s; [done|].
  cbn [length for_loop_from fold_opt].
  rewrite aget_nat, lookup_app_r, Nat.sub_diag by lia. cbn [lookup list_lookup mbind option_bind].
  destruct (f x s) as [t|]; [|done]. cbn [mbind option_bind].
  specialize (IH (pre ++ [x]) t). rewrite <- app_assoc in IH. cbn in IH.
  rewrite <- IH. rewrite length_app. cbn. f_equal. lia.
Qed.

Lemma SpatialDataHandler_fold (cfg : config) (data : list acceleration) (g : globals) :
  SpatialDataHandler cfg data (Z.of_nat (length data)) g =
  fold_opt (handle_sample cfg) data g.
Proof.
  unfold SpatialDataHandler, for_loop.
  replace (Z.to_nat (Z.of_nat (length data) - 0)) with (length data) by lia.
  apply (for_loop_from_aget (handle_sample cfg) [] data g).
Qed.

Lemma run_app (fs : sink_env) (cfg : config) (s1 s2 : list action) (g : globals) :
  run fs cfg (s1 ++ s2) g = run fs cfg s1 g ≫= run fs cfg s2.
Proof.
  revert g. induction s1 as [|a s1 IH]; intros g; [done|].
  cbn. destruct (run_action fs cfg a g) as [t|]; [|done]. cbn. apply IH.
Qed.

(** Without draining, only the stream of samples matters, not its batches. *)
Lemma run_deliver (fs : sink_env) (cfg : config) (batches : list (list acceleration))
    (g : globals) :
  run fs cfg (Deliver <$> batches) g = fold_opt (handle_sample cfg) (concat batches) g.
Proof.
  revert g. induction batches as [|b bs IH]; intros g; [done|].
  cbn [fmap list_fmap run run_action concat]. rewrite SpatialDataHandler_fold, fold_opt_app.
  destruct (fold_opt (handle_sample cfg) b g) as [t|]; [|done]. cbn. apply IH.
Qed.

(** Samples that do not complete the second only move [rbufi]. *)
Lemma fill_partial (cfg : config) (data : list acceleration) (g : globals) :
  buffers_allocated cfg g → cursors_in_range cfg g →
  rbufi g + Z.of_nat (length data) < samplerate cfg →
  ∃ g', fold_opt (handle_sample cfg) data g = Some g' ∧
    buffers_allocated cfg g' ∧ aind g' = aind g ∧ ampspec g' = ampspec g ∧
    rbufi g' = rbufi g + Z.of_nat (length data) ∧
    unproc g' = unproc g ∧ ibptr g' = ibptr g ∧ trace g' = trace g.
Proof.
  revert g. induction data as [|d data IH]; intros g Hb Hc Hlen.
  - exists g. split; [done|]. split; [done|]. repeat split; try done.
    cbn [length]. lia.
  - cbn [length] in Hlen.
    destruct (handle_sample_spec cfg d g Hb Hc) as (g1 & H1 & Hb1 & Ha1 & Hs1 & Hcase).
    rewrite decide_False in Hcase by lia. destruct Hcase as (Hr1 & Hu1 & Hi1 & Ht1).
    destruct (IH g1) as (g' & H' & ? & ? & ? & ? & ? & ? & ?); [done| |lia|].
    { destruct Hc. split; lia. }
    exists g'. cbn [fold_opt]. rewrite H1. cbn [mbind option_bind].
    split; [done|]. split; [done|]. repeat split; try congruence.
    cbn [length]. lia.
Qed.

(** The sample that completes the second hands the slot over. *)
Lemma fill_second (cfg : config) (data : list acceleration) (g : globals) :
  buffers_allocated cfg g → cursors_in_range cfg g →
  rbufi g + Z.of_nat (length data) = samplerate cfg →
  ∃ g', fold_opt (handle_sample cfg) data g = Some g' ∧
    buffers_allocated cfg g' ∧ aind g' = aind g ∧ ampspec g' = ampspec g ∧
    rbufi g' = 0 ∧
    unproc g' = <[Z.to_nat (ibptr g) := true]> (unproc g) ∧
    ibptr g' = (ibptr g + 1) mod PIPELINE_LEN ∧
    trace g' = trace g ++
      (if aget (unproc g') (ibptr g') is Some true then [Realtime_error] else []).
Proof.
  intros Hb Hc Hlen.
  destruct (exists_last (l := data)) as (front & d & ->).
  { intros ->. destruct Hc. cbn in Hlen. lia. }
  rewrite length_app in Hlen. cbn [length] in Hlen.
  destruct (fill_partial cfg front g Hb Hc) as (g1 & H1 & Hb1 & Ha1 & Hs1 & Hr1 & Hu1 & Hi1 & Ht1);
    [lia|].
  assert (Hc1 : cursors_in_range cfg g1).
  { destruct Hc. split; lia. }
  destruct (handle_sample_spec cfg d g1 Hb1 Hc1) as (g' & H' & Hb' & Ha' & Hs' & Hcase).
  rewrite decide_True in Hcase by lia. destruct Hcase as (Hr' & Hu' & Hi' & Ht').
  exists g'. rewrite fold_opt_app, H1. cbn [mbind option_bind fold_opt]. rewrite H'.
  split; [done|]. split; [done|]. repeat split; congruence.
Qed.

(** ** Whole seconds without draining *)

Lemma flags_after_length (n : nat) : length (flags_after n) = Z.to_nat PIPELINE_LEN.
Proof. unfold flags_after. rewrite length_app, !length_replicate. lia. Qed.

Lemma flags_after_lookup (n j : nat) :
  flags_after n !! j =
  if decide (j < Z.to_nat PIPELINE_LEN)%nat then Some (bool_decide (j < n)%nat) else None.
Proof.
  unfold flags_after. case_decide as Hj.
  - destruct (decide (j < n)%nat).
    + rewrite lookup_app_l by (rewrite length_replicate; lia).
      rewrite bool_decide_eq_true_2 by done. apply lookup_replicate_2. lia.
    + rewrite lookup_app_r by (rewrite length_replicate; lia).
      rewrite bool_decide_eq_false_2 by done. apply lookup_replicate_2.
      rewrite length_replicate. lia.
  - apply lookup_ge_None. rewrite length_app, !length_replicate. lia.
Qed.

Lemma flags_after_insert (n : nat) :
  <[(n `mod` Z.to_nat PIPELINE_LEN)%nat := true]> (flags_after n) = flags_after (S n).
Proof.
  assert (HP : Z.to_nat PIPELINE_LEN = 100%nat) by done.
  apply list_eq. intros j. rewrite HP.
  pose proof (Nat.mod_upper_bound n 100) as Hm.
  pose proof (Nat.div_mod_eq n 100) as Hd.
  destruct (decide (j = n `mod` 100)%nat) as [->|Hne].
  - rewrite list_lookup_insert_eq by (rewrite flags_after_length; lia).
    rewrite flags_after_lookup, decide_True by lia.
    rewrite bool_decide_eq_true_2; [done|]. lia.
  - rewrite list_lookup_insert_ne by done. rewrite !flags_after_lookup.
    case_decide; [|done]. f_equal. apply bool_decide_ext.
    destruct (decide (n < 100)%nat).
    + rewrite Nat.mod_small in Hne by done. lia.
    + lia.
Qed.

Lemma filter_replicate {A : Type} (P : A → Prop) `{∀ x, Decision (P x)} (n : nat) (x : A) :
  filter P (replicate n x) = if decide (P x) then replicate n x else [].
Proof.
  induction n as [|n IH]; [by case_decide|].
  cbn [replicate]. rewrite filter_cons, IH. by case_decide.
Qed.

Lemma flags_after_ready (n : nat) :
  length (filter (fun b : bool => b = true) (flags_after n)) = (n `min` Z.to_nat PIPELINE_LEN)%nat.
Proof.
  unfold flags_after. rewrite filter_app, !filter_replicate.
  rewrite decide_True, decide_False by done.
  by rewrite app_nil_r, length_replicate.
Qed.

Lemma undrained_overruns (n : nat) (g : globals) :
  undrained n g → overruns g = (n + 1 - Z.to_nat PIPELINE_LEN)%nat.
Proof.
  intros (_ & _ & _ & Ht). unfold overruns. rewrite Ht, filter_replicate.
  rewrite decide_True by done. by rewrite length_replicate.
Qed.

Lemma undrained_ready (n : nat) (g : globals) :
  undrained n g → ready_slots g = (n `min` Z.to_nat PIPELINE_LEN)%nat.
Proof.
  intros (_ & _ & Hu & _). unfold ready_slots. rewrite Hu. apply flags_after_ready.
Qed.

(** One more second without draining. *)
Lemma undrained_second (cfg : config) (n : nat) (data : list acceleration) (g : globals) :
  buffers_allocated cfg g → undrained n g →
  0 < samplerate cfg → Z.of_nat (length data) = samplerate cfg →
  ∃ g', fold_opt (handle_sample cfg) data g = Some g' ∧
    buffers_allocated cfg g' ∧ undrained (S n) g' ∧
    aind g' = aind g ∧ ampspec g' = ampspec g.
Proof.
  intros Hb (Hr & Hi & Hu & Ht) HR Hlen.
  assert (HP : Z.to_nat PIPELINE_LEN = 100%nat) by done.
  assert (Hmod : 0 ≤ Z.of_nat n mod PIPELINE_LEN < PIPELINE_LEN)
    by (by apply Z.mod_pos_bound).
  destruct (fill_second cfg data g Hb) as (g' & H' & Hb' & Ha' & Hs' & Hr' & Hu' & Hi' & Ht').
  { split; [by rewrite Hi|]. lia. }
  { lia. }
  assert (Hflags : unproc g' = flags_after (S n)).
  { rewrite Hu', Hu, Hi, <- flags_after_insert. f_equal.
    rewrite HP. change PIPELINE_LEN with (Z.of_nat 100).
    rewrite <- Nat2Z.inj_mod. lia. }
  assert (Hptr : ibptr g' = Z.of_nat (S n) mod PIPELINE_LEN).
  { rewrite Hi', Hi. rewrite Zplus_mod_idemp_l. f_equal. lia. }
  exists g'. split; [done|]. split; [done|]. repeat split; try done.
  rewrite Ht', Ht, Hflags, Hptr.
  assert (Hi2 : 0 ≤ Z.of_nat (S n) mod PIPELINE_LEN < PIPELINE_LEN)
    by (by apply Z.mod_pos_bound).
  rewrite aget_lookup by lia. rewrite flags_after_lookup, decide_True by lia.
  destruct (decide (n + 1 < Z.to_nat PIPELINE_LEN)%nat) as [Hlt|Hge].
  - rewrite bool_decide_eq_false_2.
    + rewrite app_nil_r. f_equal. lia.
    + rewrite Z.mod_small by (unfold PIPELINE_LEN in *; lia). lia.
  - rewrite bool_decide_eq_true_2 by (unfold PIPELINE_LEN in *; lia).
    replace (S n + 1 - Z.to_nat PIPELINE_LEN)%nat
      with (S (n + 1 - Z.to_nat PIPELINE_LEN)) by lia.
    by rewrite replicate_S_end.
Qed.

(** [k] more seconds without draining. *)
Lemma undrained_seconds (cfg : config) (k n : nat) (data : list acceleration) (g : globals) :
  buffers_allocated cfg g → undrained n g →
  0 < samplerate cfg → Z.of_nat (length data) = samplerate cfg * Z.of_nat k →
  ∃ g', fold_opt (handle_sample cfg) data g = Some g' ∧
    buffers_allocated cfg g' ∧ undrained (n + k) g' ∧
    aind g' = aind g ∧ ampspec g' = ampspec g.
Proof.
  revert n data g. induction k as [|k IH]; intros n data g Hb Hun HR Hlen.
  - assert (data = []) as -> by (apply length_zero_iff_nil; lia).
    exists g. by rewrite Nat.add_0_r.
  - rewrite <- (take_drop (Z.to_nat (samplerate cfg)) data), fold_opt_app.
    destruct (undrained_second cfg n (take (Z.to_nat (samplerate cfg)) data) g)
      as (g1 & -> & Hb1 & Hun1 & Ha1 & Hs1); [done..| |].
    { rewrite length_take. nia. }
    cbn [mbind option_bind].
    destruct (IH (S n) (drop (Z.to_nat (samplerate cfg)) data) g1)
      as (g' & -> & ? & ? & ? & ?); [done..| |].
    { rewrite length_drop. nia. }
    exists g'. replace (n + S k)%nat with (S n + k)%nat by lia.
    split; [done|]. split; [done|]. split; [done|]. split; congruence.
Qed.

Lemma boot_undrained (cfg : config) (g0 : globals) :
  alloc_spec_buffers cfg initial_globals = Some g0 →
  buffers_allocated cfg g0 ∧ undrained 0 g0 ∧ aind g0 = 0.
Proof.
  intros H. apply alloc_spec_buffers_shape in H
    as (_ & _ & Hr & Hi & Ha & Hu & Ht & ? & ? & ? & ?).
  split; [|split; [|done]].
  - unfold buffers_allocated. by rewrite Hu.
  - unfold undrained. by rewrite Hr, Hi, Hu, Ht.
Qed.

(** ** The consumer *)

Lemma wrap_ptr_mod (fuel : nat) (ptr : Z) :
  0 ≤ ptr → ptr / PIPELINE_LEN ≤ Z.of_nat fuel →
  wrap_ptr fuel ptr = ptr mod PIPELINE_LEN.
Proof.
  unfold PIPELINE_LEN. revert ptr. induction fuel as [|fuel IH]; intros ptr Hp Hf.
  - cbn. symmetry. apply Z.mod_small.
    assert (ptr / 100 = 0) as H0 by (pose proof (Z.div_pos ptr 100); lia).
    apply Z.div_small_iff in H0; lia.
  - cbn [wrap_ptr]. destruct (Z.geb_spec ptr PIPELINE_LEN) as [Hge|Hlt];
      unfold PIPELINE_LEN in *; cbn [andb].
    + destruct (Z.geb_spec ptr 0); [|lia].
      assert (ptr = (ptr - 100) + 1 * 100) as Heq by lia.
      rewrite IH; [| lia |].
      * rewrite Heq at 2. by rewrite Z.mod_add.
      * rewrite Heq in Hf. rewrite Z.div_add in Hf by lia. lia.
    + symmetry. apply Z.mod_small. lia.
Qed.

Lemma scan_ptr_mod (ib k : Z) :
  0 ≤ ib → 0 ≤ k →
  scan_ptr ib k = (ib + Z.quot PIPELINE_LEN 10 + k) mod PIPELINE_LEN.
Proof.
  intros Hib Hk. unfold scan_ptr.
  assert (Hq : Z.quot PIPELINE_LEN 10 = 10) by done. rewrite Hq.
  rewrite wrap_ptr_mod.
  - f_equal. lia.
  - lia.
  - rewrite Z2Nat.id by lia.
    assert (0 ≤ ib + k + 10) as H0 by lia. revert H0.
    generalize (ib + k + 10). intros p Hp. unfold PIPELINE_LEN.
    apply Z.div_le_upper_bound; lia.
Qed.

Lemma scan_ptr_range (ib k : Z) :
  0 ≤ ib → 0 ≤ k → 0 ≤ scan_ptr ib k < PIPELINE_LEN.
Proof.
  intros. rewrite scan_ptr_mod by done. by apply Z.mod_pos_bound.
Qed.

Lemma circular_scan_lookup (start ib k : Z) :
  0 ≤ k < PIPELINE_LEN →
  circular_scan start ib !! Z.to_nat k = Some ((ib + start + k) mod PIPELINE_LEN).
Proof.
  intros Hk. unfold circular_scan. rewrite list_lookup_fmap.
  rewrite lookup_seqZ_lt by lia. cbn. do 3 f_equal. lia.
Qed.

(** A property every iteration keeps holds when the loop is over. *)
Lemma for_loop_from_keeps {T : Type} (I : T → Prop) (body : Z → T → option T)
    (n : nat) (lo : Z) (s s' : T) :
  (∀ i t t', body i t = Some t' → I t → I t') →
  for_loop_from n lo body s = Some s' → I s → I s'.
Proof.
  intros Hbody. revert lo s. induction n as [|n IH]; intros lo s H Hs.
  - cbn in H. congruence.
  - cbn in H. destruct (body lo s) as [t|] eqn:Ht; [|done]. cbn in H. eauto.
Qed.

Lemma for_loop_keeps {T : Type} (I : T → Prop) (body : Z → T → option T)
    (lo hi : Z) (s s' : T) :
  (∀ i t t', body i t = Some t' → I t → I t') →
  for_loop lo hi body s = Some s' → I s → I s'.
Proof. apply for_loop_from_keeps. Qed.

(** [output_csv] changes nothing but the trace, to which it adds one
    event of its axis. *)
Lemma output_csv_frame (fs : sink_env) (cfg : config) (dim : Z) (g g' : globals)
    (r : bool) :
  output_csv fs cfg dim g = Some (r, g') →
  ∃ e, g' = emit_event e g ∧ emission_axis e = Some dim.
Proof.
  unfold output_csv. intros H.
  destruct (fopen_create _); cbn [negb] in H; [|injection H as <- <-; by eexists].
  destruct (fopen_append _); cbn [negb] in H; [|injection H as <- <-; by eexists].
  destruct (for_loop _ _ _ _) as [vals|]; [|done]. cbn in H.
  injection H as <- <-. eexists. split; [done|]. by destruct (fprintf_ok _).
Qed.

(** ** The emitter *)

Local Open Scope R_scope.

Lemma aget3_window_entry (cfg : config) (g : globals) (dim j k : Z) :
  buffers_allocated cfg g →
  (0 ≤ dim < 3)%Z → (0 ≤ j < avg_int_in_sec cfg)%Z → (0 ≤ k ≤ samplerate cfg / 2)%Z →
  aget3 (ampspec g) dim j k = Some (window_entry g dim k (Z.to_nat j)).
Proof.
  intros (_ & _ & _ & Hr & Hd) Hdim Hj Hk.
  destruct (dims3_aget2 _ _ _ _ dim j Hr Hd Hdim Hj) as (row & Hrow & Hlen).
  destruct (aget_is_Some row k) as [x Hx]; [lia|].
  unfold window_entry. rewrite Z2Nat.id by lia.
  unfold aget3. rewrite Hrow. cbn [mbind option_bind]. by rewrite Hx.
Qed.

Lemma csv_value_max_entries (cfg : config) (g : globals) (dim k : Z) (a : nat → R) :
  max_instead_of_avg cfg = true → (0 < avg_int_in_sec cfg)%Z →
  (∀ j, (0 ≤ j < avg_int_in_sec cfg)%Z →
        aget3 (ampspec g) dim j k = Some (a (Z.to_nat j))) →
  csv_value cfg g dim k =
    Some (reference_max (scale cfg) a (Z.to_nat (avg_int_in_sec cfg - 1))).
Proof.
  intros Hmax HW Ha. unfold csv_value. rewrite Hmax. fold (scale cfg).
  destruct (for_loop_inv
    (fun (j : Z) (v : R) =>
       (j = 0%Z ∧ v = 0) ∨ ((0 < j)%Z ∧ v = reference_max (scale cfg) a (Z.to_nat (j - 1))))
    (fun j v =>
       x ← aget3 (ampspec g) dim j k;
       Some ((if Rgt_dec x v then x else if decide (j = 0%Z) then x else v)
             / scale cfg))
    0%Z (avg_int_in_sec cfg) 0) as (v & -> & [[? _]|[_ ->]]); [lia|by left| |lia|done].
  intros j v Hj Hv.
  rewrite Ha by done. cbn [mbind option_bind].
  eexists. split; [done|]. right. split; [lia|].
  destruct Hv as [[-> ->]|[Hpos ->]].
  - change (Z.to_nat (0 + 1 - 1)) with O. change (Z.to_nat 0) with O.
    cbn [reference_max]. destruct (Rgt_dec (a O) 0); [done|].
    by rewrite decide_True.
  - replace (Z.to_nat (j + 1 - 1)) with (S (Z.to_nat (j - 1))) by lia.
    cbn [reference_max]. replace (S (Z.to_nat (j - 1))) with (Z.to_nat j) by lia.
    rewrite decide_False by lia. done.
Qed.

Lemma csv_value_mean_entries (cfg : config) (g : globals) (dim k : Z) (a : nat → R) :
  max_instead_of_avg cfg = false → (0 < avg_int_in_sec cfg)%Z →
  (0 < samplerate cfg)%Z → (avg_int_in_sec cfg * samplerate cfg ≤ INT_MAX)%Z →
  (∀ j, (0 ≤ j < avg_int_in_sec cfg)%Z →
        aget3 (ampspec g) dim j k = Some (a (Z.to_nat j))) →
  csv_value cfg g dim k =
    Some (window_sum a (Z.to_nat (avg_int_in_sec cfg))
          / (IZR (avg_int_in_sec cfg * samplerate cfg) / 1000)).
Proof.
  intros Hmean HW HR Hmul Ha. unfold csv_value. rewrite Hmean.
  destruct (for_loop_inv
    (fun (j : Z) (v : R) => v = window_sum a (Z.to_nat j))
    (fun j v => x ← aget3 (ampspec g) dim j k; Some (v + x))
    0%Z (avg_int_in_sec cfg) 0) as (v & -> & ->); [lia|done| |].
  { intros j v Hj ->. rewrite Ha by done.
    cbn [mbind option_bind]. eexists. split; [done|].
    by replace (Z.to_nat (j + 1)) with (S (Z.to_nat j)) by lia. }
  cbn [mbind option_bind]. unfold int_mul.
  rewrite decide_True by (unfold INT_MIN; nia). done.
Qed.

Lemma csv_value_max (cfg : config) (g : globals) (dim k : Z) :
  max_instead_of_avg cfg = true →
  buffers_allocated cfg g →
  (0 ≤ dim < 3)%Z → (0 < avg_int_in_sec cfg)%Z → (0 ≤ k ≤ samplerate cfg / 2)%Z →
  csv_value cfg g dim k = Some (row_value cfg g dim k).
Proof.
  intros Hmax Hb Hdim HW Hk. unfold row_value. rewrite Hmax.
  apply csv_value_max_entries; [done..|].
  intros j Hj. by apply (aget3_window_entry cfg).
Qed.

Lemma csv_value_mean (cfg : config) (g : globals) (dim k : Z) :
  max_instead_of_avg cfg = false →
  buffers_allocated cfg g →
  (0 ≤ dim < 3)%Z → (0 < avg_int_in_sec cfg)%Z → (0 ≤ k ≤ samplerate cfg / 2)%Z →
  (0 < samplerate cfg)%Z → (avg_int_in_sec cfg * samplerate cfg ≤ INT_MAX)%Z →
  csv_value cfg g dim k = Some (row_value cfg g dim k).
Proof.
  intros Hmean Hb Hdim HW Hk HR Hmul. unfold row_value. rewrite Hmean.
  apply csv_value_mean_entries; [done..|].
  intros j Hj. by apply (aget3_window_entry cfg).
Qed.

Lemma csv_value_row (cfg : config) (g : globals) (dim k : Z) :
  config_ok cfg → buffers_allocated cfg g →
  (0 ≤ dim < 3)%Z → (0 ≤ k ≤ samplerate cfg / 2)%Z →
  csv_value cfg g dim k = Some (row_value cfg g dim k).
Proof.
  intros (HR & HW & _ & Hmul) Hb Hdim Hk.
  destruct (max_instead_of_avg cfg) eqn:Hpol.
  - by apply csv_value_max.
  - apply csv_value_mean; auto.
Qed.

Lemma output_csv_spec (fs : sink_env) (cfg : config) (dim : Z) (g : globals) :
  config_ok cfg → buffers_allocated cfg g → (0 ≤ dim < 3)%Z →
  output_csv fs cfg dim g =
    Some (emission_result fs dim g, emit_event (emission fs cfg dim g) g).
Proof.
  intros Hc Hb Hdim. unfold output_csv, emission, emission_result.
  destruct (fopen_create _); cbn [negb andb]; [|done].
  destruct (fopen_append _); cbn [negb andb]; [|done].
  assert (Hloop : for_loop 0 (maxfreq cfg + 1)
            (fun k vals => v ← csv_value cfg g dim k; Some (vals ++ [v])) [] =
          Some (row_values cfg g dim)).
  { unfold row_values. destruct (Z.le_gt_cases (maxfreq cfg + 1) 0) as [Hneg|Hpos].
    - rewrite for_loop_empty by done. unfold seqZ.
      by replace (Z.to_nat (maxfreq cfg + 1)) with O by lia.
    - destruct (for_loop_inv
        (fun (k : Z) (vals : list R) => vals = row_value cfg g dim <$> seqZ 0 k)
        (fun k vals => v ← csv_value cfg g dim k; Some (vals ++ [v]))
        0%Z (maxfreq cfg + 1)%Z []) as (vals & -> & ->); [lia|done| |done].
      intros k vals Hk ->. destruct Hc as (? & ? & ? & ?).
      rewrite csv_value_row by (done || lia). cbn [mbind option_bind].
      eexists. split; [done|]. rewrite seqZ_app by lia.
      rewrite fmap_app. cbn. by rewrite Z.add_0_l. }
  rewrite Hloop. done.
Qed.

Local Open Scope Z_scope.

(** The three spectra of a ready slot, one per axis, stored at the fill
    index. *)
Lemma spectra_loop (cfg : config) (ptr : Z) (g : globals) :
  0 < samplerate cfg → buffers_allocated cfg g → window_in_range cfg g →
  0 ≤ ptr < PIPELINE_LEN →
  ∃ spec',
    for_loop 0 3
      (fun i g =>
         inp ← aget2 (inbuf g) ptr i;
         amp ← aget2 (ampspec g) i (aind g);
         amp' ← calc_amplitude_spectrum inp (samplerate cfg) amp;
         spec' ← aset2 (ampspec g) i (aind g) amp';
         Some (set_ampspec spec' g))
      g = Some (set_ampspec spec' g) ∧
    rows2 3 (avg_int_in_sec cfg) spec' ∧
    dims3 3 (avg_int_in_sec cfg) (samplerate cfg / 2 + 1) spec' ∧
    ∀ i, 0 ≤ i < 3 →
      ∃ inp, aget2 (inbuf g) ptr i = Some inp ∧
             aget2 spec' i (aind g) = Some (amplitude_bins (rfftw_one inp) (samplerate cfg)).
Proof.
  intros HR (Hu & Hir & Hid & Har & Had) Hw Hptr.
  destruct (for_loop_inv
    (fun (n : Z) (g1 : globals) =>
       ∃ spec', g1 = set_ampspec spec' g ∧
         rows2 3 (avg_int_in_sec cfg) spec' ∧
         dims3 3 (avg_int_in_sec cfg) (samplerate cfg / 2 + 1) spec' ∧
         ∀ i, 0 ≤ i < n →
           ∃ inp, aget2 (inbuf g) ptr i = Some inp ∧
                  aget2 spec' i (aind g) =
                    Some (amplitude_bins (rfftw_one inp) (samplerate cfg)))
    (fun i g =>
       inp ← aget2 (inbuf g) ptr i;
       amp ← aget2 (ampspec g) i (aind g);
       amp' ← calc_amplitude_spectrum inp (samplerate cfg) amp;
       spec' ← aset2 (ampspec g) i (aind g) amp';
       Some (set_ampspec spec' g))
    0 3 g) as (g1 & Hloop & spec' & -> & ? & ? & ?); [lia| | |by eauto].
  - exists (ampspec g). split; [by destruct g|]. split; [done|]. split; [done|].
    intros i Hi. lia.
  - intros n g1 Hn (s1 & -> & Hr1 & Hd1 & Hprev).
    cbn [set_ampspec inbuf ampspec aind].
    destruct (dims3_aget2 _ _ _ _ ptr n Hir Hid Hptr Hn) as (inp & Hinp & Hlen).
    destruct (dims3_aget2 _ _ _ _ n (aind g) Hr1 Hd1 Hn Hw) as (amp & Hamp & Hal).
    rewrite Hinp, Hamp. cbn [mbind option_bind].
    rewrite calc_amplitude_spectrum_refines by lia. cbn [mbind option_bind].
    rewrite take_ge by lia. rewrite drop_ge, app_nil_r by lia.
    set (bins := amplitude_bins (rfftw_one inp) (samplerate cfg)).
    destruct (aset2_shape _ _ _ s1 n (aind g) bins Hr1 Hd1 Hn Hw)
      as (s2 & -> & Hr2 & Hd2 & Hnew & Hold).
    { unfold bins. rewrite amplitude_bins_length.
      assert (0 ≤ samplerate cfg / 2) by (apply Z.div_pos; lia). lia. }
    cbn [mbind option_bind]. eexists. split; [done|].
    exists s2. split; [done|]. split; [done|]. split; [done|].
    intros i Hi. destruct (decide (i = n)) as [->|Hne].
    + exists inp. done.
    + destruct (Hprev i) as (inp' & ? & ?); [lia|]. exists inp'. split; [done|].
      rewrite Hold; [done|]. congruence.
Qed.

(** The three rows of a completed window, one per axis, each computed from
    the window as the spectra left it. *)
Lemma emission_loop (fs : sink_env) (cfg : config) (g : globals) :
  config_ok cfg → buffers_allocated cfg g →
  ∃ g' evs,
    for_loop 0 3 (fun i g => r ← output_csv fs cfg i g; Some (r.2)) g = Some g' ∧
    rbufi g' = rbufi g ∧ inbuf g' = inbuf g ∧ unproc g' = unproc g ∧
    ibptr g' = ibptr g ∧ aind g' = aind g ∧ ampspec g' = ampspec g ∧
    trace g' = trace g ++ evs ∧
    emission_axis <$> evs = [Some 0; Some 1; Some 2] ∧
    Forall (fun e => ∃ dim h, ampspec h = ampspec g ∧ e = emission fs cfg dim h) evs.
Proof.
  intros Hc Hb.
  destruct (for_loop_inv
    (fun (n : Z) (g1 : globals) =>
       ∃ evs, rbufi g1 = rbufi g ∧ inbuf g1 = inbuf g ∧ unproc g1 = unproc g ∧
         ibptr g1 = ibptr g ∧ aind g1 = aind g ∧ ampspec g1 = ampspec g ∧
         trace g1 = trace g ++ evs ∧
         emission_axis <$> evs = Some <$> seqZ 0 n ∧
         Forall (fun e => ∃ dim h, ampspec h = ampspec g ∧ e = emission fs cfg dim h) evs)
    (fun i g => r ← output_csv fs cfg i g; Some (r.2))
    0 3 g) as (g' & Hloop & evs & H); [lia| | |by exists g', evs].
  - exists []. rewrite app_nil_r. done.
  - intros n g1 Hn (evs & Hr & Hi & Hu & Hp & Ha & Hs & Ht & Hax & Hall).
    assert (Hb1 : buffers_allocated cfg g1).
    { unfold buffers_allocated. by rewrite Hu, Hi, Hs. }
    rewrite output_csv_spec by done. cbn [mbind option_bind snd].
    eexists. split; [done|]. exists (evs ++ [emission fs cfg n g1]).
    cbn [emit_event rbufi inbuf unproc ibptr aind ampspec trace].
    rewrite Ht, app_assoc. repeat split; try done.
    + rewrite fmap_app, Hax, seqZ_app by lia. rewrite fmap_app. f_equal.
      cbn. f_equal. unfold emission.
      destruct (fopen_create _); [|done]. destruct (fopen_append _); [|done].
      by destruct (fprintf_ok _).
    + apply Forall_app. split; [done|]. apply Forall_singleton. by exists n, g1.
Qed.

Lemma process_slot_spec (fs : sink_env) (cfg : config) (ptr : Z) (g : globals) :
  config_ok cfg → buffers_allocated cfg g → window_in_range cfg g →
  0 ≤ ptr < PIPELINE_LEN →
  ∃ g' evs, process_slot fs cfg ptr g = Some g' ∧
    buffers_allocated cfg g' ∧ window_in_range cfg g' ∧ same_producer g g' ∧
    unproc g' = <[Z.to_nat ptr := false]> (unproc g) ∧
    aind g' = (if decide (aind g + 1 = avg_int_in_sec cfg) then 0 else aind g + 1) ∧
    (∀ i, 0 ≤ i < 3 →
       ∃ inp, aget2 (inbuf g) ptr i = Some inp ∧
              aget2 (ampspec g') i (aind g) =
                Some (amplitude_bins (rfftw_one inp) (samplerate cfg))) ∧
    trace g' = trace g ++ evs ∧
    emission_axis <$> evs =
      (if decide (aind g + 1 = avg_int_in_sec cfg) then [Some 0; Some 1; Some 2] else []) ∧
    Forall (fun e => ∃ dim h, ampspec h = ampspec g' ∧ e = emission fs cfg dim h) evs.
Proof.
  intros Hc Hb Hw Hptr. pose proof Hc as (HR & HW & _).
  pose proof Hb as (Hu & Hir & Hid & Har & Had).
  unfold process_slot.
  destruct (Z.geb_spec ptr PIPELINE_LEN) as [|_]; [lia|].
  destruct (spectra_loop cfg ptr g HR Hb Hw Hptr) as (s1 & -> & Hr1 & Hd1 & Hbins).
  cbn [mbind option_bind set_ampspec set_aind aind].
  case_decide as Hfull.
  - set (g1 := set_aind 0 (set_aind (aind g + 1) (set_ampspec s1 g))).
    destruct (emission_loop fs cfg g1 Hc) as (g2 & evs & -> & Hr & Hi & Hu2 & Hp & Ha & Hs & Ht & Hax & Hall).
    { by unfold buffers_allocated. }
    cbn [mbind option_bind]. rewrite Hu2.
    cbn [g1 set_aind set_ampspec rbufi inbuf unproc ibptr aind ampspec trace] in *.
    rewrite aset_Some by lia. cbn [mbind option_bind].
    exists (set_unproc (<[Z.to_nat ptr := false]> (unproc g)) g2), evs.
    split; [done|].
    unfold buffers_allocated, window_in_range, same_producer.
    cbn [set_unproc rbufi inbuf unproc ibptr aind ampspec trace].
    rewrite Hi, Hs, Ha, Hr, Hp, Ht, length_insert.
    split; [done|]. split; [lia|]. done.
  - cbn [mbind option_bind set_aind set_ampspec unproc].
    rewrite aset_Some by lia. cbn [mbind option_bind].
    eexists _, []. split; [done|].
    unfold buffers_allocated, window_in_range, same_producer in *.
    cbn [set_unproc set_aind set_ampspec rbufi inbuf unproc ibptr aind ampspec trace].
    rewrite app_nil_r, length_insert.
    split; [done|]. split; [lia|]. done.
Qed.

(** [process_slot] never moves the write pointer, whatever the state. *)
Lemma process_slot_ibptr (fs : sink_env) (cfg : config) (ptr : Z) (g g' : globals) :
  process_slot fs cfg ptr g = Some g' → ibptr g' = ibptr g.
Proof.
  unfold process_slot. intros H.
  destruct (for_loop 0 3 _ g) as [g1|] eqn:H1; [|done].
  apply (for_loop_keeps (fun t => ibptr t = ibptr g)) in H1; [|clear|done].
  2:{ intros i t t' Hbody Ht.
      destruct (aget2 (inbuf t) _ i); [|done]. cbn [mbind option_bind] in Hbody.
      destruct (aget2 (ampspec t) i _); [|done]. cbn [mbind option_bind] in Hbody.
      destruct (calc_amplitude_spectrum _ _ _); [|done]. cbn [mbind option_bind] in Hbody.
      destruct (aset2 _ _ _ _); [|done]. cbn [mbind option_bind] in Hbody.
      by injection Hbody as <-. }
  cbn [mbind option_bind] in H.
  destruct (if decide _ then _ else _) as [g2|] eqn:H2 in H; [|done].
  cbn [mbind option_bind] in H.
  destruct (aset (unproc g2) _ false); [|done]. injection H as <-.
  cbn [set_unproc ibptr]. rewrite <- H1.
  case_decide.
  - apply (for_loop_keeps (fun t => ibptr t = ibptr g1)) in H2; [done| |done].
    intros i t t' Hbody Ht. destruct (output_csv fs cfg i t) as [[r u]|] eqn:Hout; [|done].
    injection Hbody as <-. apply output_csv_frame in Hout as (e & -> & _). done.
  - by injection H2 as <-.
Qed.

Lemma visit_ibptr (fs : sink_env) (cfg : config) (ptr : Z) (g g' : globals) :
  visit fs cfg ptr g = Some g' → ibptr g' = ibptr g.
Proof.
  unfold visit. destruct (aget (unproc g) ptr) as [[]|]; cbn; [|congruence|done].
  apply process_slot_ibptr.
Qed.

Lemma process_from_visits (fs : sink_env) (cfg : config) (n : nat) (lo : Z) (g : globals) :
  0 ≤ ibptr g → 0 ≤ lo →
  for_loop_from n lo (process_iter fs cfg) g =
  fold_opt (visit fs cfg)
    ((fun k => (ibptr g + Z.quot PIPELINE_LEN 10 + k) mod PIPELINE_LEN) <$> seqZ lo (Z.of_nat n)) g.
Proof.
  revert lo g. induction n as [|n IH]; intros lo g Hib Hlo; [done|].
  rewrite seqZ_cons by lia. cbn [for_loop_from fmap list_fmap fold_opt].
  assert (Hiter : process_iter fs cfg lo g =
            visit fs cfg ((ibptr g + Z.quot PIPELINE_LEN 10 + lo) mod PIPELINE_LEN) g).
  { unfold process_iter, visit. by rewrite scan_ptr_mod. }
  rewrite Hiter. destruct (visit fs cfg _ g) as [t|] eqn:Ht; [|done].
  cbn [mbind option_bind]. apply visit_ibptr in Ht.
  rewrite IH by lia. rewrite Ht. do 3 f_equal; lia.
Qed.

(** Positions on the circle of slots. *)
Lemma circle_position (ib n j : Z) :
  0 ≤ j < PIPELINE_LEN → 0 ≤ n < PIPELINE_LEN →
  j = (ib + Z.quot PIPELINE_LEN 10 + n) mod PIPELINE_LEN ↔
  (j - ib - Z.quot PIPELINE_LEN 10) mod PIPELINE_LEN = n.
Proof.
  change (Z.quot PIPELINE_LEN 10) with 10. unfold PIPELINE_LEN. intros Hj Hn.
  split; intros H; Z.div_mod_to_equations; lia.
Qed.

(** One call of [process] on a well-formed state: it returns, every flag
    is clear afterwards, and the producer's side is as it was. *)
Lemma process_spec (fs : sink_env) (cfg : config) (g : globals) :
  config_ok cfg → buffers_allocated cfg g → window_in_range cfg g →
  0 ≤ ibptr g < PIPELINE_LEN →
  ∃ g', process fs cfg g = Some g' ∧
    buffers_allocated cfg g' ∧ window_in_range cfg g' ∧ same_producer g g' ∧
    ∀ j, 0 ≤ j < PIPELINE_LEN → aget (unproc g') j = Some false.
Proof.
  intros Hc Hb Hw Hib. unfold process.
  destruct (for_loop_inv
    (fun (n : Z) (g1 : globals) =>
       buffers_allocated cfg g1 ∧ window_in_range cfg g1 ∧ same_producer g g1 ∧
       ∀ j, 0 ≤ j < PIPELINE_LEN →
         aget (unproc g1) j =
           if decide ((j - ibptr g - Z.quot PIPELINE_LEN 10) mod PIPELINE_LEN < n)
           then Some false else aget (unproc g) j)
    (process_iter fs cfg) 0 PIPELINE_LEN g) as (g' & Hrun & Hb' & Hw' & Hs' & Hflags);
    [done| | |].
  - split; [done|]. split; [done|]. split; [done|]. intros j Hj.
    rewrite decide_False; [done|].
    pose proof (Z.mod_pos_bound (j - ibptr g - Z.quot PIPELINE_LEN 10) PIPELINE_LEN).
    unfold PIPELINE_LEN in *. lia.
  - intros n g1 Hn (Hb1 & Hw1 & (Hr1 & Hi1 & Hp1) & Hf1).
    unfold process_iter. rewrite Hi1.
    pose proof (scan_ptr_range (ibptr g) n ltac:(lia) ltac:(lia)) as Hptr.
    pose proof (scan_ptr_mod (ibptr g) n ltac:(lia) ltac:(lia)) as Hmod.
    set (ptr := scan_ptr (ibptr g) n) in *.
    assert (Hpos : (ptr - ibptr g - Z.quot PIPELINE_LEN 10) mod PIPELINE_LEN = n)
      by (by apply circle_position).
    assert (Hstep : ∀ u : list bool,
      (∀ j, 0 ≤ j < PIPELINE_LEN → j ≠ ptr → aget u j = aget (unproc g1) j) →
      aget u ptr = Some false →
      ∀ j, 0 ≤ j < PIPELINE_LEN →
        aget u j =
          if decide ((j - ibptr g - Z.quot PIPELINE_LEN 10) mod PIPELINE_LEN < n + 1)
          then Some false else aget (unproc g) j).
    { intros u Hother Hthis j Hj. destruct (decide (j = ptr)) as [->|Hne].
      - rewrite Hthis, Hpos. by rewrite decide_True by lia.
      - rewrite Hother, Hf1 by done.
        assert ((j - ibptr g - Z.quot PIPELINE_LEN 10) mod PIPELINE_LEN ≠ n).
        { intros Heq. apply circle_position in Heq; [|done..]. congruence. }
        repeat case_decide; try done; lia. }
    destruct (aget_is_Some (unproc g1) ptr) as [flag Hflag].
    { destruct Hb1 as [-> _]. done. }
    rewrite Hflag. cbn [mbind option_bind]. destruct flag.
    + destruct (process_slot_spec fs cfg ptr g1 Hc Hb1 Hw1 Hptr)
        as (g2 & evs & -> & Hb2 & Hw2 & (Hr2 & Hi2 & Hp2) & Hu2 & _).
      eexists. split; [done|]. split; [done|]. split; [done|].
      split; [unfold same_producer; by rewrite Hr2, Hi2, Hp2|].
      apply Hstep.
      * intros j Hj Hne. rewrite Hu2. apply aget_insert_ne; lia.
      * rewrite Hu2. apply aget_insert_eq. destruct Hb1 as [-> _]. done.
    + eexists. split; [done|]. split; [done|]. split; [done|]. split; [done|].
      by apply Hstep.
  - exists g'. split; [done|]. split; [done|]. split; [done|]. split; [done|].
    intros j Hj. rewrite Hflags by done. rewrite decide_True; [done|].
    by apply Z.mod_pos_bound.
Qed.

(** With no flag set, [process] changes nothing. *)
Lemma process_idle (fs : sink_env) (cfg : config) (g : globals) :
  0 ≤ ibptr g →
  (∀ j, 0 ≤ j < PIPELINE_LEN → aget (unproc g) j = Some false) →
  process fs cfg g = Some g.
Proof.
  intros Hib Hflags. unfold process.
  destruct (for_loop_inv (fun (_ : Z) (g1 : globals) => g1 = g)
    (process_iter fs cfg) 0 PIPELINE_LEN g) as (g' & -> & ->); [done..| |done].
  intros n g1 Hn ->. unfold process_iter.
  rewrite Hflags by (apply scan_ptr_range; lia). cbn. eauto.
Qed.

(** ** Invariants of the whole pipeline *)

Lemma handle_sample_cursors (cfg : config) (d : acceleration) (g : globals) :
  buffers_allocated cfg g → cursors_in_range cfg g →
  ∃ g', handle_sample cfg d g = Some g' ∧
    buffers_allocated cfg g' ∧ cursors_in_range cfg g' ∧
    aind g' = aind g ∧ ampspec g' = ampspec g ∧
    rbufi g' = (if decide (rbufi g + 1 = samplerate cfg) then 0 else rbufi g + 1) ∧
    ibptr g' = (if decide (rbufi g + 1 = samplerate cfg)
                then if decide (ibptr g + 1 = PIPELINE_LEN) then 0 else ibptr g + 1
                else ibptr g).
Proof.
  intros Hb Hc.
  destruct (handle_sample_spec cfg d g Hb Hc) as (g' & H' & Hb' & Ha' & Hs' & Hcase).
  exists g'. destruct Hc as [Hi Hr]. split; [done|]. split; [done|].
  case_decide.
  - destruct Hcase as (Hr' & _ & Hi' & _).
    assert (ibptr g' = if decide (ibptr g + 1 = PIPELINE_LEN) then 0 else ibptr g + 1)
      as Hi''.
    { rewrite Hi'. case_decide as Hw.
      - rewrite Hw. by apply Z.mod_same.
      - apply Z.mod_small. lia. }
    split; [|done]. split; [|lia]. rewrite Hi''. case_decide; lia.
  - destruct Hcase as (Hr' & _ & Hi' & _). split; [|done]. split; lia.
Qed.

Lemma handler_invariant (cfg : config) (data : list acceleration) (g : globals) :
  buffers_allocated cfg g → cursors_in_range cfg g →
  ∃ g', fold_opt (handle_sample cfg) data g = Some g' ∧
    buffers_allocated cfg g' ∧ cursors_in_range cfg g' ∧
    aind g' = aind g ∧ ampspec g' = ampspec g.
Proof.
  revert g. induction data as [|d data IH]; intros g Hb Hc.
  - by exists g.
  - destruct (handle_sample_cursors cfg d g Hb Hc) as (g1 & H1 & Hb1 & Hc1 & Ha1 & Hs1 & _).
    destruct (IH g1 Hb1 Hc1) as (g' & H' & ? & ? & ? & ?).
    exists g'. cbn [fold_opt]. rewrite H1. cbn [mbind option_bind].
    split; [done|]. split; [done|]. split; [done|]. split; congruence.
Qed.

(** Whatever the scheduler does, the program keeps running and its buffers
    and cursors stay well formed. *)
Lemma run_invariant (fs : sink_env) (cfg : config) (sched : list action) (g : globals) :
  config_ok cfg →
  buffers_allocated cfg g → cursors_in_range cfg g → window_in_range cfg g →
  ∃ g', run fs cfg sched g = Some g' ∧
    buffers_allocated cfg g' ∧ cursors_in_range cfg g' ∧ window_in_range cfg g'.
Proof.
  intros Hcfg. revert g. induction sched as [|a sched IH]; intros g Hb Hc Hw.
  - by exists g.
  - cbn [run]. destruct a as [data|]; cbn [run_action].
    + rewrite SpatialDataHandler_fold.
      destruct (handler_invariant cfg data g Hb Hc) as (g1 & -> & Hb1 & Hc1 & Ha1 & _).
      cbn [mbind option_bind]. apply IH; [done..|].
      unfold window_in_range. by rewrite Ha1.
    + destruct (process_spec fs cfg g Hcfg Hb Hw) as (g1 & -> & Hb1 & Hw1 & (Hr & Hi & _) & _).
      { apply Hc. }
      cbn [mbind option_bind]. apply IH; [done| |done].
      unfold cursors_in_range. by rewrite Hr, Hi.
Qed.

(** As long as no second is complete, nothing but [rbufi] and the slot
    being filled changes, however often [process] runs in between. *)
Lemma run_quiet (fs : sink_env) (cfg : config) (sched : list action) (g : globals) :
  buffers_allocated cfg g → cursors_in_range cfg g →
  (∀ j, 0 ≤ j < PIPELINE_LEN → aget (unproc g) j = Some false) →
  rbufi g + Z.of_nat (length (concat (delivered <$> sched))) < samplerate cfg →
  ∃ g', run fs cfg sched g = Some g' ∧
    rbufi g' = rbufi g + Z.of_nat (length (concat (delivered <$> sched))) ∧
    unproc g' = unproc g ∧ ibptr g' = ibptr g ∧ trace g' = trace g ∧
    aind g' = aind g ∧ ampspec g' = ampspec g.
Proof.
  revert g. induction sched as [|a sched IH]; intros g Hb Hc Hf Hlen.
  - exists g. cbn. repeat split; try done. lia.
  - cbn [fmap list_fmap concat]. cbn [fmap list_fmap concat] in Hlen.
    rewrite length_app. rewrite length_app in Hlen.
    cbn [run]. destruct a as [data|]; cbn [run_action delivered] in *.
    + rewrite SpatialDataHandler_fold.
      destruct (fill_partial cfg data g Hb Hc) as (g1 & -> & Hb1 & Ha1 & Hs1 & Hr1 & Hu1 & Hi1 & Ht1);
        [lia|].
      cbn [mbind option_bind].
      destruct (IH g1) as (g' & -> & Hr' & Hu' & Hi' & Ht' & Ha' & Hs'); [done| | |lia|].
      { destruct Hc. split; lia. }
      { by rewrite Hu1. }
      exists g'. split; [done|].
      repeat split; try congruence. lia.
    + rewrite process_idle by (done || apply Hc). cbn [mbind option_bind].
      destruct (IH g) as (g' & -> & Hr' & ?); [done..|lia|].
      exists g'. split; [done|]. split; [|done]. rewrite Hr'. cbn [length]. lia.
Qed.

(** ** The running maximum and the mean *)

Local Open Scope R_scope.

Lemma window_sum_const (a : nat → R) (c : R) (n : nat) :
  (∀ j, (j < n)%nat → a j = c) → window_sum a n = INR n * c.
Proof.
  induction n as [|n IH]; intros Ha.
  - cbn. lra.
  - cbn [window_sum]. rewrite IH by (intros; apply Ha; lia).
    rewrite (Ha n) by lia. rewrite S_INR. lra.
Qed.

Lemma window_max_nonneg (a : nat → R) (j : nat) :
  (∀ i, (i ≤ j)%nat → 0 <= a i) → 0 <= window_max a j.
Proof.
  induction j as [|j IH]; intros Ha.
  - apply Ha. lia.
  - cbn [window_max]. etransitivity; [apply (Ha (S j)); lia|]. apply Rmax_r.
Qed.

(** The accumulator takes the larger of the entry and its old value. *)
Lemma reference_max_step (d : R) (a : nat → R) (j : nat) :
  reference_max d a (S j) = Rmax (a (S j)) (reference_max d a j) / d.
Proof.
  cbn [reference_max]. f_equal. unfold Rmax.
  destruct (Rgt_dec _ _), (Rle_dec _ _); lra.
Qed.

(** With the divisor 1 the loop computes the plain maximum. *)
Lemma reference_max_unscaled (a : nat → R) (j : nat) :
  reference_max 1 a j = window_max a j.
Proof.
  induction j as [|j IH].
  - cbn. lra.
  - rewrite reference_max_step, IH. cbn [window_max]. rewrite Rmax_comm. lra.
Qed.

Lemma div_le_self (x d : R) : 0 <= x → 1 <= d → x / d <= x.
Proof.
  intros Hx Hd. assert (0 < / d) by (apply Rinv_0_lt_compat; lra).
  assert (x / d * d = x) by (field; lra).
  assert (0 <= x / d) by (unfold Rdiv; nra). nra.
Qed.

Lemma div_ge_self (x d : R) : 0 <= x → 0 < d <= 1 → x <= x / d.
Proof.
  intros Hx Hd. assert (0 < / d) by (apply Rinv_0_lt_compat; lra).
  assert (x / d * d = x) by (field; lra).
  assert (0 <= x / d) by (unfold Rdiv; nra). nra.
Qed.

Lemma div_lt_self (x d : R) : 0 < x → 1 < d → x / d < x.
Proof.
  intros Hx Hd. assert (0 < / d) by (apply Rinv_0_lt_compat; lra).
  assert (x / d * d = x) by (field; lra).
  assert (0 < x / d) by (unfold Rdiv; nra). nra.
Qed.

Lemma div_gt_self (x d : R) : 0 < x → 0 < d < 1 → x < x / d.
Proof.
  intros Hx Hd. assert (0 < / d) by (apply Rinv_0_lt_compat; lra).
  assert (x / d * d = x) by (field; lra).
  assert (0 < x / d) by (unfold Rdiv; nra). nra.
Qed.

Lemma div_le_mono (x y d : R) : 0 < d → x <= y → x / d <= y / d.
Proof.
  intros Hd Hxy. unfold Rdiv. apply Rmult_le_compat_r; [|done].
  left. by apply Rinv_0_lt_compat.
Qed.

(** A divisor above 1 keeps the accumulator below the scaled maximum ... *)
Lemma reference_max_upper (d : R) (a : nat → R) (j : nat) :
  1 <= d → (∀ i, (i ≤ j)%nat → 0 <= a i) →
  reference_max d a j <= window_max a j / d.
Proof.
  intros Hd. induction j as [|j IH]; intros Ha.
  - cbn. lra.
  - rewrite reference_max_step. cbn [window_max].
    apply div_le_mono; [lra|].
    assert (0 <= window_max a j) by (apply window_max_nonneg; intros; apply Ha; lia).
    assert (reference_max d a j <= window_max a j).
    { etransitivity; [apply IH; intros; apply Ha; lia|]. by apply div_le_self. }
    apply Rmax_lub.
    + apply Rmax_r.
    + etransitivity; [done|]. apply Rmax_l.
Qed.

(** ... and a divisor below 1 keeps it above. *)
Lemma reference_max_lower (d : R) (a : nat → R) (j : nat) :
  0 < d <= 1 → (∀ i, (i ≤ j)%nat → 0 <= a i) →
  window_max a j / d <= reference_max d a j.
Proof.
  intros Hd. induction j as [|j IH]; intros Ha.
  - cbn. lra.
  - rewrite reference_max_step. cbn [window_max].
    apply div_le_mono; [lra|].
    assert (0 <= window_max a j) by (apply window_max_nonneg; intros; apply Ha; lia).
    assert (window_max a j <= reference_max d a j).
    { etransitivity; [|apply IH; intros; apply Ha; lia]. by apply div_ge_self. }
    apply Rmax_lub.
    + etransitivity; [done|]. apply Rmax_r.
    + apply Rmax_l.
Qed.

(** With a divisor other than 1, the loop yields the maximum divided once
    only if the last entry is the maximum. *)
Lemma reference_max_ideal_last (d : R) (a : nat → R) (j : nat) :
  0 < d → d ≠ 1 → (∀ i, (i ≤ j)%nat → 0 <= a i) →
  reference_max d a j = window_max a j / d →
  a j = window_max a j.
Proof.
  intros Hd Hne Ha Heq. destruct j as [|j]; [done|].
  rewrite reference_max_step in Heq. cbn [window_max] in *.
  assert (Hsel : Rmax (a (S j)) (reference_max d a j) = Rmax (window_max a j) (a (S j))).
  { apply (Rmult_eq_reg_r (/ d)); [done|]. apply Rinv_neq_0_compat. lra. }
  assert (HM : 0 <= window_max a j) by (apply window_max_nonneg; intros; apply Ha; lia).
  assert (Ha' : ∀ i, (i ≤ j)%nat → 0 <= a i) by (intros; apply Ha; lia).
  destruct (Rle_dec (window_max a j) (a (S j))) as [Hle|Hgt].
  - by rewrite Rmax_right.
  - exfalso. apply Rnot_le_lt in Hgt.
    rewrite (Rmax_left (window_max a j)) in Hsel by lra.
    assert (Hv : reference_max d a j = window_max a j).
    { revert Hsel. unfold Rmax. destruct (Rle_dec _ _); lra. }
    pose proof (Ha (S j) ltac:(lia)) as Hlast.
    assert (Hpos : 0 < window_max a j) by lra.
    destruct (Rlt_dec 1 d) as [Hbig|Hsmall].
    + pose proof (reference_max_upper d a j ltac:(lra) Ha') as Hup.
      pose proof (div_lt_self (window_max a j) d Hpos Hbig). lra.
    + pose proof (reference_max_lower d a j ltac:(lra) Ha') as Hlow.
      pose proof (div_gt_self (window_max a j) d Hpos ltac:(lra)). lra.
Qed.

Lemma scale_default (cfg : config) : samplerate cfg = 1000%Z → scale cfg = 1.
Proof. intros HR. unfold scale. rewrite HR. lra. Qed.

Lemma scale_other (cfg : config) :
  (0 < samplerate cfg)%Z → samplerate cfg ≠ 1000%Z → 0 < scale cfg ∧ scale cfg ≠ 1.
Proof.
  intros HR Hne. unfold scale.
  assert (0 < IZR (samplerate cfg)) by (by apply IZR_lt).
  split; [lra|]. intros Heq.
  assert (IZR (samplerate cfg) = IZR 1000) as Hz by lra.
  by apply eq_IZR in Hz.
Qed.

(** * The claims *)

Local Open Scope Z_scope.

(** C4: for an input of [N > 0] samples, [calc_amplitude_spectrum] writes
    exactly [N / 2 + 1] bins (the cells behind them keep their contents):
    bin 0 is the absolute value of the DC coefficient [out[0]], every bin
    [k] with [0 < k < N / 2] is [sqrt (out[k]^2 + out[N - k]^2)], bin
    [N / 2] is the absolute value of the Nyquist coefficient when [N] is
    even, and no bin is negative.  [out] is what [rfftw_one] returns. *)
Theorem amplitude_spectrum_bins (inp : list R) (N : Z) (amp : list R) :
  0 < N → Z.of_nat (length inp) = N → N / 2 + 1 ≤ Z.of_nat (length amp) →
  let out := rfftw_one inp in
  ∃ bins,
    calc_amplitude_spectrum inp N amp = Some (bins ++ drop (Z.to_nat (N / 2 + 1)) amp) ∧
    Z.of_nat (length bins) = N / 2 + 1 ∧
    Z.of_nat (length out) = N ∧
    aget bins 0 = Some (Rabs (cell out 0)) ∧
    (∀ k, 0 < k → 2 * k < N →
       aget bins k = Some (sqrt (cell out k * cell out k
                                 + cell out (N - k) * cell out (N - k)))) ∧
    (N mod 2 = 0 → aget bins (N / 2) = Some (Rabs (cell out (N / 2)))) ∧
    (∀ k x, aget bins k = Some x → (0 <= x)%R).
Proof.
  intros HN Hlen Hamp out.
  assert (Hh : 0 ≤ N / 2) by (apply Z.div_pos; lia).
  assert (HN2 : N = 2 * (N / 2) + N mod 2) by (apply Z.div_mod; lia).
  assert (Hm : 0 ≤ N mod 2 < 2) by (apply Z.mod_pos_bound; lia).
  exists (amplitude_bins out N).
  assert (Hbin : ∀ k, 0 ≤ k ≤ N / 2 →
            aget (amplitude_bins out N) k = Some (spectrum_bin out N k)).
  { intros k Hk. rewrite aget_lookup by lia. by apply amplitude_bins_lookup. }
  split; [|split; [|split; [|split; [|split; [|split]]]]].
  - rewrite calc_amplitude_spectrum_refines by lia.
    unfold out. by rewrite take_ge by lia.
  - rewrite amplitude_bins_length. lia.
  - unfold out. by rewrite rfftw_one_length.
  - rewrite Hbin by lia. unfold spectrum_bin. by rewrite decide_True.
  - intros k Hk0 Hk. rewrite Hbin by lia. unfold spectrum_bin.
    rewrite decide_False by lia. by rewrite decide_False by lia.
  - intros Heven. rewrite Hbin by lia. unfold spectrum_bin.
    case_decide as H0; [by rewrite H0|]. by rewrite decide_True by lia.
  - intros k x Hx. apply aget_Some_inv in Hx as [Hk Hx].
    rewrite amplitude_bins_length in Hk.
    rewrite amplitude_bins_lookup in Hx by lia. injection Hx as <-.
    apply spectrum_bin_nonneg.
Qed.

(** C1, amended: with the policy max, the value printed for bin [k] of an
    axis is the result of the reference running-max loop, in which the
    accumulator takes the [j]-th entry when that entry exceeds it or
    [j = 0] and is divided by [samplerate / 1000] on that same iteration,
    and that is the value the emitted row carries.  At the sample rate
    1000 the divisor is 1 and the row carries the plain maximum of the
    window wherever it occurs; at any other positive rate, for non-negative
    entries, it carries the maximum divided once only when the maximum is
    at the last window position. *)
Theorem running_max_emitted (fs : sink_env) (cfg : config) (g : globals) (dim k : Z) :
  max_instead_of_avg cfg = true →
  config_ok cfg → buffers_allocated cfg g →
  0 ≤ dim < 3 → 0 ≤ k ≤ maxfreq cfg →
  let a := window_entry g dim k in
  let last := Z.to_nat (avg_int_in_sec cfg - 1) in
  csv_value cfg g dim k = Some (reference_max (scale cfg) a last) ∧
  (fopen_create (fs (trace g) dim) = true → fopen_append (fs (trace g) dim) = true →
   fprintf_ok (fs (trace g) dim) = true →
   ∃ vals, output_csv fs cfg dim g = Some (true, emit_event (Csv_row dim vals) g) ∧
           aget vals k = Some (reference_max (scale cfg) a last)) ∧
  (samplerate cfg = 1000 →
   reference_max (scale cfg) a last = (window_max a last / scale cfg)%R ∧
   reference_max (scale cfg) a last = window_max a last) ∧
  (samplerate cfg ≠ 1000 → (∀ j, (j ≤ last)%nat → (0 <= a j)%R) →
   reference_max (scale cfg) a last = (window_max a last / scale cfg)%R →
   a last = window_max a last).
Proof.
  intros Hmax Hc Hb Hdim Hk a last. pose proof Hc as (HR & HW & Hmf & _).
  assert (Hval : csv_value cfg g dim k = Some (reference_max (scale cfg) a last)).
  { rewrite (csv_value_max cfg g dim k) by (done || lia).
    unfold row_value. by rewrite Hmax. }
  split; [done|]. split; [|split].
  - intros Hc1 Hc2 Hc3. exists (row_values cfg g dim).
    rewrite output_csv_spec by done. unfold emission_result, emission.
    rewrite Hc1, Hc2, Hc3. split; [done|].
    rewrite aget_lookup by lia. unfold row_values. rewrite list_lookup_fmap.
    rewrite lookup_seqZ_lt by lia. cbn. rewrite Z2Nat.id by lia.
    unfold row_value. by rewrite Hmax.
  - intros H1000. rewrite (scale_default cfg H1000), reference_max_unscaled.
    split; [lra|done].
  - intros Hne Hpos. destruct (scale_other cfg HR Hne). by apply reference_max_ideal_last.
Qed.

(** C3: with the policy mean, when bin [k] of all [W] spectra of the
    window of an axis holds the same value [c], the value printed for bin
    [k], which the emitted row carries, is [c / (samplerate / 1000)], that
    is the sum [W * c] of the entries divided by [W * samplerate / 1000]. *)
Theorem mean_of_constant_window (fs : sink_env) (cfg : config) (g : globals)
    (dim k : Z) (c : R) :
  max_instead_of_avg cfg = false →
  0 < avg_int_in_sec cfg → 0 < samplerate cfg →
  avg_int_in_sec cfg * samplerate cfg ≤ INT_MAX →
  (∀ j, 0 ≤ j < avg_int_in_sec cfg → aget3 (ampspec g) dim j k = Some c) →
  csv_value cfg g dim k = Some (c / scale cfg)%R ∧
  (c / scale cfg = IZR (avg_int_in_sec cfg) * c
                   / (IZR (avg_int_in_sec cfg) * IZR (samplerate cfg) / 1000))%R ∧
  (buffers_allocated cfg g → 0 ≤ dim < 3 → 0 ≤ k ≤ maxfreq cfg →
   maxfreq cfg ≤ samplerate cfg / 2 →
   fopen_create (fs (trace g) dim) = true → fopen_append (fs (trace g) dim) = true →
   fprintf_ok (fs (trace g) dim) = true →
   ∃ vals, output_csv fs cfg dim g = Some (true, emit_event (Csv_row dim vals) g) ∧
           aget vals k = Some (c / scale cfg)%R).
Proof.
  intros Hmean HW HR Hmul Hc.
  assert (HWr : (0 < IZR (avg_int_in_sec cfg))%R) by (by apply IZR_lt).
  assert (HRr : (0 < IZR (samplerate cfg))%R) by (by apply IZR_lt).
  assert (Hsum : (window_sum (fun _ => c) (Z.to_nat (avg_int_in_sec cfg))
                  / (IZR (avg_int_in_sec cfg * samplerate cfg) / 1000)
                  = c / scale cfg)%R).
  { rewrite (window_sum_const _ c) by done. rewrite INR_IZR_INZ, Z2Nat.id by lia.
    rewrite mult_IZR. unfold scale. field. lra. }
  assert (Hval : csv_value cfg g dim k = Some (c / scale cfg)%R).
  { rewrite (csv_value_mean_entries cfg g dim k (fun _ => c)) by done.
    by rewrite Hsum. }
  split; [done|]. split.
  - unfold scale. field. lra.
  - intros Hb Hdim Hk Hmf Hc1 Hc2 Hc3. exists (row_values cfg g dim).
    assert (Hcfg : config_ok cfg) by (by unfold config_ok).
    rewrite output_csv_spec by done. unfold emission_result, emission.
    rewrite Hc1, Hc2, Hc3. split; [done|].
    rewrite aget_lookup by lia. unfold row_values. rewrite list_lookup_fmap.
    rewrite lookup_seqZ_lt by lia. cbn. rewrite Z2Nat.id by lia.
    assert (Hrow : csv_value cfg g dim k = Some (row_value cfg g dim k)).
    { apply csv_value_row; [done..|lia]. }
    rewrite Hval in Hrow. by injection Hrow as ->.
Qed.

(** The state the processing loop starts from. *)
Lemma boot_state (cfg : config) (g0 : globals) :
  alloc_spec_buffers cfg initial_globals = Some g0 →
  buffers_allocated cfg g0 ∧
  rbufi g0 = 0 ∧ ibptr g0 = 0 ∧ aind g0 = 0 ∧ trace g0 = [] ∧
  unproc g0 = replicate (Z.to_nat PIPELINE_LEN) false.
Proof.
  intros H. destruct (boot_undrained cfg g0 H) as (Hb & _ & _).
  apply alloc_spec_buffers_shape in H as (_ & _ & Hr & Hi & Ha & Hu & Ht & _).
  by rewrite Hr, Hi, Ha, Hu, Ht.
Qed.

(** C2, amended: from the start and without draining, once exactly
    [samplerate * k] sample triples have been delivered, in whatever
    batches, exactly [k] slots are ready when [k ≤ PIPELINE_LEN] and no
    overrun has been reported when [k < PIPELINE_LEN]; from
    [k = PIPELINE_LEN] on, all [PIPELINE_LEN] slots are ready and "Realtime
    error!" has been printed [k - PIPELINE_LEN + 1] times: once when the
    [PIPELINE_LEN]-th second completes and once for every second after it. *)
Theorem undrained_ready_and_overruns (fs : sink_env) (cfg : config)
    (batches : list (list acceleration)) (k : nat) :
  0 < samplerate cfg → 0 ≤ avg_int_in_sec cfg →
  Z.of_nat (length (concat batches)) = samplerate cfg * Z.of_nat k →
  ∃ g, boot fs cfg (Deliver <$> batches) = Some g ∧
    ((k ≤ Z.to_nat PIPELINE_LEN)%nat → ready_slots g = k) ∧
    ((k < Z.to_nat PIPELINE_LEN)%nat → overruns g = O) ∧
    ((Z.to_nat PIPELINE_LEN ≤ k)%nat →
       ready_slots g = Z.to_nat PIPELINE_LEN ∧
       overruns g = (k - Z.to_nat PIPELINE_LEN + 1)%nat).
Proof.
  intros HR HW Hlen. unfold boot.
  destruct (alloc_spec_buffers_Some cfg initial_globals) as [g0 Hg0]; [lia..|].
  rewrite Hg0. cbn [mbind option_bind].
  destruct (boot_undrained cfg g0 Hg0) as (Hb0 & Hun0 & _).
  rewrite run_deliver.
  destruct (undrained_seconds cfg k 0 (concat batches) g0 Hb0 Hun0 HR Hlen)
    as (g & -> & _ & Hun & _).
  exists g. split; [done|].
  rewrite (undrained_ready _ _ Hun), (undrained_overruns _ _ Hun).
  repeat split; lia.
Qed.

(** C8: with [samplerate = 100], once exactly 99 sample triples have been
    delivered, in whatever batches and however often [process] has run in
    between, no slot is ready and nothing has been printed or written: no
    row, no overrun.  The 99 samples sit in slot 0, which is still being
    filled. *)
Theorem partial_second_is_silent (fs : sink_env) (cfg : config) (sched : list action) :
  samplerate cfg = 100 → 0 ≤ avg_int_in_sec cfg →
  length (concat (delivered <$> sched)) = 99%nat →
  ∃ g, boot fs cfg sched = Some g ∧
    (∀ j, 0 ≤ j < PIPELINE_LEN → aget (unproc g) j = Some false) ∧
    ready_slots g = O ∧ trace g = [] ∧ overruns g = O ∧
    rbufi g = 99 ∧ ibptr g = 0.
Proof.
  intros HR HW Hlen. unfold boot.
  destruct (alloc_spec_buffers_Some cfg initial_globals) as [g0 Hg0]; [lia..|].
  rewrite Hg0. cbn [mbind option_bind].
  destruct (boot_state cfg g0 Hg0) as (Hb0 & Hr0 & Hi0 & _ & Ht0 & Hu0).
  assert (Hf0 : ∀ j, 0 ≤ j < PIPELINE_LEN → aget (unproc g0) j = Some false).
  { intros j Hj. rewrite Hu0. apply aget_replicate. lia. }
  destruct (run_quiet fs cfg sched g0 Hb0) as (g & -> & Hr & Hu & Hi & Ht & _);
    [|done|lia|].
  { unfold cursors_in_range. rewrite Hr0, Hi0, HR. done. }
  exists g. split; [done|]. unfold ready_slots, overruns.
  rewrite Hu, Ht, Hi, Hr, Hr0, Hi0, Ht0, Hlen.
  split; [done|]. split; [|done]. rewrite Hu0. done.
Qed.

(** C10: on a state with the buffers allocated and the cursors in range,
    [SpatialDataHandler] performs every array access within bounds (it
    returns a state) and leaves [ibptr] in [[0, PIPELINE_LEN)] and [rbufi]
    in [[0, samplerate)]: each sample moves [rbufi] up by one, or back to 0
    when it completes the second, and then moves [ibptr] up by one, or back
    to 0 from [PIPELINE_LEN - 1]. *)
Theorem write_cursors_in_range (cfg : config) (g : globals) :
  buffers_allocated cfg g → cursors_in_range cfg g →
  (∀ d, ∃ g', handle_sample cfg d g = Some g' ∧
      buffers_allocated cfg g' ∧ cursors_in_range cfg g' ∧
      rbufi g' = (if decide (rbufi g + 1 = samplerate cfg) then 0 else rbufi g + 1) ∧
      ibptr g' = (if decide (rbufi g + 1 = samplerate cfg)
                  then if decide (ibptr g + 1 = PIPELINE_LEN) then 0 else ibptr g + 1
                  else ibptr g)) ∧
  (∀ data, ∃ g', SpatialDataHandler cfg data (Z.of_nat (length data)) g = Some g' ∧
      buffers_allocated cfg g' ∧ cursors_in_range cfg g').
Proof.
  intros Hb Hc. split.
  - intros d.
    destruct (handle_sample_cursors cfg d g Hb Hc) as (g' & ? & ? & ? & _ & _ & ? & ?).
    by exists g'.
  - intros data. rewrite SpatialDataHandler_fold.
    destruct (handler_invariant cfg data g Hb Hc) as (g' & ? & ? & ? & _).
    by exists g'.
Qed.

(** C7: with a window of [avg_int_in_sec > 0] seconds, the fill index
    [aind] is in [[0, avg_int_in_sec)] whenever the program can be observed.
    Processing a ready slot moves it up by one; the step that would make it
    reach [avg_int_in_sec] sets it to 0 instead and calls [output_csv] once
    for each axis 0, 1, 2, and no other step emits.  Whatever the scheduler
    does from the start, the program keeps running with [aind] in range. *)
Theorem window_fill_index_invariant (fs : sink_env) (cfg : config) :
  config_ok cfg →
  (∀ g ptr, buffers_allocated cfg g → window_in_range cfg g →
     0 ≤ ptr < PIPELINE_LEN →
     ∃ g' evs, process_slot fs cfg ptr g = Some g' ∧
       window_in_range cfg g' ∧
       aind g' = (if decide (aind g + 1 = avg_int_in_sec cfg) then 0 else aind g + 1) ∧
       trace g' = trace g ++ evs ∧
       emission_axis <$> evs =
         (if decide (aind g + 1 = avg_int_in_sec cfg)
          then [Some 0; Some 1; Some 2] else [])) ∧
  (∀ g sched, buffers_allocated cfg g → cursors_in_range cfg g →
     window_in_range cfg g →
     ∃ g', run fs cfg sched g = Some g' ∧ window_in_range cfg g') ∧
  (∀ sched, ∃ g, boot fs cfg sched = Some g ∧ window_in_range cfg g).
Proof.
  intros Hc. pose proof Hc as (HR & HW & _). split; [|split].
  - intros g ptr Hb Hw Hptr.
    destruct (process_slot_spec fs cfg ptr g Hc Hb Hw Hptr)
      as (g' & evs & ? & _ & ? & _ & _ & ? & _ & ? & ? & _).
    by exists g', evs.
  - intros g sched Hb Hcu Hw.
    destruct (run_invariant fs cfg sched g Hc Hb Hcu Hw) as (g' & ? & _ & _ & ?).
    by exists g'.
  - intros sched. unfold boot.
    destruct (alloc_spec_buffers_Some cfg initial_globals) as [g0 Hg0]; [lia..|].
    rewrite Hg0. cbn [mbind option_bind].
    destruct (boot_state cfg g0 Hg0) as (Hb0 & Hr0 & Hi0 & Ha0 & _).
    destruct (run_invariant fs cfg sched g0 Hc Hb0) as (g' & ? & _ & _ & ?).
    + unfold cursors_in_range. rewrite Hr0, Hi0. done.
    + unfold window_in_range. rewrite Ha0. lia.
    + by exists g'.
Qed.

(** C9, amended: when a file of the sink cannot be opened, [output_csv]
    returns [FALSE] to its caller and does not crash, in whatever state.
    Failing writes are not detected: with a valid configuration and the
    buffers allocated, once the files are open [output_csv] returns [TRUE],
    whether the row has been written or lost, and it never returns [FALSE]
    then.  In every case it leaves the window (the spectra and the fill
    index) and everything else in memory as they were; only the trace of
    outputs grows, by one event. *)
Theorem output_csv_failure_and_frame (fs : sink_env) (cfg : config) (dim : Z)
    (g : globals) :
  (fopen_create (fs (trace g) dim) = false ∨ fopen_append (fs (trace g) dim) = false →
   ∃ e, output_csv fs cfg dim g = Some (false, emit_event e g) ∧
        (e = Open_error dim ∨ e = Reopen_error dim)) ∧
  (config_ok cfg → buffers_allocated cfg g → 0 ≤ dim < 3 →
   fopen_create (fs (trace g) dim) = true →
   fopen_append (fs (trace g) dim) = true →
   ∃ e g', output_csv fs cfg dim g = Some (true, g') ∧
     g' = emit_event e g ∧
     (fprintf_ok (fs (trace g) dim) = false → e = Csv_row_lost dim) ∧
     (fprintf_ok (fs (trace g) dim) = true → e = Csv_row dim (row_values cfg g dim)) ∧
     ampspec g' = ampspec g ∧ aind g' = aind g) ∧
  (∀ r g', output_csv fs cfg dim g = Some (r, g') →
     fopen_create (fs (trace g) dim) = true →
     fopen_append (fs (trace g) dim) = true → r = true) ∧
  (∀ r g', output_csv fs cfg dim g = Some (r, g') →
     ampspec g' = ampspec g ∧ aind g' = aind g ∧ inbuf g' = inbuf g ∧
     unproc g' = unproc g ∧ rbufi g' = rbufi g ∧ ibptr g' = ibptr g).
Proof.
  split; [|split; [|split]].
  - unfold output_csv. intros [Hf|Hf].
    + rewrite Hf. cbn [negb]. eauto.
    + rewrite Hf. destruct (fopen_create _); cbn [negb]; eauto.
  - intros Hc Hb Hdim H1 H2. rewrite output_csv_spec by done.
    unfold emission_result, emission. rewrite H1, H2. cbn [negb andb].
    eexists _, _. split; [done|]. split; [done|].
    destruct (fprintf_ok _); done.
  - unfold output_csv. intros r g' H H1 H2. rewrite H1, H2 in H. cbn [negb] in H.
    destruct (for_loop _ _ _ _); [|done]. by injection H as <- _.
  - intros r g' H. apply output_csv_frame in H as (e & -> & _). done.
Qed.

(** C6, amended: start-up checks neither [maxfreq] nor [avg_int_in_sec]
    nor [samplerate].  For every parsed configuration that does not ask for
    the device information and whose [samplerate] and [avg_int_in_sec] are
    not negative, whatever [maxfreq] is and also when [avg_int_in_sec] is
    0, the program allocates the buffers.  With a positive [samplerate] it
    then sets the data rate [1000 / samplerate] and enters the processing
    loop.  With [samplerate = 0] it has allocated the buffers all the same
    and then ends in the integer division [1000 / samplerate]: nothing is
    rejected before the buffers are allocated.  The only configuration the
    program rejects is a command line that does not parse. *)
Theorem startup_unchecked (cfg : config) :
  info_only cfg = false → 0 ≤ samplerate cfg → 0 ≤ avg_int_in_sec cfg →
  (∃ g, alloc_spec_buffers cfg initial_globals = Some g ∧
        rows2 PIPELINE_LEN 3 (inbuf g) ∧
        dims3 PIPELINE_LEN 3 (samplerate cfg) (inbuf g) ∧
        rows2 3 (avg_int_in_sec cfg) (ampspec g) ∧
        (0 < samplerate cfg →
           main (Some cfg) = Processing (Z.quot 1000 (samplerate cfg)) g) ∧
        (samplerate cfg = 0 → main (Some cfg) = Division_by_zero)) ∧
  main (Some cfg) ≠ Invalid_options ∧
  main None = Invalid_options.
Proof.
  intros Hinfo HR HW.
  destruct (alloc_spec_buffers_Some cfg initial_globals HR HW) as [g Hg].
  assert (Hmain : main (Some cfg) =
            if decide (samplerate cfg = 0) then Division_by_zero
            else Processing (Z.quot 1000 (samplerate cfg)) g).
  { unfold main, controlloop. by rewrite Hinfo, Hg. }
  split; [|split; [rewrite Hmain; by case_decide|done]].
  exists g. split; [done|].
  pose proof Hg as Hshape.
  apply alloc_spec_buffers_shape in Hshape as (_ & _ & _ & _ & _ & _ & _ & ? & ? & ? & _).
  split; [done|]. split; [done|]. split; [done|]. split.
  - intros Hpos. rewrite Hmain. rewrite decide_False by lia. done.
  - intros Hzero. rewrite Hmain. by rewrite decide_True.
Qed.

(** C5, amended: one call of [process] looks at the [PIPELINE_LEN] slots
    once each, in increasing circular order, starting [PIPELINE_LEN / 10]
    positions ahead of the write pointer, at slot
    [(ibptr + PIPELINE_LEN / 10) mod PIPELINE_LEN].  A slot whose flag is
    set when it is looked at is processed, which computes one spectrum per
    axis into the window at the fill index, and its flag is cleared
    afterwards; a slot whose flag is clear is left alone.  On a well-formed
    state the call returns and leaves every flag clear. *)
Theorem process_scan_order (fs : sink_env) (cfg : config) (g : globals) :
  0 ≤ ibptr g < PIPELINE_LEN →
  process fs cfg g =
    fold_opt (visit fs cfg) (circular_scan (PIPELINE_LEN / 10) (ibptr g)) g ∧
  (∀ k, 0 ≤ k < PIPELINE_LEN →
     scan_ptr (ibptr g) k = (ibptr g + PIPELINE_LEN / 10 + k) mod PIPELINE_LEN ∧
     circular_scan (PIPELINE_LEN / 10) (ibptr g) !! Z.to_nat k =
       Some (scan_ptr (ibptr g) k)) ∧
  (∀ j, 0 ≤ j < PIPELINE_LEN →
     ∃ k, 0 ≤ k < PIPELINE_LEN ∧
          ∀ k', 0 ≤ k' < PIPELINE_LEN → scan_ptr (ibptr g) k' = j ↔ k' = k) ∧
  (∀ ptr, aget (unproc g) ptr = Some false → visit fs cfg ptr g = Some g) ∧
  (config_ok cfg → buffers_allocated cfg g → window_in_range cfg g →
   (∀ ptr, aget (unproc g) ptr = Some true →
      ∃ g', visit fs cfg ptr g = Some g' ∧
        unproc g' = <[Z.to_nat ptr := false]> (unproc g) ∧
        ∀ i, 0 ≤ i < 3 →
          ∃ inp, aget2 (inbuf g) ptr i = Some inp ∧
                 aget2 (ampspec g') i (aind g) =
                   Some (amplitude_bins (rfftw_one inp) (samplerate cfg))) ∧
   ∃ g', process fs cfg g = Some g' ∧
         ∀ j, 0 ≤ j < PIPELINE_LEN → aget (unproc g') j = Some false).
Proof.
  intros Hib.
  assert (Hq : Z.quot PIPELINE_LEN 10 = PIPELINE_LEN / 10) by done.
  split; [|split; [|split; [|split]]].
  - unfold process, for_loop, circular_scan.
    rewrite (process_from_visits fs cfg _ 0 g) by lia.
    rewrite Hq. do 3 f_equal.
  - intros k Hk. rewrite scan_ptr_mod, Hq by lia. split; [done|].
    by apply circular_scan_lookup.
  - intros j Hj.
    exists ((j - ibptr g - Z.quot PIPELINE_LEN 10) mod PIPELINE_LEN).
    split; [by apply Z.mod_pos_bound|]. intros k' Hk'.
    rewrite scan_ptr_mod by lia.
    pose proof (circle_position (ibptr g) k' j Hj Hk') as Hcp. split.
    + intros Hj'. symmetry. apply Hcp. by symmetry.
    + intros Hk''. symmetry. apply Hcp. by symmetry.
  - intros ptr Hflag. unfold visit. by rewrite Hflag.
  - intros Hc Hb Hw. split.
    + intros ptr Hflag. unfold visit. rewrite Hflag. cbn [mbind option_bind].
      assert (Hptr : 0 ≤ ptr < PIPELINE_LEN).
      { apply aget_Some_inv in Hflag as [Hptr _]. destruct Hb as [Hu _]. lia. }
      destruct (process_slot_spec fs cfg ptr g Hc Hb Hw Hptr)
        as (g' & evs & ? & _ & _ & _ & ? & _ & ? & _).
      by exists g'.
    + destruct (process_spec fs cfg g Hc Hb Hw Hib) as (g' & ? & _ & _ & _ & ?).
      by exists g'.
Qed.

(** * Further properties of the code *)

Local Open Scope Z_scope.

(** ** What the callback stores *)

Lemma aget3_intro {A : Type} (buf : list (list (list A))) (a b c : Z) (row : list A) :
  aget2 buf a b = Some row → aget3 buf a b c = aget row c.
Proof. intros H. unfold aget3. by rewrite H. Qed.

Lemma aset3_lookup {A : Type} (a b c : Z) (buf : list (list (list A))) (i j k : Z)
    (x : A) :
  rows2 a b buf → dims3 a b c buf → 0 ≤ i < a → 0 ≤ j < b → 0 ≤ k < c →
  ∃ buf', aset3 buf i j k x = Some buf' ∧ rows2 a b buf' ∧ dims3 a b c buf' ∧
    aget3 buf' i j k = Some x ∧
    (∀ i' j' k', (i', j', k') ≠ (i, j, k) → aget3 buf' i' j' k' = aget3 buf i' j' k').
Proof.
  intros Hr Hd Hi Hj Hk.
  destruct (dims3_aget2 a b c buf i j Hr Hd Hi Hj) as (row & Hrow & Hlen).
  unfold aset3. rewrite Hrow. cbn [mbind option_bind].
  rewrite aset_Some by lia. cbn [mbind option_bind].
  destruct (aset2_shape a b c buf i j (<[Z.to_nat k := x]> row) Hr Hd Hi Hj)
    as (buf' & -> & Hr' & Hd' & Hnew & Hold); [by rewrite length_insert|].
  exists buf'. split; [done|]. split; [done|]. split; [done|]. split.
  - rewrite (aget3_intro _ _ _ _ _ Hnew). apply aget_insert_eq. lia.
  - intros i' j' k' Hne. destruct (decide ((i', j') = (i, j))) as [Heq|Hne'].
    + injection Heq as -> ->. rewrite (aget3_intro _ _ _ _ _ Hnew).
      rewrite (aget3_intro _ _ _ _ _ Hrow). apply aget_insert_ne; [lia|]. congruence.
    + unfold aget3. by rewrite Hold.
Qed.

(** The loop over the axes writes the three cells at the cursors and no
    other cell. *)
Lemma store_loop (cfg : config) (d : acceleration) (g : globals) :
  buffers_allocated cfg g → cursors_in_range cfg g →
  ∃ buf,
    for_loop 0 3
      (fun i g =>
         v ← acceleration_at d i;
         buf ← aset3 (inbuf g) (ibptr g) i (rbufi g) v;
         Some (set_inbuf buf g))
      g = Some (set_inbuf buf g) ∧
    (∀ i, 0 ≤ i < 3 → aget3 buf (ibptr g) i (rbufi g) = Some (axis_of i d)) ∧
    (∀ s i n, (s, n) ≠ (ibptr g, rbufi g) → aget3 buf s i n = aget3 (inbuf g) s i n).
Proof.
  intros (Hu & Hir & Hid & Har & Had) [Hib Hrb].
  destruct (for_loop_inv
    (fun (m : Z) (g1 : globals) =>
       ∃ buf, g1 = set_inbuf buf g ∧
         rows2 PIPELINE_LEN 3 buf ∧ dims3 PIPELINE_LEN 3 (samplerate cfg) buf ∧
         (∀ i, 0 ≤ i < m → aget3 buf (ibptr g) i (rbufi g) = Some (axis_of i d)) ∧
         (∀ s i n, (s, n) ≠ (ibptr g, rbufi g) → aget3 buf s i n = aget3 (inbuf g) s i n))
    (fun i g =>
       v ← acceleration_at d i;
       buf ← aset3 (inbuf g) (ibptr g) i (rbufi g) v;
       Some (set_inbuf buf g))
    0 3 g) as (g1 & Hloop & buf & -> & _ & _ & Hnew & Hold); [lia| | |by eauto].
  - exists (inbuf g). split; [by destruct g|]. split; [done|]. split; [done|].
    split; [intros; lia|done].
  - intros m g1 Hm (buf & -> & Hr1 & Hd1 & Hnew & Hold).
    cbn [set_inbuf inbuf ibptr rbufi].
    destruct (acceleration_at_Some d m Hm) as [v Hv]. rewrite Hv.
    cbn [mbind option_bind].
    destruct (aset3_lookup PIPELINE_LEN 3 (samplerate cfg) buf (ibptr g) m (rbufi g) v)
      as (buf' & -> & Hr' & Hd' & Hthis & Hother); [done..|].
    cbn [mbind option_bind]. eexists. split; [done|].
    exists buf'. split; [done|]. split; [done|]. split; [done|]. split.
    + intros i Hi. destruct (decide (i = m)) as [->|Hne].
      * rewrite Hthis. unfold axis_of. by rewrite Hv.
      * rewrite Hother by congruence. apply Hnew. lia.
    + intros s i n Hne. rewrite Hother by congruence. by apply Hold.
Qed.

(** After the loop over the axes [handle_sample] leaves the slots alone. *)
Lemma handle_sample_inbuf (cfg : config) (d : acceleration) (g g' : globals)
    (buf : list (list (list R))) :
  for_loop 0 3
    (fun i g =>
       v ← acceleration_at d i;
       buf ← aset3 (inbuf g) (ibptr g) i (rbufi g) v;
       Some (set_inbuf buf g))
    g = Some (set_inbuf buf g) →
  handle_sample cfg d g = Some g' → inbuf g' = buf.
Proof.
  intros Hloop H. unfold handle_sample in H. rewrite Hloop in H.
  cbn [mbind option_bind] in H.
  destruct (decide (rbufi (set_rbufi (rbufi (set_inbuf buf g) + 1) (set_inbuf buf g))
                    = samplerate cfg)); [|by injection H as <-].
  destruct (aset _ _ true) as [flags|]; [|done]. cbn [mbind option_bind] in H.
  destruct (ibptr _ >=? PIPELINE_LEN);
    (destruct (aget _ _) as [[]|]; [| |done]; by injection H as <-).
Qed.

(** X1: [handle_sample] stores the three components of the sample in the
    cells [inbuf[ibptr][i][rbufi]] of the active slot and changes no other
    cell of the pipeline. *)
Theorem handle_sample_stores (cfg : config) (d : acceleration) (g : globals) :
  buffers_allocated cfg g → cursors_in_range cfg g →
  ∃ g', handle_sample cfg d g = Some g' ∧
    (∀ i, 0 ≤ i < 3 → aget3 (inbuf g') (ibptr g) i (rbufi g) = Some (axis_of i d)) ∧
    (∀ s i n, (s, n) ≠ (ibptr g, rbufi g) →
       aget3 (inbuf g') s i n = aget3 (inbuf g) s i n).
Proof.
  intros Hb Hc.
  destruct (handle_sample_cursors cfg d g Hb Hc) as (g' & Hg' & _).
  destruct (store_loop cfg d g Hb Hc) as (buf & Hloop & Hnew & Hold).
  exists g'. split; [done|].
  by rewrite (handle_sample_inbuf cfg d g g' buf Hloop Hg').
Qed.

(** Samples of one second, stored one after the other. *)
Lemma store_samples (cfg : config) (data : list acceleration) (g : globals) :
  buffers_allocated cfg g → cursors_in_range cfg g →
  rbufi g + Z.of_nat (length data) ≤ samplerate cfg →
  ∃ g', fold_opt (handle_sample cfg) data g = Some g' ∧
    (∀ i m d, 0 ≤ i < 3 → data !! m = Some d →
       aget3 (inbuf g') (ibptr g) i (rbufi g + Z.of_nat m) = Some (axis_of i d)) ∧
    (∀ s i n, ¬ (s = ibptr g ∧ rbufi g ≤ n < rbufi g + Z.of_nat (length data)) →
       aget3 (inbuf g') s i n = aget3 (inbuf g) s i n).
Proof.
  revert g. induction data as [|d data IH]; intros g Hb Hc Hlen.
  - exists g. split; [done|]. split; [|done]. intros i m d _ Hm. by destruct m.
  - cbn [length] in Hlen.
    destruct (handle_sample_cursors cfg d g Hb Hc)
      as (g1 & Hg1 & Hb1 & Hc1 & _ & _ & Hr1 & Hi1).
    destruct (store_loop cfg d g Hb Hc) as (buf & Hloop & Hnew & Hold).
    pose proof (handle_sample_inbuf cfg d g g1 buf Hloop Hg1) as Hbuf.
    cbn [fold_opt]. rewrite Hg1. cbn [mbind option_bind].
    destruct data as [|d' data].
    + exists g1. split; [done|]. rewrite Hbuf. split.
      * intros i m d0 Hi Hm. destruct m as [|[|m]]; [|done..].
        injection Hm as <-. rewrite Z.add_0_r. by apply Hnew.
      * intros s i n Hne. apply Hold. cbn [length] in Hne. intros [= -> ->]. lia.
    + cbn [length] in Hlen.
      rewrite decide_False in Hr1, Hi1 by lia.
      destruct (IH g1 Hb1 Hc1) as (g' & Hg' & Hnew' & Hold').
      { cbn [length]. lia. }
      exists g'. split; [done|]. rewrite Hi1, Hr1 in Hnew', Hold'. split.
      * intros i m d0 Hi Hm. destruct m as [|m].
        -- injection Hm as <-. rewrite Z.add_0_r.
           rewrite Hold' by lia. rewrite Hbuf. by apply Hnew.
        -- replace (rbufi g + Z.of_nat (S m)) with (rbufi g + 1 + Z.of_nat m) by lia.
           by apply Hnew'.
      * intros s i n Hne. rewrite Hold'.
        -- rewrite Hbuf. apply Hold. intros [= -> ->]. cbn [length] in Hne. lia.
        -- cbn [length] in *. lia.
Qed.

Lemma rows_eq (row row' : list R) :
  length row = length row' →
  (∀ n, 0 ≤ n < Z.of_nat (length row) → aget row n = aget row' n) → row = row'.
Proof.
  intros Hlen Hcells. apply list_eq. intros n.
  destruct (decide (n < length row)%nat) as [Hn|Hn].
  - specialize (Hcells (Z.of_nat n) ltac:(lia)). by rewrite !aget_nat in Hcells.
  - rewrite !lookup_ge_None_2; [done|lia..].
Qed.

(** A whole second of samples, stored in the slot they fill. *)
Lemma second_stored (cfg : config) (data : list acceleration) (g : globals) :
  buffers_allocated cfg g → cursors_in_range cfg g → rbufi g = 0 →
  Z.of_nat (length data) = samplerate cfg →
  ∃ g', fold_opt (handle_sample cfg) data g = Some g' ∧
    buffers_allocated cfg g' ∧
    (∀ i, 0 ≤ i < 3 → aget2 (inbuf g') (ibptr g) i = Some (axis_of i <$> data)) ∧
    (∀ s i, 0 ≤ s < PIPELINE_LEN → 0 ≤ i < 3 → s ≠ ibptr g →
       aget2 (inbuf g') s i = aget2 (inbuf g) s i) ∧
    unproc g' = <[Z.to_nat (ibptr g) := true]> (unproc g) ∧
    rbufi g' = 0 ∧ ibptr g' = (ibptr g + 1) mod PIPELINE_LEN ∧
    aind g' = aind g ∧ ampspec g' = ampspec g ∧
    trace g' = trace g ++
      (if aget (unproc g') (ibptr g') is Some true then [Realtime_error] else []).
Proof.
  intros Hb Hc Hr0 Hlen.
  destruct (fill_second cfg data g Hb Hc) as (g' & Hg' & Hb' & Ha' & Hs' & Hr' & Hu' & Hi' & Ht');
    [lia|].
  destruct (store_samples cfg data g Hb Hc) as (g'' & Hg'' & Hnew & Hold); [lia|].
  rewrite Hg' in Hg''. injection Hg'' as <-.
  exists g'. split; [done|]. split; [done|].
  pose proof Hb as (Hu & Hir & Hid & _). pose proof Hb' as (_ & Hir' & Hid' & _).
  destruct Hc as [Hib Hrb].
  split; [|split; [|done]].
  - intros i Hi.
    destruct (dims3_aget2 _ _ _ _ (ibptr g) i Hir' Hid' Hib Hi) as (row & Hrow & Hrl).
    rewrite Hrow. f_equal. apply rows_eq.
    + rewrite length_fmap. lia.
    + intros n Hn. rewrite <- (aget3_intro _ _ _ _ _ Hrow).
      destruct (lookup_lt_is_Some_2 data (Z.to_nat n)) as [d Hd]; [lia|].
      specialize (Hnew i (Z.to_nat n) d Hi Hd).
      rewrite Hr0, Z.add_0_l, Z2Nat.id in Hnew by lia. rewrite Hnew.
      rewrite aget_lookup by lia. by rewrite list_lookup_fmap, Hd.
  - intros s i Hs Hi Hne.
    destruct (dims3_aget2 _ _ _ _ s i Hir' Hid' Hs Hi) as (row' & Hrow' & Hrl').
    destruct (dims3_aget2 _ _ _ _ s i Hir Hid Hs Hi) as (row & Hrow & Hrl).
    rewrite Hrow', Hrow. f_equal. apply rows_eq; [lia|].
    intros n Hn. rewrite <- (aget3_intro _ _ _ _ _ Hrow'), <- (aget3_intro _ _ _ _ _ Hrow).
    apply Hold. tauto.
Qed.

(** X2: the samples of one whole second, delivered in whatever batches to a
    slot that is empty ([rbufi = 0]), end up in that slot in their order of
    arrival, axis by axis; the slot is marked ready, the write pointer moves
    on circularly, and no other slot changes. *)
Theorem completed_slot_contents (fs : sink_env) (cfg : config)
    (batches : list (list acceleration)) (g : globals) :
  buffers_allocated cfg g → cursors_in_range cfg g → rbufi g = 0 →
  Z.of_nat (length (concat batches)) = samplerate cfg →
  ∃ g', run fs cfg (Deliver <$> batches) g = Some g' ∧
    (∀ i, 0 ≤ i < 3 →
       aget2 (inbuf g') (ibptr g) i = Some (axis_of i <$> concat batches)) ∧
    (∀ s i, 0 ≤ s < PIPELINE_LEN → 0 ≤ i < 3 → s ≠ ibptr g →
       aget2 (inbuf g') s i = aget2 (inbuf g) s i) ∧
    aget (unproc g') (ibptr g) = Some true ∧
    rbufi g' = 0 ∧ ibptr g' = (ibptr g + 1) mod PIPELINE_LEN.
Proof.
  intros Hb Hc Hr0 Hlen. rewrite run_deliver.
  destruct (second_stored cfg (concat batches) g Hb Hc Hr0 Hlen)
    as (g' & Hg' & _ & Hslot & Hother & Hu & Hr & Hi & _).
  exists g'. split; [done|]. split; [done|]. split; [done|]. split; [|done].
  rewrite Hu. apply aget_insert_eq. destruct Hb as [-> _]. apply Hc.
Qed.

(** ** What one call of [process] accounts for *)

Lemma ready_insert (u : list bool) (n : nat) (b b' : bool) :
  u !! n = Some b →
  Z.of_nat (length (filter (fun x : bool => x = true) (<[n := b']> u))) =
  Z.of_nat (length (filter (fun x : bool => x = true) u))
    - (if b then 1 else 0) + (if b' then 1 else 0).
Proof.
  revert n. induction u as [|x u IH]; intros n Hn; [done|].
  destruct n as [|n].
  - injection Hn as ->. change (<[O := b']> (b :: u)) with (b' :: u).
    rewrite !filter_cons.
    destruct b, b'; repeat case_decide; cbn [length]; try done; lia.
  - change (<[S n := b']> (x :: u)) with (x :: <[n := b']> u).
    rewrite !filter_cons. specialize (IH n Hn).
    case_decide; cbn [length]; lia.
Qed.

Lemma ready_none (u : list bool) :
  (∀ j, 0 ≤ j < Z.of_nat (length u) → aget u j = Some false) →
  length (filter (fun x : bool => x = true) u) = O.
Proof.
  intros Hall.
  assert (Hf : Forall (fun x => x = false) u).
  { apply Forall_lookup. intros i x Hi.
    pose proof (lookup_lt_Some _ _ _ Hi).
    specialize (Hall (Z.of_nat i) ltac:(lia)). rewrite aget_nat in Hall. congruence. }
  clear Hall. induction Hf as [|x u -> _ IH]; [done|].
  rewrite filter_cons. by rewrite decide_False.
Qed.

Lemma emission_axis_not_overrun (e : event) (dim : Z) :
  emission_axis e = Some dim → is_realtime_error e = false.
Proof. by destruct e. Qed.

Lemma emissions_app (tr evs : list event) (axes : list (option Z)) :
  emission_axis <$> evs = axes → Forall is_Some axes →
  length (filter (fun e => is_realtime_error e = false) (tr ++ evs)) =
    (length (filter (fun e => is_realtime_error e = false) tr) + length axes)%nat ∧
  length (filter (fun e => is_realtime_error e = true) (tr ++ evs)) =
    length (filter (fun e => is_realtime_error e = true) tr).
Proof.
  intros <- Hall. rewrite !filter_app, !length_app, length_fmap.
  assert (Hevs : Forall (fun e => is_realtime_error e = false) evs).
  { rewrite Forall_fmap in Hall. eapply Forall_impl; [exact Hall|].
    intros e [dim He]. by apply (emission_axis_not_overrun e dim). }
  clear Hall. induction Hevs as [|e evs He _ [IH1 IH2]]; [cbn; lia|].
  rewrite !filter_cons. rewrite decide_True by done.
  rewrite decide_False by congruence. cbn [length]. lia.
Qed.

Lemma wrap_step (x W : Z) :
  0 ≤ x → 0 < W →
  (x + 1) mod W = (if decide (x mod W + 1 = W) then 0 else x mod W + 1) ∧
  (x + 1) / W = x / W + (if decide (x mod W + 1 = W) then 1 else 0).
Proof.
  intros Hx HW.
  pose proof (Z.div_mod x W ltac:(lia)) as Hdm.
  pose proof (Z.mod_pos_bound x W HW) as Hm.
  case_decide as Hw.
  - assert (x + 1 = W * (x / W + 1) + 0) as Heq by lia. split.
    + symmetry. apply (Z.mod_unique_pos _ _ (x / W + 1)); lia.
    + symmetry. apply (Z.div_unique_pos _ _ _ 0); lia.
  - assert (x + 1 = W * (x / W) + (x mod W + 1)) as Heq by lia. split.
    + symmetry. apply (Z.mod_unique_pos _ _ (x / W)); lia.
    + rewrite Z.add_0_r. symmetry. apply (Z.div_unique_pos _ _ _ (x mod W + 1)); lia.
Qed.

(** One call of [process], slot by slot: the fill index has moved by the
    number of flags cleared, and every full window has been emitted. *)
Lemma process_account (fs : sink_env) (cfg : config) (g : globals) :
  config_ok cfg → buffers_allocated cfg g → window_in_range cfg g →
  0 ≤ ibptr g < PIPELINE_LEN →
  ∃ g', process fs cfg g = Some g' ∧
    Z.of_nat (ready_slots g') ≤ Z.of_nat (ready_slots g) ∧
    overruns g' = overruns g ∧
    aind g' = (aind g + (Z.of_nat (ready_slots g) - Z.of_nat (ready_slots g')))
                mod avg_int_in_sec cfg ∧
    Z.of_nat (emissions g') =
      Z.of_nat (emissions g)
      + 3 * ((aind g + (Z.of_nat (ready_slots g) - Z.of_nat (ready_slots g')))
               / avg_int_in_sec cfg).
Proof.
  intros Hc Hb Hw Hib. pose proof Hc as (HR & HW & _). unfold process.
  destruct (for_loop_inv
    (fun (n : Z) (g1 : globals) =>
       buffers_allocated cfg g1 ∧ window_in_range cfg g1 ∧ ibptr g1 = ibptr g ∧
       Z.of_nat (ready_slots g1) ≤ Z.of_nat (ready_slots g) ∧
       overruns g1 = overruns g ∧
       aind g1 = (aind g + (Z.of_nat (ready_slots g) - Z.of_nat (ready_slots g1)))
                   mod avg_int_in_sec cfg ∧
       Z.of_nat (emissions g1) =
         Z.of_nat (emissions g)
         + 3 * ((aind g + (Z.of_nat (ready_slots g) - Z.of_nat (ready_slots g1)))
                  / avg_int_in_sec cfg))
    (process_iter fs cfg) 0 PIPELINE_LEN g) as (g' & Hrun & _ & _ & _ & H);
    [done| | |by exists g'].
  - split; [done|]. split; [done|]. split; [done|]. split; [lia|]. split; [done|].
    rewrite Z.sub_diag, Z.add_0_r. destruct Hw.
    rewrite Z.mod_small, Z.div_small by lia. split; [done|lia].
  - intros n g1 Hn (Hb1 & Hw1 & Hi1 & Hle & Hov & Ha & He).
    unfold process_iter. rewrite Hi1.
    pose proof (scan_ptr_range (ibptr g) n ltac:(lia) ltac:(lia)) as Hptr.
    set (ptr := scan_ptr (ibptr g) n) in *.
    destruct (aget_is_Some (unproc g1) ptr) as [flag Hflag].
    { destruct Hb1 as [-> _]. done. }
    rewrite Hflag. cbn [mbind option_bind]. destruct flag; [|by eexists].
    destruct (process_slot_spec fs cfg ptr g1 Hc Hb1 Hw1 Hptr)
      as (g2 & evs & -> & Hb2 & Hw2 & (_ & Hi2 & _) & Hu2 & Ha2 & _ & Ht2 & Hax & _).
    eexists. split; [done|]. split; [done|]. split; [done|]. split; [congruence|].
    assert (Hready : Z.of_nat (ready_slots g2) = Z.of_nat (ready_slots g1) - 1).
    { unfold ready_slots. rewrite Hu2.
      rewrite (ready_insert (unproc g1) (Z.to_nat ptr) true false).
      - lia.
      - rewrite <- aget_lookup by lia. done. }
    set (x := aind g + (Z.of_nat (ready_slots g) - Z.of_nat (ready_slots g1))) in *.
    replace (aind g + (Z.of_nat (ready_slots g) - Z.of_nat (ready_slots g2)))
      with (x + 1) by lia.
    assert (Hx : 0 ≤ x) by (destruct Hw; lia).
    destruct (wrap_step x (avg_int_in_sec cfg) Hx HW) as [Hmod Hdiv].
    rewrite Hmod, Hdiv, <- Ha.
    destruct (emissions_app (trace g1) evs _ Hax) as [Hem Hovr].
    { destruct (decide (aind g1 + 1 = avg_int_in_sec cfg));
        repeat first [apply List.Forall_nil | apply List.Forall_cons; [by eexists|]]. }
    unfold emissions, overruns in *. rewrite Ht2, Hem, Hovr.
    split; [lia|]. split; [done|]. split; [done|].
    case_decide; cbn [length]; lia.
Qed.

(** X3: on a well-formed state one call of [process] returns, clears every
    ready flag, moves the fill index by the number of slots that were
    ready, modulo the window length, calls [output_csv] three times for
    every window completed on the way, reports no overrun, and leaves the
    producer's cursors and slots as they were. *)
Theorem process_accounting (fs : sink_env) (cfg : config) (g : globals) :
  config_ok cfg → buffers_allocated cfg g → window_in_range cfg g →
  0 ≤ ibptr g < PIPELINE_LEN →
  ∃ g', process fs cfg g = Some g' ∧
    ready_slots g' = O ∧
    aind g' = (aind g + Z.of_nat (ready_slots g)) mod avg_int_in_sec cfg ∧
    Z.of_nat (emissions g') =
      Z.of_nat (emissions g)
      + 3 * ((aind g + Z.of_nat (ready_slots g)) / avg_int_in_sec cfg) ∧
    overruns g' = overruns g ∧
    same_producer g g'.
Proof.
  intros Hc Hb Hw Hib.
  destruct (process_account fs cfg g Hc Hb Hw Hib) as (g' & Hg' & _ & Hov & Ha & He).
  destruct (process_spec fs cfg g Hc Hb Hw Hib) as (g'' & Hg'' & Hb' & _ & Hs & Hclear).
  rewrite Hg' in Hg''. injection Hg'' as <-.
  assert (Hr : ready_slots g' = O).
  { apply ready_none. destruct Hb' as [-> _]. done. }
  rewrite Hr in Ha, He. rewrite Z.sub_0_r in Ha, He.
  by exists g'.
Qed.

(** ** Keeping pace *)

Lemma ahead_second (cfg : config) (p : Z) (k : nat) (data : list acceleration)
    (g : globals) :
  0 ≤ p < PIPELINE_LEN → Z.of_nat k + 1 < PIPELINE_LEN →
  ahead_by cfg p k g →
  0 < samplerate cfg → Z.of_nat (length data) = samplerate cfg →
  ∃ g', fold_opt (handle_sample cfg) data g = Some g' ∧
    ahead_by cfg p (S k) g' ∧
    trace g' = trace g ∧ aind g' = aind g ∧ ampspec g' = ampspec g.
Proof.
  intros Hp Hk (Hb & Hr & Hi & Hf & Hn) HR Hlen.
  assert (Hib : 0 ≤ ibptr g < PIPELINE_LEN).
  { rewrite Hi. by apply Z.mod_pos_bound. }
  destruct (fill_second cfg data g Hb) as (g' & Hg' & Hb' & Ha' & Hs' & Hr' & Hu' & Hi' & Ht');
    [by split; [|lia]|lia|].
  pose proof Hb as [Hul _].
  assert (Hi'' : ibptr g' = (p + Z.of_nat (S k)) mod PIPELINE_LEN).
  { rewrite Hi', Hi. unfold PIPELINE_LEN in *. Z.div_mod_to_equations. lia. }
  assert (Hf' : ∀ j, 0 ≤ j < PIPELINE_LEN →
     aget (unproc g') j = Some (bool_decide ((j - p) mod PIPELINE_LEN < Z.of_nat (S k)))).
  { intros j Hj. rewrite Hu'. destruct (decide (j = ibptr g)) as [->|Hne].
    - rewrite aget_insert_eq by lia. f_equal. symmetry. apply bool_decide_eq_true_2.
      rewrite Hi. unfold PIPELINE_LEN in *. Z.div_mod_to_equations. lia.
    - rewrite aget_insert_ne by lia. rewrite Hf by done. f_equal.
      apply bool_decide_ext. rewrite Hi in Hne.
      unfold PIPELINE_LEN in *. Z.div_mod_to_equations. lia. }
  exists g'. split; [done|]. split; [|split; [|done]].
  - split; [done|]. split; [done|]. split; [done|]. split; [done|].
    unfold ready_slots in *. rewrite Hu'.
    apply Nat2Z.inj.
    rewrite (ready_insert (unproc g) (Z.to_nat (ibptr g)) false true).
    + lia.
    + rewrite <- aget_lookup by lia. rewrite Hf by done. f_equal.
      apply bool_decide_eq_false_2. rewrite Hi.
      unfold PIPELINE_LEN in *. Z.div_mod_to_equations. lia.
  - rewrite Ht'. rewrite Hf' by (rewrite Hi''; by apply Z.mod_pos_bound).
    rewrite bool_decide_eq_false_2; [by rewrite app_nil_r|].
    rewrite Hi''. unfold PIPELINE_LEN in *. Z.div_mod_to_equations. lia.
Qed.

Lemma ahead_seconds (cfg : config) (p : Z) (m k : nat) (data : list acceleration)
    (g : globals) :
  0 ≤ p < PIPELINE_LEN → Z.of_nat k + Z.of_nat m < PIPELINE_LEN →
  ahead_by cfg p k g →
  0 < samplerate cfg → Z.of_nat (length data) = samplerate cfg * Z.of_nat m →
  ∃ g', fold_opt (handle_sample cfg) data g = Some g' ∧
    ahead_by cfg p (k + m) g' ∧
    trace g' = trace g ∧ aind g' = aind g ∧ ampspec g' = ampspec g.
Proof.
  revert k data g. induction m as [|m IH]; intros k data g Hp Hk Hg HR Hlen.
  - assert (data = []) as -> by (apply length_zero_iff_nil; lia).
    exists g. by rewrite Nat.add_0_r.
  - rewrite <- (take_drop (Z.to_nat (samplerate cfg)) data), fold_opt_app.
    destruct (ahead_second cfg p k (take (Z.to_nat (samplerate cfg)) data) g)
      as (g1 & -> & Hg1 & Ht1 & Ha1 & Hs1); [done|lia|done|done| |].
    { rewrite length_take. nia. }
    cbn [mbind option_bind].
    destruct (IH (S k) (drop (Z.to_nat (samplerate cfg)) data) g1)
      as (g' & -> & Hg' & Ht' & Ha' & Hs'); [done|lia|done|done| |].
    { rewrite length_drop. nia. }
    exists g'. replace (k + S m)%nat with (S k + m)%nat by lia.
    split; [done|]. split; [done|]. split; [|split]; congruence.
Qed.

Lemma drained_ahead (cfg : config) (g : globals) :
  drained cfg g → ahead_by cfg (ibptr g) 0 g.
Proof.
  intros (Hb & [Hi _] & _ & Hr & Hf).
  split; [done|]. split; [done|]. split; [|split].
  - rewrite Z.add_0_r. symmetry. by apply Z.mod_small.
  - intros j Hj. rewrite Hf by done. f_equal. symmetry.
    apply bool_decide_eq_false_2.
    pose proof (Z.mod_pos_bound (j - ibptr g) PIPELINE_LEN). unfold PIPELINE_LEN in *. lia.
  - unfold ready_slots. apply ready_none. destruct Hb as [-> _]. done.
Qed.

(** One round from a drained state. *)
Lemma drained_round (fs : sink_env) (cfg : config) (batches : list (list acceleration))
    (m : nat) (g : globals) :
  config_ok cfg → drained cfg g → round_of cfg batches m →
  ∃ g', run fs cfg (round batches) g = Some g' ∧ drained cfg g' ∧
    overruns g' = overruns g ∧
    aind g' = (aind g + Z.of_nat m) mod avg_int_in_sec cfg ∧
    Z.of_nat (emissions g') =
      Z.of_nat (emissions g) + 3 * ((aind g + Z.of_nat m) / avg_int_in_sec cfg) ∧
    ibptr g' = (ibptr g + Z.of_nat m) mod PIPELINE_LEN.
Proof.
  intros Hc Hd [Hm Hlen]. pose proof Hc as (HR & HW & _).
  pose proof Hd as (_ & [Hib _] & Hw & _).
  unfold round. rewrite run_app, run_deliver.
  destruct (ahead_seconds cfg (ibptr g) m 0 (concat batches) g)
    as (g1 & -> & (Hb1 & Hr1 & Hi1 & _ & Hn1) & Ht1 & Ha1 & Hs1);
    [done|lia|by apply drained_ahead|done..|].
  cbn [mbind option_bind run run_action].
  assert (Hib1 : 0 ≤ ibptr g1 < PIPELINE_LEN).
  { rewrite Hi1. by apply Z.mod_pos_bound. }
  assert (Hw1 : window_in_range cfg g1) by (unfold window_in_range; by rewrite Ha1).
  destruct (process_account fs cfg g1 Hc Hb1 Hw1 Hib1) as (g' & Hg' & _ & Hov & Ha & He).
  destruct (process_spec fs cfg g1 Hc Hb1 Hw1 Hib1)
    as (g'' & Hg'' & Hb' & Hw' & (Hr' & Hi' & _) & Hclear).
  rewrite Hg' in Hg''. injection Hg'' as <-. rewrite Hg'. cbn [mbind option_bind].
  assert (Hz : ready_slots g' = O).
  { apply ready_none. destruct Hb' as [-> _]. done. }
  rewrite Hz, Hn1, Ha1 in Ha, He. cbn [Nat.add] in Ha, He.
  rewrite Z.sub_0_r in Ha, He.
  exists g'. split; [done|]. split; [|split; [|split; [done|split]]].
  - split; [done|]. split; [|split; [done|split; [congruence|done]]].
    unfold cursors_in_range. rewrite Hi', Hr', Hr1. split; [done|lia].
  - rewrite Hov. unfold overruns. by rewrite Ht1.
  - rewrite He. unfold emissions. by rewrite Ht1.
  - by rewrite Hi', Hi1.
Qed.

Lemma boot_drained (cfg : config) (g0 : globals) :
  0 < samplerate cfg → 0 < avg_int_in_sec cfg →
  alloc_spec_buffers cfg initial_globals = Some g0 →
  drained cfg g0 ∧ overruns g0 = O ∧ emissions g0 = O.
Proof.
  intros HR HW H. destruct (boot_state cfg g0 H) as (Hb & Hr & Hi & Ha & Ht & Hu).
  unfold drained, cursors_in_range, window_in_range, overruns, emissions.
  rewrite Hr, Hi, Ha, Ht, Hu. split; [|done].
  split; [done|]. split; [done|]. split; [lia|]. split; [done|].
  intros j Hj. by apply aget_replicate.
Qed.

Lemma div_mod_accumulate (n m W : Z) :
  0 ≤ n → 0 ≤ m → 0 < W →
  (n mod W + m) mod W = (n + m) mod W ∧
  n / W + (n mod W + m) / W = (n + m) / W.
Proof.
  intros Hn Hm HW. pose proof (Z.div_mod n W ltac:(lia)) as Hdm.
  split.
  - by rewrite Zplus_mod_idemp_l.
  - rewrite Hdm at 3. rewrite <- Z.add_assoc, Z.mul_comm, Z.div_add_l by lia. done.
Qed.

Lemma paced_rounds (fs : sink_env) (cfg : config)
    (rounds : list (list (list acceleration))) (ms : list nat) (g : globals) (n : Z) :
  config_ok cfg → Forall2 (round_of cfg) rounds ms →
  drained cfg g → 0 ≤ n →
  aind g = n mod avg_int_in_sec cfg →
  Z.of_nat (emissions g) = 3 * (n / avg_int_in_sec cfg) →
  ∃ g', run fs cfg (rounds ≫= round) g = Some g' ∧ drained cfg g' ∧
    overruns g' = overruns g ∧
    aind g' = (n + Z.of_nat (sum_list ms)) mod avg_int_in_sec cfg ∧
    Z.of_nat (emissions g') = 3 * ((n + Z.of_nat (sum_list ms)) / avg_int_in_sec cfg).
Proof.
  intros Hc Hall. revert g n.
  induction Hall as [|batches m rounds ms Hround _ IH]; intros g n Hd Hn Ha He.
  - exists g. change (sum_list []) with O. by rewrite Z.add_0_r.
  - pose proof Hc as (_ & HW & _).
    cbn [mbind list_bind]. rewrite run_app.
    destruct (drained_round fs cfg batches m g Hc Hd Hround)
      as (g1 & -> & Hd1 & Hov1 & Ha1 & He1 & _).
    cbn [mbind option_bind].
    destruct (div_mod_accumulate n (Z.of_nat m) (avg_int_in_sec cfg)) as [Hmod Hdiv];
      [lia..|].
    destruct (IH g1 (n + Z.of_nat m)) as (g' & -> & Hd' & Hov' & Ha' & He'); [done|lia| | |].
    + by rewrite Ha1, Ha.
    + rewrite He1, He, Ha. lia.
    + exists g'. change (sum_list (m :: ms)) with (m + sum_list ms)%nat.
      replace (n + Z.of_nat (m + sum_list ms)) with (n + Z.of_nat m + Z.of_nat (sum_list ms))
        by lia.
      split; [done|]. split; [done|]. split; [congruence|done].
Qed.


(** ** The steady state: one ready slot per call of [process] *)

Lemma visit_idle (fs : sink_env) (cfg : config) (x : Z) (g : globals) :
  aget (unproc g) x = Some false → visit fs cfg x g = Some g.
Proof. intros H. unfold visit. by rewrite H. Qed.

Lemma visit_ready (fs : sink_env) (cfg : config) (x : Z) (g : globals) :
  aget (unproc g) x = Some true → visit fs cfg x g = process_slot fs cfg x g.
Proof. intros H. unfold visit. by rewrite H. Qed.

Lemma fold_idle (fs : sink_env) (cfg : config) (l : list Z) (g : globals) :
  (∀ x, x ∈ l → aget (unproc g) x = Some false) →
  fold_opt (visit fs cfg) l g = Some g.
Proof.
  induction l as [|x l IH]; intros Hidle; [done|].
  cbn [fold_opt]. rewrite visit_idle by (apply Hidle; constructor).
  cbn [mbind option_bind]. apply IH. intros y Hy. apply Hidle. by constructor.
Qed.

(** With one flag set, [process] does what [process_slot] does with that
    slot. *)
Lemma process_single (fs : sink_env) (cfg : config) (p : Z) (g : globals) :
  config_ok cfg → buffers_allocated cfg g → window_in_range cfg g →
  0 ≤ ibptr g < PIPELINE_LEN → 0 ≤ p < PIPELINE_LEN →
  aget (unproc g) p = Some true →
  (∀ j, 0 ≤ j < PIPELINE_LEN → j ≠ p → aget (unproc g) j = Some false) →
  process fs cfg g = process_slot fs cfg p g.
Proof.
  intros Hc Hb Hw Hib Hp Hset Hclear.
  unfold process, for_loop. rewrite (process_from_visits fs cfg _ 0 g) by lia.
  change (Z.of_nat (Z.to_nat (PIPELINE_LEN - 0))) with PIPELINE_LEN.
  set (f := fun k => (ibptr g + Z.quot PIPELINE_LEN 10 + k) mod PIPELINE_LEN).
  set (k0 := (p - ibptr g - Z.quot PIPELINE_LEN 10) mod PIPELINE_LEN).
  assert (Hk0 : 0 ≤ k0 < PIPELINE_LEN) by (by apply Z.mod_pos_bound).
  assert (Hat : ∀ k, 0 ≤ k < PIPELINE_LEN → f k = p ↔ k = k0).
  { intros k Hk. pose proof (circle_position (ibptr g) k p Hp Hk) as Hcp.
    unfold f, k0. split; intros; symmetry; apply Hcp; by symmetry. }
  assert (Hrange : ∀ k, 0 ≤ f k < PIPELINE_LEN) by (intros; by apply Z.mod_pos_bound).
  replace PIPELINE_LEN with (k0 + (1 + (PIPELINE_LEN - k0 - 1))) at 1 by lia.
  rewrite seqZ_app, (seqZ_app _ 1) by lia. rewrite !fmap_app, !fold_opt_app.
  rewrite fold_idle.
  2:{ intros x Hx. apply list_elem_of_fmap in Hx as (k & -> & Hk).
      apply elem_of_seqZ in Hk. apply Hclear; [done|]. intros Heq.
      apply Hat in Heq; lia. }
  cbn [mbind option_bind]. change (seqZ (0 + k0) 1) with [0 + k0].
  cbn [fmap list_fmap]. rewrite Z.add_0_l, fold_opt_app. cbn [fold_opt].
  assert (Hf0 : f k0 = p) by (by apply Hat).
  rewrite Hf0. rewrite visit_ready by done.
  destruct (process_slot_spec fs cfg p g Hc Hb Hw Hp)
    as (g' & evs & Hg' & _ & _ & _ & Hu' & _).
  rewrite Hg'. cbn [mbind option_bind]. apply fold_idle.
  intros x Hx. apply list_elem_of_fmap in Hx as (k & -> & Hk).
  apply elem_of_seqZ in Hk. rewrite Hu'. destruct (decide (f k = p)) as [Heq|Hne].
  - apply Hat in Heq; lia.
  - rewrite aget_insert_ne by lia. by apply Hclear.
Qed.

(** X5: in the steady state, where [process] runs after every second, the
    second just delivered is the one whose spectra [process] computes: for
    each axis the window position at the fill index receives the amplitude
    spectrum of that second's samples of the axis, in their order of
    arrival; afterwards no slot is ready, the fill index has moved on by
    one modulo the window length, and no overrun has been reported. *)
Theorem steady_state_spectrum (fs : sink_env) (cfg : config)
    (batches : list (list acceleration)) (g : globals) :
  config_ok cfg → drained cfg g →
  Z.of_nat (length (concat batches)) = samplerate cfg →
  ∃ g', run fs cfg (round batches) g = Some g' ∧
    (∀ i, 0 ≤ i < 3 →
       aget2 (ampspec g') i (aind g) =
         Some (amplitude_bins (rfftw_one (axis_of i <$> concat batches))
                 (samplerate cfg))) ∧
    drained cfg g' ∧
    aind g' = (if decide (aind g + 1 = avg_int_in_sec cfg) then 0 else aind g + 1) ∧
    overruns g' = overruns g.
Proof.
  intros Hc (Hb & Hcu & Hw & Hr0 & Hclear) Hlen. pose proof Hcu as [Hib _].
  unfold round. rewrite run_app, run_deliver.
  destruct (second_stored cfg (concat batches) g Hb Hcu Hr0 Hlen)
    as (g1 & -> & Hb1 & Hslot & _ & Hu1 & Hr1 & Hi1 & Ha1 & Hs1 & Ht1).
  cbn [mbind option_bind run run_action].
  pose proof Hb as [Hul _].
  assert (Hib1 : 0 ≤ ibptr g1 < PIPELINE_LEN).
  { rewrite Hi1. by apply Z.mod_pos_bound. }
  assert (Hw1 : window_in_range cfg g1) by (unfold window_in_range; by rewrite Ha1).
  assert (Hset : aget (unproc g1) (ibptr g) = Some true).
  { rewrite Hu1. apply aget_insert_eq. lia. }
  assert (Hclear1 : ∀ j, 0 ≤ j < PIPELINE_LEN → j ≠ ibptr g →
            aget (unproc g1) j = Some false).
  { intros j Hj Hne. rewrite Hu1, aget_insert_ne by lia. by apply Hclear. }
  assert (Hquiet : trace g1 = trace g).
  { rewrite Ht1, Hclear1; [by rewrite app_nil_r|done|].
    rewrite Hi1. unfold PIPELINE_LEN in *. Z.div_mod_to_equations. lia. }
  rewrite (process_single fs cfg (ibptr g) g1) by done.
  destruct (process_slot_spec fs cfg (ibptr g) g1 Hc Hb1 Hw1 Hib)
    as (g' & evs & -> & Hb' & Hw' & (Hr' & Hi' & _) & Hu' & Ha' & Hbins & Ht' & Hax & _).
  cbn [mbind option_bind]. exists g'. split; [done|].
  split; [|split; [|split]].
  - intros i Hi. destruct (Hbins i Hi) as (inp & Hinp & Hspec).
    rewrite Hslot in Hinp by done. injection Hinp as <-. by rewrite <- Ha1.
  - split; [done|]. split; [|split; [done|split; [congruence|]]].
    + unfold cursors_in_range. rewrite Hi', Hr', Hr1. split; [done|].
      destruct Hc. lia.
    + intros j Hj. rewrite Hu'. destruct (decide (j = ibptr g)) as [->|Hne].
      * apply aget_insert_eq. destruct Hb1 as [-> _]. done.
      * rewrite aget_insert_ne by lia. by apply Hclear1.
  - by rewrite Ha', Ha1.
  - destruct (emissions_app (trace g1) evs _ Hax) as [_ Hov].
    { destruct (decide (aind g1 + 1 = avg_int_in_sec cfg));
        repeat first [apply List.Forall_nil | apply List.Forall_cons; [by eexists|]]. }
    unfold overruns. by rewrite Ht', Hov, Hquiet.
Qed.

(** ** Bounds of the scan, the rows and the spectrum *)

(** X6: whatever the write pointer and the iteration, the slot index that
    the wrap loop of [process] produces is below [PIPELINE_LEN], so the
    reset [if (ptr >= PIPELINE_LEN) ptr = 0] never fires; it is the
    remainder modulo [PIPELINE_LEN] when [ibptr + k + PIPELINE_LEN / 10] is
    not negative; a negative value is left as it is, and the iteration then
    reads [unproc] out of bounds. *)
Theorem scan_ptr_bounded (fs : sink_env) (cfg : config) (k : Z) (g : globals) :
  let ptr := ibptr g + k + PIPELINE_LEN / 10 in
  scan_ptr (ibptr g) k < PIPELINE_LEN ∧
  (0 ≤ ptr → scan_ptr (ibptr g) k = ptr mod PIPELINE_LEN) ∧
  (ptr < 0 → scan_ptr (ibptr g) k = ptr ∧ process_iter fs cfg k g = None).
Proof.
  intros ptr. assert (Hq : Z.quot PIPELINE_LEN 10 = PIPELINE_LEN / 10) by done.
  assert (Hnonneg : 0 ≤ ptr → scan_ptr (ibptr g) k = ptr mod PIPELINE_LEN).
  { intros Hp. unfold scan_ptr. rewrite Hq. fold ptr. apply wrap_ptr_mod; [done|].
    rewrite Z2Nat.id by done. unfold PIPELINE_LEN.
    apply Z.div_le_upper_bound; lia. }
  assert (Hneg : ptr < 0 → scan_ptr (ibptr g) k = ptr).
  { intros Hp. unfold scan_ptr. rewrite Hq. fold ptr.
    by replace (Z.to_nat ptr) with O by lia. }
  split; [|split; [done|]].
  - destruct (Z.le_gt_cases 0 ptr) as [Hp|Hp].
    + rewrite Hnonneg by done. by apply Z.mod_pos_bound.
    + rewrite Hneg by lia. unfold PIPELINE_LEN. lia.
  - intros Hp. split; [by apply Hneg|].
    unfold process_iter. rewrite Hneg by done.
    rewrite aget_None by lia. done.
Qed.

Lemma for_each_snoc {T : Type} (lo hi : Z) (body : Z → T → T) (s : T) :
  lo ≤ hi → for_each lo (hi + 1) body s = body hi (for_each lo hi body s).
Proof.
  intros Hle. unfold for_each.
  replace (hi + 1 - lo) with ((hi - lo) + 1) by lia.
  rewrite seqZ_app by lia. rewrite foldl_app.
  replace (lo + (hi - lo)) with hi by lia.
  unfold seqZ at 2. cbn. f_equal; lia.
Qed.

Lemma csv_header_columns (cfg : config) :
  csv_header cfg = Timestamp_col :: (Hz_col <$> seqZ 0 (maxfreq cfg + 1)).
Proof.
  unfold csv_header. destruct (Z.le_gt_cases (maxfreq cfg + 1) 0) as [Hneg|Hpos].
  - unfold for_each, seqZ.
    replace (Z.to_nat (maxfreq cfg + 1 - 0)) with O by lia.
    by replace (Z.to_nat (maxfreq cfg + 1)) with O by lia.
  - assert (Hgen : ∀ n : nat,
      for_each 0 (Z.of_nat n) (fun i cols => cols ++ [Hz_col i]) [Timestamp_col] =
      Timestamp_col :: (Hz_col <$> seqZ 0 (Z.of_nat n))).
    { induction n as [|n IH]; [done|].
      rewrite Nat2Z.inj_succ. unfold Z.succ. rewrite for_each_snoc, IH by lia.
      rewrite seqZ_app by lia. rewrite fmap_app. cbn. by rewrite Z.add_0_l. }
    specialize (Hgen (Z.to_nat (maxfreq cfg + 1))). by rewrite Z2Nat.id in Hgen by lia.
Qed.

Lemma row_values_length (cfg : config) (g : globals) (dim : Z) :
  length (row_values cfg g dim) = Z.to_nat (maxfreq cfg + 1).
Proof. unfold row_values. by rewrite length_fmap, length_seqZ. Qed.

(** X7: [csv_prepare] writes a header exactly when [fopen (name, "r")]
    gives no stream and the [fopen] that follows succeeds; the file is then
    opened in mode ["w"], so that a file that is there but cannot be
    opened for reading is truncated and given a header.  A file that can be
    opened for reading is opened in mode ["a"] and gets no header.  The
    header names the time stamp and the frequencies 0 to [maxfreq], in
    this order, and on a valid configuration with the buffers allocated an
    [output_csv] whose files open and whose writes succeed returns [TRUE]
    and writes a row with one value for each of these frequencies, the
    value of [csv_value] for it. *)
Theorem csv_header_matches_row (fs : sink_env) (cfg : config) (dim : Z) (g : globals)
    (fopen_read fopen_ok : bool) :
  config_ok cfg → buffers_allocated cfg g → 0 ≤ dim < 3 →
  fopen_create (fs (trace g) dim) = true →
  fopen_append (fs (trace g) dim) = true →
  fprintf_ok (fs (trace g) dim) = true →
  let header := Timestamp_col :: (Hz_col <$> seqZ 0 (maxfreq cfg + 1)) in
  csv_prepare cfg fopen_read fopen_ok =
    (fopen_ok,
     if fopen_read then Mode_a else Mode_w,
     if fopen_ok && negb fopen_read then Some header else None) ∧
  ∃ vals,
    output_csv fs cfg dim g = Some (true, emit_event (Csv_row dim vals) g) ∧
    S (length vals) = length header ∧
    ∀ k, 0 ≤ k ≤ maxfreq cfg →
      aget header (k + 1) = Some (Hz_col k) ∧
      ∃ v, csv_value cfg g dim k = Some v ∧ aget vals k = Some v.
Proof.
  intros Hc Hb Hdim H1 H2 H3 header. split.
  - unfold csv_prepare, does_file_exist. rewrite csv_header_columns.
    by destruct fopen_ok, fopen_read.
  - exists (row_values cfg g dim). split.
    + rewrite output_csv_spec by done. unfold emission_result, emission.
      by rewrite H1, H2, H3.
    + unfold header. cbn [length].
      rewrite row_values_length, length_fmap, length_seqZ. split; [done|].
      intros k Hk. destruct Hc as (? & ? & ? & ?). split.
      * rewrite aget_lookup by lia.
        replace (Z.to_nat (k + 1)) with (S (Z.to_nat k)) by lia.
        rewrite <- lookup_tail. cbn [tail].
        rewrite list_lookup_fmap, lookup_seqZ_lt by lia. cbn. do 2 f_equal. lia.
      * exists (row_value cfg g dim k). split.
        -- apply csv_value_row; [done|done|done|lia].
        -- rewrite aget_lookup by lia. unfold row_values.
           rewrite list_lookup_fmap, lookup_seqZ_lt by lia. cbn. do 2 f_equal. lia.
Qed.

(** A loop with an iteration that cannot succeed fails. *)
Lemma for_loop_from_fails {T : Type} (body : Z → T → option T) (n : nat) (lo k : Z)
    (s : T) :
  lo ≤ k < lo + Z.of_nat n → (∀ t, body k t = None) →
  for_loop_from n lo body s = None.
Proof.
  revert lo s. induction n as [|n IH]; intros lo s Hk Hfail; [lia|].
  cbn [for_loop_from]. destruct (decide (k = lo)) as [->|Hne].
  - by rewrite Hfail.
  - destruct (body lo s) as [t|]; [|done]. cbn [mbind option_bind].
    apply IH; [lia|done].
Qed.

Lemma for_loop_fails {T : Type} (body : Z → T → option T) (lo hi k : Z) (s : T) :
  lo ≤ k < hi → (∀ t, body k t = None) → for_loop lo hi body s = None.
Proof.
  intros Hk Hfail. unfold for_loop. apply (for_loop_from_fails body _ lo k); [lia|done].
Qed.

Lemma for_loop_first_fails {T : Type} (body : Z → T → option T) (lo hi : Z) (s : T) :
  lo < hi → body lo s = None → for_loop lo hi body s = None.
Proof.
  intros Hlt Hfail. unfold for_loop.
  destruct (Z.to_nat (hi - lo)) as [|n] eqn:Hn; [lia|].
  cbn [for_loop_from]. by rewrite Hfail.
Qed.

Lemma csv_value_beyond (cfg : config) (g : globals) (dim k : Z) :
  0 < avg_int_in_sec cfg → buffers_allocated cfg g → 0 ≤ dim < 3 →
  samplerate cfg / 2 < k →
  csv_value cfg g dim k = None.
Proof.
  intros HW (_ & _ & _ & Hr & Hd) Hdim Hk.
  assert (Hcell : aget3 (ampspec g) dim 0 k = None).
  { destruct (dims3_aget2 _ _ _ _ dim 0 Hr Hd Hdim ltac:(lia)) as (row & Hrow & Hlen).
    rewrite (aget3_intro _ _ _ _ _ Hrow). apply aget_None. lia. }
  unfold csv_value. destruct (max_instead_of_avg cfg).
  - apply (for_loop_fails _ _ _ 0); [lia|]. intros t. by rewrite Hcell.
  - rewrite (for_loop_fails _ _ _ 0); [done|lia|]. intros t. by rewrite Hcell.
Qed.

(** X8: with [maxfreq] above [samplerate / 2], which start-up does not
    exclude, an [output_csv] whose files open reads the window beyond the
    [samplerate / 2 + 1] bins of a spectrum, whatever the policy; so does
    the [process_slot] that completes a window. *)
Theorem maxfreq_beyond_spectrum (fs : sink_env) (cfg : config) (g : globals) :
  0 < samplerate cfg → 0 < avg_int_in_sec cfg →
  samplerate cfg / 2 < maxfreq cfg →
  buffers_allocated cfg g →
  (∀ dim, 0 ≤ dim < 3 →
     fopen_create (fs (trace g) dim) = true → fopen_append (fs (trace g) dim) = true →
     output_csv fs cfg dim g = None) ∧
  (∀ ptr, 0 ≤ ptr < PIPELINE_LEN → 0 ≤ aind g → aind g + 1 = avg_int_in_sec cfg →
     fopen_create (fs (trace g) 0) = true → fopen_append (fs (trace g) 0) = true →
     process_slot fs cfg ptr g = None).
Proof.
  intros HR HW Hmf Hb.
  assert (Hout : ∀ h dim, buffers_allocated cfg h → 0 ≤ dim < 3 →
    fopen_create (fs (trace h) dim) = true → fopen_append (fs (trace h) dim) = true →
    output_csv fs cfg dim h = None).
  { intros h dim Hbh Hdim H1 H2. unfold output_csv. rewrite H1, H2. cbn [negb].
    assert (0 ≤ samplerate cfg / 2) by (apply Z.div_pos; lia).
    rewrite (for_loop_fails _ _ _ (samplerate cfg / 2 + 1)); [done|lia|].
    intros t. rewrite csv_value_beyond by (done || lia). done. }
  split; [intros dim; by apply Hout|].
  intros ptr Hptr Ha0 Ha H1 H2. unfold process_slot.
  destruct (Z.geb_spec ptr PIPELINE_LEN) as [|_]; [lia|].
  destruct (spectra_loop cfg ptr g HR Hb) as (s1 & -> & Hr1 & Hd1 & _); [|done|].
  { unfold window_in_range. lia. }
  cbn [mbind option_bind set_ampspec set_aind aind].
  rewrite decide_True by done.
  rewrite for_loop_first_fails; [done|lia|].
  rewrite Hout; [done| |lia|done|done].
  destruct Hb as (? & ? & ? & ? & ?). by unfold buffers_allocated.
Qed.

(** ** The two policies in closed form *)

Local Open Scope R_scope.

Lemma window_max_ext (f h : nat → R) (j : nat) :
  (∀ i, (i ≤ j)%nat → f i = h i) → window_max f j = window_max h j.
Proof.
  induction j as [|j IH]; intros Hfh; cbn [window_max].
  - by apply Hfh.
  - rewrite IH by (intros; apply Hfh; lia). by rewrite Hfh.
Qed.

Lemma Rmax_div (x y d : R) : 0 < d → Rmax x y / d = Rmax (x / d) (y / d).
Proof.
  intros Hd. unfold Rdiv. rewrite !(Rmult_comm _ (/ d)).
  symmetry. apply RmaxRmult. left. by apply Rinv_0_lt_compat.
Qed.

Lemma window_max_div (f : nat → R) (d : R) (j : nat) :
  0 < d → window_max (fun i => f i / d) j = window_max f j / d.
Proof.
  intros Hd. induction j as [|j IH]; cbn [window_max]; [done|].
  by rewrite IH, Rmax_div.
Qed.

Lemma reference_max_closed (d : R) (a : nat → R) (j : nat) :
  0 < d →
  reference_max d a j = window_max (fun i => a i / d ^ (S j - i)%nat) j.
Proof.
  intros Hd. induction j as [|j IH].
  - cbn. f_equal. lra.
  - rewrite reference_max_step, IH, Rmax_div by done.
    rewrite <- window_max_div by done. cbn [window_max]. rewrite Rmax_comm.
    f_equal.
    + apply window_max_ext. intros i Hi.
      replace (S (S j) - i)%nat with (S (S j - i)) by lia.
      cbn [pow]. field. split; [apply pow_nonzero|]; lra.
    + replace (S (S j) - S j)%nat with 1%nat by lia. f_equal. cbn. lra.
Qed.

(** X9: under the max policy the value printed for a bin is the largest of
    the window's entries after each has been divided by the scale factor
    [samplerate / 1000.0] once for every iteration from its own to the
    last: entry [i] of a window of [W] seconds counts as
    [entry i / scale ^ (W - i)]. *)
Theorem running_max_closed_form (cfg : config) (g : globals) (dim k : Z) :
  max_instead_of_avg cfg = true →
  (0 < samplerate cfg)%Z → (0 < avg_int_in_sec cfg)%Z →
  buffers_allocated cfg g →
  (0 ≤ dim < 3)%Z → (0 ≤ k ≤ samplerate cfg / 2)%Z →
  csv_value cfg g dim k =
    Some (window_max
            (fun i => window_entry g dim k i
                      / scale cfg ^ (Z.to_nat (avg_int_in_sec cfg) - i)%nat)
            (Z.to_nat (avg_int_in_sec cfg - 1)%Z)).
Proof.
  intros Hmax HR HW Hb Hdim Hk.
  rewrite csv_value_max by done. unfold row_value. rewrite Hmax. f_equal.
  rewrite reference_max_closed.
  - by replace (S (Z.to_nat (avg_int_in_sec cfg - 1)%Z))
      with (Z.to_nat (avg_int_in_sec cfg)) by lia.
  - unfold scale. assert (0 < IZR (samplerate cfg)) by (by apply IZR_lt). lra.
Qed.

Lemma window_sum_bounds (a : nat → R) (lo hi : R) (n : nat) :
  (∀ j, (j < n)%nat → lo <= a j <= hi) →
  INR n * lo <= window_sum a n <= INR n * hi.
Proof.
  induction n as [|n IH]; intros Ha.
  - cbn. lra.
  - cbn [window_sum]. rewrite S_INR.
    destruct IH as [? ?]; [intros; apply Ha; lia|].
    destruct (Ha n) as [? ?]; [lia|]. lra.
Qed.

(** X10: under the mean policy the value printed for a bin, multiplied by
    the scale factor [samplerate / 1000.0], is the arithmetic mean of the
    window's entries for that bin; it lies between any two bounds that
    hold for all the entries. *)
Theorem mean_is_scaled_average (cfg : config) (g : globals) (dim k : Z) (lo hi : R) :
  max_instead_of_avg cfg = false →
  (0 < samplerate cfg)%Z → (0 < avg_int_in_sec cfg)%Z →
  (avg_int_in_sec cfg * samplerate cfg ≤ INT_MAX)%Z →
  buffers_allocated cfg g →
  (0 ≤ dim < 3)%Z → (0 ≤ k ≤ samplerate cfg / 2)%Z →
  (∀ j x, (0 ≤ j < avg_int_in_sec cfg)%Z →
     aget3 (ampspec g) dim j k = Some x → lo <= x <= hi) →
  ∃ v, csv_value cfg g dim k = Some v ∧
       v * scale cfg =
         window_sum (window_entry g dim k) (Z.to_nat (avg_int_in_sec cfg))
           / IZR (avg_int_in_sec cfg) ∧
       lo <= v * scale cfg <= hi.
Proof.
  intros Hmean HR HW Hmul Hb Hdim Hk Hbounds.
  rewrite csv_value_mean by done. eexists. split; [done|].
  unfold row_value. rewrite Hmean. unfold scale. rewrite mult_IZR.
  assert (HRr : 0 < IZR (samplerate cfg)) by (by apply IZR_lt).
  assert (HWr : 0 < IZR (avg_int_in_sec cfg)) by (by apply IZR_lt).
  set (sum := window_sum _ _).
  assert (Heq : sum / (IZR (avg_int_in_sec cfg) * IZR (samplerate cfg) / 1000)
                * (IZR (samplerate cfg) / 1000) = sum / IZR (avg_int_in_sec cfg)).
  { field. lra. }
  split; [done|]. rewrite Heq.
  destruct (window_sum_bounds (window_entry g dim k) lo hi
              (Z.to_nat (avg_int_in_sec cfg))) as [Hlo Hhi].
  { intros j Hj. apply (Hbounds (Z.of_nat j)); [lia|].
    rewrite (aget3_window_entry cfg) by (done || lia). by rewrite Nat2Z.id. }
  fold sum in Hlo, Hhi.
  rewrite INR_IZR_INZ, Z2Nat.id in Hlo, Hhi by lia.
  assert (Hm : sum / IZR (avg_int_in_sec cfg) * IZR (avg_int_in_sec cfg) = sum)
    by (field; lra).
  set (m := sum / IZR (avg_int_in_sec cfg)) in *. split; nra.
Qed.

(** ** When [calc_amplitude_spectrum] stays within its arrays *)

Local Open Scope Z_scope.

Lemma aset_Some_length {A : Type} (l l' : list A) (i : Z) (x : A) :
  aset l i x = Some l' → 0 ≤ i < Z.of_nat (length l) ∧ length l' = length l.
Proof.
  unfold aset. case_decide; [|done]. intros [= <-]. by rewrite length_insert.
Qed.

(** X11: [calc_amplitude_spectrum] stays within its arrays exactly when [N]
    is positive, the input holds at least [N] values and the output array
    at least [N / 2 + 1]; in every other case the variable-length array
    has no valid size or an access lies out of bounds. *)
Theorem calc_amplitude_spectrum_defined (inp : list R) (N : Z) (amp : list R) :
  is_Some (calc_amplitude_spectrum inp N amp) ↔
  0 < N ≤ Z.of_nat (length inp) ∧ N / 2 + 1 ≤ Z.of_nat (length amp).
Proof.
  split.
  - intros [r Hr]. unfold calc_amplitude_spectrum in Hr.
    destruct (decide (0 < N ≤ Z.of_nat (length inp))) as [HN|]; [|done].
    split; [done|].
    set (out := rfftw_one (take (Z.to_nat N) inp)) in Hr.
    destruct (aget out 0) as [o|]; [|done]. cbn [mbind option_bind] in Hr.
    destruct (aset amp 0 _) as [a1|] eqn:H1; [|done]. cbn [mbind option_bind] in Hr.
    apply aset_Some_length in H1 as [H0 Hl1].
    destruct (for_loop 1 _ _ a1) as [a2|] eqn:H2; [|done]. cbn [mbind option_bind] in Hr.
    assert (Hq1 : Z.quot (N + 1) 2 = (N + 1) / 2) by (apply Z.quot_div_nonneg; lia).
    assert (Hq : Z.quot N 2 = N / 2) by (apply Z.quot_div_nonneg; lia).
    assert (Hr2 : Z.rem N 2 = N mod 2) by (apply Z.rem_mod_nonneg; lia).
    rewrite Hq1 in H2. rewrite Hq, Hr2 in Hr.
    assert (Hkeep : ∀ (i : Z) (t t' : list R),
      (a ← aget out i; b ← aget out (N - i); aset t i (sqrt (a * a + b * b)%R)) = Some t' →
      length t = length amp → length t' = length amp).
    { intros i t t' Hb Ht. destruct (aget out i); [|done].
      destruct (aget out (N - i)); [|done]. cbn [mbind option_bind] in Hb.
      apply aset_Some_length in Hb as [_ ->]. done. }
    destruct (decide (N mod 2 = 0)) as [Heven|Hodd].
    + destruct (aget out (N / 2)); [|done]. cbn [mbind option_bind] in Hr.
      apply aset_Some_length in Hr as [Hi _].
      pose proof (for_loop_keeps (fun t => length t = length amp) _ _ _ _ _ Hkeep H2 Hl1)
        as Hl2.
      cbn beta in Hl2. lia.
    + destruct (decide (N = 1)) as [->|HN1]; [change (1 / 2) with 0; lia|].
      assert (HN2 : N = 2 * (N / 2) + N mod 2) by (apply Z.div_mod; lia).
      assert (Hm : 0 ≤ N mod 2 < 2) by (apply Z.mod_pos_bound; lia).
      assert (Hhalf : (N + 1) / 2 = N / 2 + 1).
      { symmetry. apply Z.div_unique with (r := 0); lia. }
      rewrite Hhalf, for_loop_snoc in H2 by lia.
      destruct (for_loop 1 (N / 2) _ a1) as [a3|] eqn:H3; [|done].
      cbn [mbind option_bind] in H2.
      pose proof (for_loop_keeps (fun t => length t = length amp) _ _ _ _ _ Hkeep H3 Hl1)
        as Hl3.
      cbn beta in Hl3.
      destruct (aget out (N / 2)); [|done].
      destruct (aget out (N - N / 2)); [|done]. cbn [mbind option_bind] in H2.
      apply aset_Some_length in H2 as [Hi _]. lia.
  - intros [HN Hamp]. rewrite calc_amplitude_spectrum_refines by done. by eexists.
Qed.

(** ** The WAV file *)

Local Open Scope R_scope.

Lemma avgconst_exponent (cfg : config) :
  (0 < samplerate cfg)%Z →
  -1 / (tau * IZR (samplerate cfg)) < 0 ∧
  -1 / (tau * IZR (samplerate cfg)) * INR (Z.to_nat (10 * samplerate cfg)) = -1.
Proof.
  intros HR. assert (0 < IZR (samplerate cfg)) by (by apply IZR_lt).
  unfold tau. split.
  - assert (0 < / (10 * IZR (samplerate cfg))) by (apply Rinv_0_lt_compat; lra).
    unfold Rdiv. lra.
  - rewrite INR_IZR_INZ, Z2Nat.id, mult_IZR by lia. field. lra.
Qed.

Lemma avgconst_pow (cfg : config) :
  (0 < samplerate cfg)%Z →
  0 < avgconst cfg < 1 ∧
  avgconst cfg ^ Z.to_nat (10 * samplerate cfg) = 1 / 2.
Proof.
  intros HR. destruct (avgconst_exponent cfg HR) as [Hneg Hexp].
  assert (Hpos : 0 < avgconst cfg) by apply exp_pos.
  split; [split; [done|]|].
  - unfold avgconst, Rpower. rewrite <- exp_0. apply exp_increasing.
    assert (0 < ln 2) by (rewrite <- ln_1; apply ln_increasing; lra).
    set (y := -1 / _) in *. nra.
  - rewrite <- Rpower_pow by done. unfold avgconst.
    rewrite Rpower_mult, Hexp.
    replace (-1) with (- (1)) by lra.
    rewrite Rpower_Ropp, Rpower_1 by lra. lra.
Qed.

(** X12: for a positive sample rate the constant of the moving average
    lies strictly between 0 and 1, and its power over [tau] seconds of
    samples, [10 * samplerate] of them, is one half. *)
Theorem avgconst_half_life (cfg : config) :
  (0 < samplerate cfg)%Z →
  0 < avgconst cfg < 1 ∧
  avgconst cfg ^ Z.to_nat (10 * samplerate cfg) = 1 / 2.
Proof. apply avgconst_pow. Qed.

Lemma frame_zip_average_self (c : R) (data : frame) :
  frame_zip (fun m d => c * m + (1 - c) * d) data data = data.
Proof. destruct data as [[d0 d1] d2]. cbn. f_equal; [f_equal|]; ring. Qed.

Lemma frame_zip_minus_self (data : frame) : frame_zip Rminus data data = (0, 0, 0).
Proof. destruct data as [[d0 d1] d2]. cbn. f_equal; [f_equal|]; ring. Qed.

Lemma filter_is_write_snoc (t : list wav_event) (e : wav_event) :
  is_write e = false → filter is_write (t ++ [e]) = filter is_write t.
Proof.
  intros He. rewrite filter_app. cbn. rewrite decide_False by (rewrite He; naive_solver).
  by rewrite app_nil_r.
Qed.

(** X13: when a checked [write_wav] finds no file of the day, or no file
    open, it sets the moving average to the sample itself, so that the
    moving average is the sample afterwards and the frame written, if an
    [sf_open] gave a file, is all zeros; if none did, nothing is
    written. *)
Theorem reopen_starts_silent (env : wav_env) (c : R) (data : frame) (w : wav_globals) :
  file_exists (env (wav_trace w)) = false ∨ wavfile w = None →
  let w' := write_wav env c data true w in
  moving_average w' = data ∧
  (∀ h, wavfile w' = Some h →
     ∃ t, wav_trace w' = t ++ [Sf_write_double h (0, 0, 0)]) ∧
  (wavfile w' = None →
     filter is_write (wav_trace w') = filter is_write (wav_trace w)).
Proof.
  intros Hre. unfold write_wav. cbv zeta.
  destruct (file_exists (env (wav_trace w))) eqn:Hex; cbn [negb].
  - destruct Hre as [?|Hnone]; [done|]. rewrite Hnone.
    unfold open_wav. cbn [set_moving_average set_wavfile wav_call wavfile moving_average
      wav_trace].
    rewrite frame_zip_average_self, frame_zip_minus_self.
    destruct (sf_open (env (wav_trace w))) as [h|]; cbn.
    + split; [done|]. split; [|done]. intros ? [= <-]. eauto.
    + split; [done|]. split; [done|]. intros _.
      by rewrite <- app_assoc, !filter_app, app_nil_r.
  - unfold close_wav. destruct (wavfile w) as [h0|] eqn:Hw.
    + unfold open_wav.
      cbn [set_moving_average set_wavfile wav_call wavfile moving_average wav_trace].
      destruct (sf_open (env (wav_trace w ++ [Sf_close h0]))) as [h|].
      * cbn [set_moving_average set_wavfile wav_call wavfile moving_average wav_trace].
        rewrite frame_zip_average_self, frame_zip_minus_self.
        split; [done|]. split; [|done]. intros ? [= <-]. eauto.
      * cbn [set_moving_average set_wavfile wav_call wavfile moving_average wav_trace].
        rewrite frame_zip_average_self, frame_zip_minus_self.
        destruct (sf_open _) as [h|];
          cbn [set_moving_average set_wavfile wav_call wavfile moving_average wav_trace].
        -- split; [done|]. split; [|done]. intros ? [= <-]. eauto.
        -- split; [done|]. split; [done|]. intros _.
           by rewrite !filter_is_write_snoc.
    + unfold open_wav.
      cbn [set_moving_average set_wavfile wav_call wavfile moving_average wav_trace].
      destruct (sf_open (env (wav_trace w))) as [h|].
      * cbn [set_moving_average set_wavfile wav_call wavfile moving_average wav_trace].
        rewrite frame_zip_average_self, frame_zip_minus_self.
        split; [done|]. split; [|done]. intros ? [= <-]. eauto.
      * cbn [set_moving_average set_wavfile wav_call wavfile moving_average wav_trace].
        rewrite frame_zip_average_self, frame_zip_minus_self.
        destruct (sf_open _) as [h|];
          cbn [set_moving_average set_wavfile wav_call wavfile moving_average wav_trace].
        -- split; [done|]. split; [|done]. intros ? [= <-]. eauto.
        -- split; [done|]. split; [done|]. intros _.
           by rewrite !filter_is_write_snoc.
Qed.

Lemma write_wav_kept (env : wav_env) (c : R) (data : frame) (check : bool)
    (w : wav_globals) (h : nat) :
  wavfile w = Some h →
  (check = true → file_exists (env (wav_trace w)) = true) →
  write_wav env c data check w =
    let ma := frame_zip (fun m d => c * m + (1 - c) * d) (moving_average w) data in
    {| wavfile := Some h; moving_average := ma;
       wav_trace := wav_trace w ++ [Sf_write_double h (frame_zip Rminus data ma)] |}.
Proof.
  intros Hw Hex. unfold write_wav. cbv zeta.
  destruct check.
  - rewrite Hex by done. cbn [negb]. rewrite Hw.
    cbn [set_moving_average wavfile]. rewrite Hw.
    unfold wav_call, set_moving_average. cbn [wavfile moving_average wav_trace].
    by rewrite Hw.
  - cbn [set_moving_average wavfile]. rewrite Hw.
    unfold wav_call, set_moving_average. cbn [wavfile moving_average wav_trace].
    by rewrite Hw.
Qed.

Lemma decayed_step (c : R) (n : nat) (ma buf : frame) :
  frame_zip (fun m d => c * m + (1 - c) * d) (decayed c n ma buf) buf
  = decayed c (S n) ma buf.
Proof.
  destruct ma as [[m0 m1] m2], buf as [[b0 b1] b2]. cbn. f_equal; [f_equal|]; ring.
Qed.

Lemma residue_step (c : R) (n : nat) (ma buf : frame) :
  frame_zip Rminus buf (decayed c n ma buf) = residue c n ma buf.
Proof.
  destruct ma as [[m0 m1] m2], buf as [[b0 b1] b2]. cbn. f_equal; [f_equal|]; ring.
Qed.

Lemma decayed_0 (c : R) (ma buf : frame) : decayed c 0 ma buf = ma.
Proof.
  destruct ma as [[m0 m1] m2], buf as [[b0 b1] b2]. cbn. f_equal; [f_equal|]; ring.
Qed.

Lemma constant_input (env : wav_env) (cfg : config) (d : acceleration) (n : nat)
    (h : nat) (w : wav_globals) :
  wavfile w = Some h →
  (∀ t, file_exists (env t) = true) →
  SpatialDataHandler_wav env cfg true (replicate n d) (Z.of_nat n) w =
    Some {| wavfile := Some h;
            moving_average := decayed (avgconst cfg) n (moving_average w) (wav_buf d);
            wav_trace := wav_trace w ++
              ((fun k => Sf_write_double h
                           (residue (avgconst cfg) (S k) (moving_average w) (wav_buf d)))
               <$> seq 0 n) |}.
Proof.
  intros Hw Hex. unfold SpatialDataHandler_wav.
  destruct (for_loop_inv
    (fun (i : Z) (w1 : wav_globals) =>
       w1 = {| wavfile := Some h;
               moving_average :=
                 decayed (avgconst cfg) (Z.to_nat i) (moving_average w) (wav_buf d);
               wav_trace := wav_trace w ++
                 ((fun k => Sf_write_double h
                              (residue (avgconst cfg) (S k) (moving_average w) (wav_buf d)))
                  <$> seq 0 (Z.to_nat i)) |})
    (fun k w =>
       d ← aget (replicate n d) k;
       Some (write_wav env (avgconst cfg) (wav_buf d) (k =? 0)%Z w))
    0%Z (Z.of_nat n) w) as (w' & Hloop & Hw'); [lia| | |].
  - cbn [Z.to_nat seq fmap list_fmap]. rewrite decayed_0, app_nil_r.
    destruct w. cbn in *. by subst.
  - intros i t Hi ->. rewrite aget_lookup, lookup_replicate_2 by lia.
    cbn [mbind option_bind]. eexists. split; [done|].
    rewrite (write_wav_kept _ _ _ _ _ h) by done. cbv zeta.
    cbn [moving_average wav_trace].
    replace (Z.to_nat (i + 1)) with (S (Z.to_nat i)) by lia.
    rewrite decayed_step, residue_step. f_equal.
    rewrite <- app_assoc. f_equal.
    rewrite seq_S, fmap_app. done.
  - rewrite Hloop, Hw', Nat2Z.id. done.
Qed.

(** X14: while a file is open and the file of the day exists, a batch of
    [n] equal samples [d] makes the data callback write [n] frames to that
    file and keep it open; the moving average moves from its value [m] to
    [b + avgconst ^ n * (m - b)], with [b = d / MAX_G], and the [k]-th
    frame written is [avgconst ^ k * (b - m)]: a constant acceleration
    fades from the file geometrically. *)
Theorem constant_input_fades (env : wav_env) (cfg : config) (d : acceleration)
    (n : nat) (h : nat) (w : wav_globals) :
  wavfile w = Some h →
  (∀ t, file_exists (env t) = true) →
  ∃ w',
    SpatialDataHandler_wav env cfg true (replicate n d) (Z.of_nat n) w = Some w' ∧
    wavfile w' = Some h ∧
    moving_average w' = decayed (avgconst cfg) n (moving_average w) (wav_buf d) ∧
    wav_trace w' = wav_trace w ++
      ((fun k => Sf_write_double h
                   (residue (avgconst cfg) (S k) (moving_average w) (wav_buf d)))
       <$> seq 0 n).
Proof.
  intros Hw Hex. eexists. split; [by apply constant_input|]. done.
Qed.

(** X15: after [tau] seconds of equal samples, [10 * samplerate] of them,
    the moving average is half way between its old value and the sample,
    and the last frame written is half their difference: [tau] is the time
    in which the moving average is down to 0.5. *)
Theorem half_way_after_tau (env : wav_env) (cfg : config) (d : acceleration)
    (h : nat) (w : wav_globals) :
  (0 < samplerate cfg)%Z →
  wavfile w = Some h →
  (∀ t, file_exists (env t) = true) →
  let n := Z.to_nat (10 * samplerate cfg) in
  ∃ w',
    SpatialDataHandler_wav env cfg true (replicate n d) (Z.of_nat n) w = Some w' ∧
    moving_average w' = frame_zip (fun m b => (m + b) / 2) (moving_average w) (wav_buf d) ∧
    last (wav_trace w') =
      Some (Sf_write_double h
              (frame_zip (fun m b => (b - m) / 2) (moving_average w) (wav_buf d))).
Proof.
  intros HR Hw Hex n. destruct (avgconst_pow cfg HR) as [_ Hhalf].
  fold n in Hhalf.
  assert (Hn : ∃ m, n = S m) by (exists (pred n); unfold n; lia).
  eexists. split; [by apply constant_input|]. cbn [moving_average wav_trace].
  clearbody n. destruct Hn as [m ->].
  split.
  - unfold decayed. rewrite Hhalf.
    destruct (moving_average w) as [[m0 m1] m2], (wav_buf d) as [[b0 b1] b2]. cbn.
    f_equal; [f_equal|]; lra.
  - rewrite seq_S, fmap_app, app_assoc. cbn [fmap list_fmap].
    rewrite last_snoc. cbn [Nat.add]. unfold residue. rewrite Hhalf.
    destruct (moving_average w) as [[m0 m1] m2], (wav_buf d) as [[b0 b1] b2]. cbn.
    match goal with
    | |- Some (Sf_write_double _ ?a) = Some (Sf_write_double _ ?b) =>
        replace a with b; [done|]
    end.
    f_equal; [f_equal|]; lra.
Qed.

Lemma wav_replay_snoc (cur : option nat) (t : list wav_event) (e : wav_event) :
  wav_replay cur (t ++ [e]) = wav_replay cur t ≫= (fun cur' => wav_replay cur' [e]).
Proof.
  revert cur. induction t as [|e' t IH]; intros cur.
  - done.
  - cbn [app wav_replay]. destruct e'; case_decide; try done; apply IH.
Qed.

Lemma write_wav_discipline (env : wav_env) (c : R) (data : frame) (check : bool)
    (w : wav_globals) :
  wav_replay None (wav_trace w) = Some (wavfile w) →
  wav_replay None (wav_trace (write_wav env c data check w))
    = Some (wavfile (write_wav env c data check w)).
Proof.
  intros Hinv.
  assert (Hclose : ∀ w, wav_replay None (wav_trace w) = Some (wavfile w) →
    wav_replay None (wav_trace (close_wav w)) = Some (wavfile (close_wav w)) ∧
    wavfile (close_wav w) = None).
  { intros w1 H1. unfold close_wav. destruct (wavfile w1) as [h|] eqn:Hw1; [|by rewrite Hw1].
    cbn [set_wavfile wav_call wavfile wav_trace]. rewrite wav_replay_snoc, H1.
    cbn. by rewrite decide_True. }
  assert (Hopen : ∀ day mode w, wav_replay None (wav_trace w) = Some (wavfile w) →
    wavfile w = None →
    wav_replay None (wav_trace (open_wav env day mode w))
      = Some (wavfile (open_wav env day mode w))).
  { intros day mode w1 H1 Hn. unfold open_wav.
    cbn [set_wavfile wav_call wavfile wav_trace]. rewrite wav_replay_snoc, H1, Hn.
    cbn. done. }
  assert (Hseek : ∀ w, wav_replay None (wav_trace w) = Some (wavfile w) →
    wav_replay None (wav_trace (wav_call (Sf_seek_end (wavfile w)) w))
      = Some (wavfile (wav_call (Sf_seek_end (wavfile w)) w))).
  { intros w1 H1. cbn [wav_call wavfile wav_trace]. rewrite wav_replay_snoc, H1.
    cbn. by rewrite decide_True. }
  assert (Hwrite : ∀ ma out w, wav_replay None (wav_trace w) = Some (wavfile w) →
    let w1 := set_moving_average ma w in
    let w2 := match wavfile w1 with
              | Some h => wav_call (Sf_write_double h out) w1
              | None => w1
              end in
    wav_replay None (wav_trace w2) = Some (wavfile w2)).
  { intros ma out w1 H1. cbn [set_moving_average wavfile].
    destruct (wavfile w1) as [h|] eqn:Hw1;
      cbn [set_moving_average wav_call wavfile wav_trace].
    - rewrite wav_replay_snoc, H1, Hw1. cbn. by rewrite decide_True.
    - by rewrite H1, Hw1. }
  unfold write_wav. cbv zeta. apply Hwrite.
  destruct check; [|done].
  assert (Hfirst : ∃ w1,
    (if negb (file_exists (env (wav_trace w))) then
       set_moving_average data
         (open_wav env (today (env (wav_trace w))) SFM_WRITE (close_wav w))
     else w) = w1 ∧ wav_replay None (wav_trace w1) = Some (wavfile w1)).
  { eexists. split; [done|]. destruct (negb _); [|done].
    destruct (Hclose w Hinv) as [Hc Hn].
    cbn [set_moving_average wavfile wav_trace]. by apply Hopen. }
  destruct Hfirst as (w1 & Heq & H1). rewrite Heq. clear Heq.
  destruct (wavfile w1) as [h|] eqn:Hw1; [congruence|].
  cbn [set_moving_average wavfile wav_trace].
  apply Hseek. apply Hopen; [congruence|done].
Qed.

(** X16: the data callback keeps to the discipline of libsndfile, with or
    without the WAV option and whatever the environment answers: starting
    with the calls made so far in order and [wavfile] the handle they leave
    open, a batch leaves them so.  A handle is closed before another file
    is opened, none is opened while one is open, and every frame goes to
    the handle that is open. *)
Theorem sndfile_discipline (env : wav_env) (cfg : config) (wav : bool)
    (data : list acceleration) (w : wav_globals) :
  wav_replay None (wav_trace w) = Some (wavfile w) →
  ∃ w',
    SpatialDataHandler_wav env cfg wav data (Z.of_nat (length data)) w = Some w' ∧
    wav_replay None (wav_trace w') = Some (wavfile w').
Proof.
  intros Hinv. unfold SpatialDataHandler_wav.
  apply (for_loop_inv (fun _ w1 => wav_replay None (wav_trace w1) = Some (wavfile w1)));
    [lia|done|].
  intros i t Hi Ht. destruct (aget_is_Some data i) as [d Hd]; [lia|].
  rewrite Hd. cbn [mbind option_bind]. eexists. split; [done|].
  destruct wav; [|done]. by apply write_wav_discipline.
Qed.

End Proofs.

(** * Examples *)

Lemma fresh_alloc (cfg : config) :
  0 ≤ samplerate cfg → 0 ≤ avg_int_in_sec cfg →
  alloc_spec_buffers cfg initial_globals = Some (fresh cfg).
Proof.
  intros HR HW. unfold fresh.
  by destruct (alloc_spec_buffers_Some cfg initial_globals HR HW) as [g ->].
Qed.

Lemma fresh_state (cfg : config) :
  0 < samplerate cfg → 0 < avg_int_in_sec cfg →
  buffers_allocated cfg (fresh cfg) ∧ cursors_in_range cfg (fresh cfg) ∧
  window_in_range cfg (fresh cfg) ∧ trace (fresh cfg) = [].
Proof.
  intros HR HW.
  destruct (boot_state cfg (fresh cfg)) as (Hb & Hr & Hi & Ha & Ht & _).
  { apply fresh_alloc; lia. }
  unfold cursors_in_range, window_in_range. rewrite Hr, Hi, Ha.
  unfold PIPELINE_LEN. split; [done|]. repeat split; try done; lia.
Qed.

Lemma default_config_ok : config_ok default_config.
Proof. unfold config_ok, INT_MAX. cbn. repeat split; try lia. by vm_compute. Qed.

Lemma max_config_ok : config_ok max_config.
Proof. unfold config_ok, INT_MAX. cbn. repeat split; try lia. by vm_compute. Qed.

Lemma with_window_allocated (cfg : config) (spectra : list (list R)) :
  0 ≤ samplerate cfg → 0 ≤ avg_int_in_sec cfg →
  Z.of_nat (length spectra) = avg_int_in_sec cfg →
  Forall (fun s => Z.of_nat (length s) = samplerate cfg / 2 + 1) spectra →
  buffers_allocated cfg (with_window cfg spectra).
Proof.
  intros HR HW Hlen Hall.
  destruct (boot_state cfg (fresh cfg)) as ((Hu & Hir & Hid & _) & _).
  { by apply fresh_alloc. }
  unfold buffers_allocated, with_window.
  cbn [set_ampspec unproc inbuf ampspec].
  split; [done|]. split; [done|]. split; [done|]. split; split.
  - by rewrite length_replicate.
  - intros i plane Hp. by apply aget_replicate_inv in Hp as [-> _].
  - by rewrite length_replicate.
  - intros i j row Hrow. apply aget2_Some_inv in Hrow as (plane & Hp & Hrow).
    apply aget_replicate_inv in Hp as [-> _].
    apply aget_Some_inv in Hrow as [_ Hrow].
    by apply (Forall_lookup_1 _ _ _ _ Hall Hrow).
Qed.

Lemma dc_spectrum_length (cfg : config) (x : R) :
  0 ≤ samplerate cfg →
  Z.of_nat (length (dc_spectrum cfg x)) = samplerate cfg / 2 + 1.
Proof.
  intros HR. unfold dc_spectrum. rewrite length_insert, length_replicate.
  assert (0 ≤ samplerate cfg / 2) by (apply Z.div_pos; lia). lia.
Qed.

Lemma two_spectra_allocated (cfg : config) (x y : R) :
  0 ≤ samplerate cfg → avg_int_in_sec cfg = 2 →
  buffers_allocated cfg (with_window cfg [dc_spectrum cfg x; dc_spectrum cfg y]).
Proof.
  intros HR HW. apply with_window_allocated; [done|lia|by rewrite HW|].
  repeat constructor; by apply dc_spectrum_length.
Qed.

Lemma two_spectra_entries (cfg : config) (x y : R) :
  0 ≤ samplerate cfg →
  let g := with_window cfg [dc_spectrum cfg x; dc_spectrum cfg y] in
  window_entry g 0 0 0 = x ∧ window_entry g 0 0 1 = y.
Proof.
  intros HR g.
  assert (Hdc : ∀ z, aget (dc_spectrum cfg z) 0 = Some z).
  { intros z. apply (aget_insert_eq _ 0). rewrite length_replicate.
    assert (0 ≤ samplerate cfg / 2) by (apply Z.div_pos; lia). lia. }
  unfold window_entry, g, with_window, aget3, aget2. cbn [set_ampspec ampspec].
  rewrite !aget_replicate by lia. cbn [mbind option_bind].
  change (aget [dc_spectrum cfg x; dc_spectrum cfg y] (Z.of_nat 0))
    with (Some (dc_spectrum cfg x)).
  change (aget [dc_spectrum cfg x; dc_spectrum cfg y] (Z.of_nat 1))
    with (Some (dc_spectrum cfg y)).
  cbn [mbind option_bind]. by rewrite !Hdc.
Qed.

Lemma fast_config_ok : config_ok fast_config.
Proof. unfold config_ok, INT_MAX. cbn. repeat split; try lia. by vm_compute. Qed.

(** At 2000 samples per second the division compounds: the window 8, 1
    yields 2, not the maximum divided once, 4. *)
Example compounding_at_2000 :
  csv_value fast_config
    (with_window fast_config [dc_spectrum fast_config 8; dc_spectrum fast_config 1])
    0 0 = Some 2%R.
Proof.
  set (g := with_window fast_config _).
  destruct (two_spectra_entries fast_config 8 1) as [Ha0 Ha1]; [by vm_compute|].
  fold g in Ha0, Ha1.
  rewrite (csv_value_max fast_config g 0 0);
    [|done|by apply two_spectra_allocated|by vm_compute..].
  unfold row_value. cbn [fast_config max_instead_of_avg avg_int_in_sec].
  change (Z.to_nat (2 - 1)) with 1%nat.
  assert (Hs : scale fast_config = 2%R) by (unfold scale; cbn; lra).
  rewrite Hs, reference_max_step. cbn [reference_max]. rewrite Ha0, Ha1.
  rewrite Rmax_right by lra. f_equal. lra.
Qed.

Lemma constant_window_entries (cfg : config) (x : R) (dim j : Z) :
  0 ≤ dim < 3 → 0 ≤ j < avg_int_in_sec cfg → 0 ≤ samplerate cfg →
  aget3 (ampspec (constant_window cfg x)) dim j 0 = Some x.
Proof.
  intros Hdim Hj HR. unfold constant_window, with_window, aget3, aget2.
  cbn [set_ampspec ampspec]. rewrite aget_replicate by lia.
  cbn [mbind option_bind]. rewrite aget_replicate by lia.
  cbn [mbind option_bind]. unfold dc_spectrum.
  apply (aget_insert_eq _ 0). rewrite length_replicate.
  assert (0 ≤ samplerate cfg / 2) by (apply Z.div_pos; lia). lia.
Qed.

Lemma amplitude_spectrum_bins_witness :
  ∃ bins,
    calc_amplitude_spectrum [1; 2; 3; 4]%R 4 [0; 0; 0]%R = Some (bins ++ []) ∧
    Z.of_nat (length bins) = 3 ∧
    aget bins 0 = Some (Rabs (cell (rfftw_one [1; 2; 3; 4]%R) 0)).
Proof.
  destruct (amplitude_spectrum_bins [1; 2; 3; 4]%R 4 [0; 0; 0]%R)
    as (bins & H1 & H2 & _ & H3 & _); [lia|reflexivity|by vm_compute|].
  exists bins. split; [exact H1|]. split; [exact H2|exact H3].
Defined.

Lemma running_max_emitted_witness :
  let g := with_window max_config [dc_spectrum max_config 1; dc_spectrum max_config 4] in
  csv_value max_config g 0 0 =
    Some (reference_max (scale max_config) (window_entry g 0 0) 1).
Proof.
  intros g.
  destruct (running_max_emitted sink_all_ok max_config g 0 0) as [H _].
  - reflexivity.
  - apply max_config_ok.
  - by apply two_spectra_allocated.
  - lia.
  - cbn. lia.
  - exact H.
Defined.

Lemma mean_of_constant_window_witness :
  csv_value default_config (constant_window default_config 3) 0 0 =
    Some (3 / scale default_config)%R.
Proof.
  destruct (mean_of_constant_window sink_all_ok default_config
              (constant_window default_config 3) 0 0 3) as [H _].
  - reflexivity.
  - cbn. lia.
  - cbn. lia.
  - unfold INT_MAX. cbn. lia.
  - intros j Hj. apply constant_window_entries; cbn in *; lia.
  - exact H.
Defined.

Lemma undrained_ready_and_overruns_witness :
  ∃ g, boot sink_all_ok default_config (Deliver <$> three_seconds) = Some g ∧
       ready_slots g = 3%nat ∧ overruns g = O.
Proof.
  destruct (undrained_ready_and_overruns sink_all_ok default_config three_seconds 3)
    as (g & Hg & Hready & Hnone & _).
  - cbn. lia.
  - cbn. lia.
  - unfold three_seconds. cbn [concat]. rewrite !length_app, !length_replicate.
    reflexivity.
  - exists g. split; [exact Hg|].
    split; [apply Hready|apply Hnone]; unfold PIPELINE_LEN; lia.
Defined.

Lemma process_scan_order_witness :
  process sink_all_ok default_config (fresh default_config) =
    fold_opt (visit sink_all_ok default_config)
      (circular_scan (PIPELINE_LEN / 10) (ibptr (fresh default_config)))
      (fresh default_config).
Proof.
  destruct (process_scan_order sink_all_ok default_config (fresh default_config))
    as [H _].
  - apply fresh_state; cbn; lia.
  - exact H.
Defined.

Lemma startup_unchecked_witness :
  (∃ g, main (Some wide_config) = Processing 1 g) ∧
  main (Some zero_rate_config) = Division_by_zero.
Proof.
  split.
  - destruct (startup_unchecked wide_config) as [(g & _ & _ & _ & _ & Hg & _) _].
    + reflexivity.
    + cbn. lia.
    + cbn. lia.
    + exists g. apply Hg. cbn. lia.
  - destruct (startup_unchecked zero_rate_config) as [(g & _ & _ & _ & _ & _ & Hg) _].
    + reflexivity.
    + cbn. lia.
    + cbn. lia.
    + apply Hg. reflexivity.
Defined.

Lemma window_fill_index_invariant_witness :
  ∃ g, boot sink_all_ok default_config interrupted_second = Some g ∧
       window_in_range default_config g.
Proof.
  destruct (window_fill_index_invariant sink_all_ok default_config default_config_ok)
    as (_ & _ & H).
  exact (H interrupted_second).
Defined.

Lemma partial_second_is_silent_witness :
  ∃ g, boot sink_all_ok slow_config interrupted_second = Some g ∧
       ready_slots g = O ∧ trace g = [].
Proof.
  destruct (partial_second_is_silent sink_all_ok slow_config interrupted_second)
    as (g & Hg & _ & Hready & Htrace & _).
  - reflexivity.
  - cbn. lia.
  - reflexivity.
  - exists g. split; [exact Hg|]. split; [exact Hready|exact Htrace].
Defined.

Lemma output_csv_failure_and_frame_witness :
  (∃ e, output_csv sink_unopenable default_config 0 (fresh default_config) =
          Some (false, emit_event e (fresh default_config))) ∧
  (∃ g', output_csv sink_unwritable default_config 0 (fresh default_config) =
           Some (true, g') ∧
         g' = emit_event (Csv_row_lost 0) (fresh default_config) ∧
         ampspec g' = ampspec (fresh default_config) ∧
         aind g' = aind (fresh default_config)).
Proof.
  split.
  - destruct (output_csv_failure_and_frame sink_unopenable default_config 0
                (fresh default_config)) as [H _].
    destruct H as (e & He & _).
    + left. reflexivity.
    + exists e. exact He.
  - destruct (output_csv_failure_and_frame sink_unwritable default_config 0
                (fresh default_config)) as (_ & H & _).
    destruct H as (e & g' & Hout & Hg' & Hlost & _ & Hspec & Hind).
    + apply default_config_ok.
    + apply fresh_state; cbn; lia.
    + lia.
    + reflexivity.
    + reflexivity.
    + exists g'. split; [exact Hout|]. split; [|split; [exact Hspec|exact Hind]].
      rewrite Hg', Hlost; reflexivity.
Defined.

Lemma write_cursors_in_range_witness :
  ∃ g, SpatialDataHandler default_config (replicate 1500 still)
         (Z.of_nat (length (replicate 1500 still))) (fresh default_config) = Some g ∧
       cursors_in_range default_config g.
Proof.
  destruct (write_cursors_in_range default_config (fresh default_config)) as [_ H].
  - apply fresh_state; cbn; lia.
  - apply fresh_state; cbn; lia.
  - destruct (H (replicate 1500 still)) as (g & Hg & _ & Hc).
    exists g. split; [exact Hg|exact Hc].
Defined.

(** ** Where the code departs from the claims *)

(** C1 as stated fails: at the sample rate 1000 the divisor is 1, and a
    window whose maximum 5 is at position 0, followed by 1, yields the
    maximum divided once, although the maximum is not at the last window
    position. *)
Lemma running_max_counterexample :
  let g := with_window max_config [dc_spectrum max_config 5; dc_spectrum max_config 1] in
  let a := window_entry g 0 0 in
  csv_value max_config g 0 0 = Some (window_max a 1 / scale max_config)%R ∧
  window_max a 1 = 5%R ∧ a 1%nat = 1%R ∧ a 1%nat ≠ window_max a 1.
Proof.
  intros g a.
  destruct (two_spectra_entries max_config 5 1) as [Ha0 Ha1]; [by vm_compute|].
  fold g in Ha0, Ha1. fold a in Ha0, Ha1.
  assert (Hmax : window_max a 1 = 5%R).
  { cbn [window_max]. rewrite Ha0, Ha1. apply Rmax_left. lra. }
  split; [|split; [done|split; [done|]]].
  - rewrite (csv_value_max max_config g 0 0);
      [|done|by apply two_spectra_allocated|by vm_compute..].
    unfold row_value. cbn [max_config max_instead_of_avg avg_int_in_sec].
    change (Z.to_nat (2 - 1)) with 1%nat. fold a.
    rewrite (scale_default max_config) by done.
    rewrite reference_max_unscaled. f_equal. lra.
  - rewrite Hmax, Ha1. lra.
Qed.

(** C2 as stated fails: after [PIPELINE_LEN + 1] seconds without draining,
    one second beyond [PIPELINE_LEN], the overrun has been reported twice,
    and after exactly [PIPELINE_LEN] seconds it has been reported once
    already. *)
Lemma overrun_count_counterexample :
  (∃ g, boot sink_all_ok default_config (Deliver <$> whole_seconds 101) = Some g ∧
        overruns g = 2%nat) ∧
  (∃ g, boot sink_all_ok default_config (Deliver <$> whole_seconds 100) = Some g ∧
        overruns g = 1%nat).
Proof.
  assert (Hrun : ∀ n : nat, ∃ g,
    boot sink_all_ok default_config (Deliver <$> whole_seconds (Z.of_nat n)) = Some g ∧
    overruns g = (n + 1 - 100)%nat).
  { intros n. unfold boot. rewrite (fresh_alloc default_config) by (cbn; lia).
    cbn [mbind option_bind]. rewrite run_deliver.
    destruct (boot_undrained default_config (fresh default_config)) as (Hb & Hun & _).
    { apply fresh_alloc; cbn; lia. }
    destruct (undrained_seconds default_config n 0 (concat (whole_seconds (Z.of_nat n)))
                (fresh default_config) Hb Hun) as (g & Hg & _ & Hun' & _).
    { cbn. lia. }
    { unfold whole_seconds. cbn [concat]. rewrite app_nil_r, length_replicate.
      cbn [default_config samplerate]. lia. }
    exists g. split; [done|]. by rewrite (undrained_overruns _ _ Hun'). }
  split.
  - apply (Hrun 101%nat).
  - apply (Hrun 100%nat).
Qed.

(** C5 as stated fails: with the write pointer at slot 0, the first slot
    [process] looks at is slot 10, [PIPELINE_LEN / 10] positions ahead of
    the write pointer, not slot 90 behind it.  When slot 90 is the only
    ready slot, the first iteration of the scan leaves it alone; it is
    processed in iteration 80. *)
Lemma scan_start_counterexample :
  let g := only_slot_ready default_config 90 in
  ibptr g = 0 ∧ aget (unproc g) 90 = Some true ∧
  scan_ptr (ibptr g) 0 = 10 ∧
  (ibptr g - PIPELINE_LEN / 10) mod PIPELINE_LEN = 90 ∧
  scan_ptr (ibptr g) 0 ≠ (ibptr g - PIPELINE_LEN / 10) mod PIPELINE_LEN ∧
  process_iter sink_all_ok default_config 0 g = Some g ∧
  scan_ptr (ibptr g) 80 = 90 ∧
  ∃ g', process_iter sink_all_ok default_config 80 g = Some g' ∧
        aget (unproc g') 90 = Some false.
Proof.
  intros g.
  destruct (fresh_state default_config) as (Hb & _ & Hw & _); [by vm_compute..|].
  destruct (boot_state default_config (fresh default_config))
    as (_ & _ & Hi & _ & _ & Hu); [apply fresh_alloc; by vm_compute|].
  assert (Hig : ibptr g = 0) by done.
  assert (Hug : unproc g = <[90%nat := true]> (replicate (Z.to_nat PIPELINE_LEN) false)).
  { unfold g, only_slot_ready. cbn [set_unproc unproc]. by rewrite Hu. }
  assert (Hbg : buffers_allocated default_config g).
  { destruct Hb as (Hlen & ?). split; [|done]. by rewrite Hug. }
  rewrite Hig.
  split; [done|]. split; [by rewrite Hug|]. split; [done|]. split; [done|].
  split; [done|]. split; [|split; [done|]].
  - unfold process_iter. rewrite Hig, Hug. done.
  - unfold process_iter. rewrite Hig.
    change (scan_ptr 0 80) with 90. rewrite Hug.
    change (aget (<[90%nat:=true]> (replicate (Z.to_nat PIPELINE_LEN) false)) 90)
      with (Some true).
    cbn [mbind option_bind].
    destruct (process_slot_spec sink_all_ok default_config 90 g default_config_ok Hbg Hw)
      as (g' & evs & Hg' & _ & _ & _ & Hu' & _); [done|].
    exists g'. split; [done|]. rewrite Hu', Hug. done.
Qed.

(** C6 as stated fails: with [maxfreq = 600] above [samplerate / 2 = 500]
    the program allocates its buffers and starts processing. *)
Lemma startup_counterexample :
  maxfreq wide_config > samplerate wide_config / 2 ∧
  ∃ g, main (Some wide_config) = Processing 1 g ∧
       alloc_spec_buffers wide_config initial_globals = Some g.
Proof.
  split; [done|]. exists (fresh wide_config).
  assert (H : alloc_spec_buffers wide_config initial_globals = Some (fresh wide_config))
    by (apply fresh_alloc; cbn; lia).
  split; [|done]. unfold main, controlloop. by rewrite H.
Qed.

(** C9 as stated fails: when the files open and every write to them fails,
    [output_csv] returns [TRUE]; the row is lost and nothing is reported. *)
Lemma write_failure_counterexample :
  output_csv sink_unwritable default_config 0 (fresh default_config) =
    Some (true, emit_event (Csv_row_lost 0) (fresh default_config)).
Proof.
  rewrite output_csv_spec.
  - done.
  - apply default_config_ok.
  - apply fresh_state; cbn; lia.
  - lia.
Qed.

(** ** Instances of the further properties *)

Lemma fresh_cursors (cfg : config) :
  0 ≤ samplerate cfg → 0 ≤ avg_int_in_sec cfg →
  rbufi (fresh cfg) = 0 ∧ ibptr (fresh cfg) = 0 ∧ aind (fresh cfg) = 0.
Proof.
  intros HR HW.
  destruct (boot_state cfg (fresh cfg)) as (_ & Hr & Hi & Ha & _); [by apply fresh_alloc|].
  done.
Qed.

Lemma fresh_drained (cfg : config) :
  0 < samplerate cfg → 0 < avg_int_in_sec cfg → drained cfg (fresh cfg).
Proof.
  intros HR HW. apply boot_drained; [done..|]. apply fresh_alloc; lia.
Qed.

Lemma handle_sample_stores_witness :
  ∃ g', handle_sample default_config still (fresh default_config) = Some g' ∧
        aget3 (inbuf g') 0 2 0 = Some 1%R.
Proof.
  destruct (fresh_cursors default_config) as (Hr & Hi & _); [cbn; lia..|].
  destruct (handle_sample_stores default_config still (fresh default_config))
    as (g' & Hg' & Hnew & _).
  - apply fresh_state; cbn; lia.
  - apply fresh_state; cbn; lia.
  - exists g'. split; [exact Hg'|].
    rewrite Hr, Hi in Hnew. apply (Hnew 2). lia.
Defined.

Lemma completed_slot_contents_witness :
  ∃ g', run sink_all_ok default_config (Deliver <$> one_second) (fresh default_config)
          = Some g' ∧
        aget (unproc g') 0 = Some true ∧ ibptr g' = 1.
Proof.
  destruct (fresh_cursors default_config) as (Hr & Hi & _); [cbn; lia..|].
  destruct (completed_slot_contents sink_all_ok default_config one_second
              (fresh default_config)) as (g' & Hg' & _ & _ & Hu & _ & Hp).
  - apply fresh_state; cbn; lia.
  - apply fresh_state; cbn; lia.
  - exact Hr.
  - unfold one_second. cbn [concat]. rewrite !length_app, !length_replicate. reflexivity.
  - exists g'. rewrite Hi in Hu, Hp. split; [exact Hg'|]. split; [exact Hu|exact Hp].
Defined.

Lemma process_accounting_witness :
  ∃ g', process sink_all_ok default_config (fresh default_config) = Some g' ∧
        ready_slots g' = O ∧ overruns g' = overruns (fresh default_config).
Proof.
  destruct (process_accounting sink_all_ok default_config (fresh default_config))
    as (g' & Hg' & Hready & _ & _ & Hov & _).
  - apply default_config_ok.
  - apply fresh_state; cbn; lia.
  - apply fresh_state; cbn; lia.
  - apply fresh_state; cbn; lia.
  - exists g'. split; [exact Hg'|]. split; [exact Hready|exact Hov].
Defined.


Lemma steady_state_spectrum_witness :
  ∃ g', run sink_all_ok default_config (round one_second) (fresh default_config)
          = Some g' ∧
        aget2 (ampspec g') 2 0 =
          Some (amplitude_bins (rfftw_one (axis_of 2 <$> concat one_second)) 1000) ∧
        aind g' = 1.
Proof.
  destruct (fresh_cursors default_config) as (_ & _ & Ha); [cbn; lia..|].
  destruct (steady_state_spectrum sink_all_ok default_config one_second
              (fresh default_config)) as (g' & Hg' & Hspec & _ & Hind & _).
  - apply default_config_ok.
  - apply fresh_drained; cbn; lia.
  - unfold one_second. cbn [concat]. rewrite !length_app, !length_replicate. reflexivity.
  - exists g'. rewrite Ha in Hspec, Hind. split; [exact Hg'|].
    split; [apply (Hspec 2); lia|exact Hind].
Defined.

Lemma scan_ptr_bounded_witness :
  scan_ptr (ibptr (fresh default_config)) 95 = 5.
Proof.
  destruct (fresh_cursors default_config) as (_ & Hi & _); [cbn; lia..|].
  destruct (scan_ptr_bounded sink_all_ok default_config 95 (fresh default_config))
    as (_ & Hwrap & _).
  rewrite Hwrap; rewrite Hi; [reflexivity|by vm_compute].
Defined.

Lemma csv_header_matches_row_witness :
  csv_prepare default_config false true =
    (true, Mode_w, Some (Timestamp_col :: (Hz_col <$> seqZ 0 (150 + 1)))) ∧
  ∃ vals,
    output_csv sink_all_ok default_config 0 (fresh default_config) =
      Some (true, emit_event (Csv_row 0 vals) (fresh default_config)) ∧
    length vals = 151%nat.
Proof.
  destruct (csv_header_matches_row sink_all_ok default_config 0 (fresh default_config)
              false true) as (Hprep & vals & Hout & Hlen & _).
  - apply default_config_ok.
  - apply fresh_state; cbn; lia.
  - lia.
  - reflexivity.
  - reflexivity.
  - reflexivity.
  - split; [exact Hprep|]. exists vals. split; [exact Hout|].
    cbn [length] in Hlen. rewrite length_fmap, length_seqZ in Hlen.
    injection Hlen as ->. reflexivity.
Defined.

Lemma maxfreq_beyond_spectrum_witness :
  output_csv sink_all_ok wide_config 0 (fresh wide_config) = None.
Proof.
  destruct (maxfreq_beyond_spectrum sink_all_ok wide_config (fresh wide_config))
    as [Hout _].
  - cbn. lia.
  - cbn. lia.
  - by vm_compute.
  - apply fresh_state; cbn; lia.
  - apply Hout; [lia|reflexivity|reflexivity].
Defined.

Lemma running_max_closed_form_witness :
  let g := with_window max_config [dc_spectrum max_config 1; dc_spectrum max_config 4] in
  csv_value max_config g 0 0 =
    Some (window_max
            (fun i => window_entry g 0 0 i / scale max_config ^ (2 - i))%R 1).
Proof.
  intros g.
  apply (running_max_closed_form max_config g 0 0).
  - reflexivity.
  - cbn. lia.
  - cbn. lia.
  - by apply two_spectra_allocated.
  - lia.
  - split; by vm_compute.
Defined.

Lemma mean_is_scaled_average_witness :
  ∃ v, csv_value default_config (constant_window default_config 3) 0 0 = Some v ∧
       (3 <= v * scale default_config <= 3)%R.
Proof.
  destruct (mean_is_scaled_average default_config (constant_window default_config 3)
              0 0 3 3) as (v & Hv & _ & Hbounds).
  - reflexivity.
  - cbn. lia.
  - cbn. lia.
  - unfold INT_MAX. cbn. lia.
  - unfold constant_window. apply with_window_allocated; [cbn; lia..| |].
    + by rewrite length_replicate.
    + apply Forall_replicate. apply dc_spectrum_length. cbn. lia.
  - lia.
  - split; by vm_compute.
  - intros j x Hj Hx. rewrite constant_window_entries in Hx by (cbn in *; lia).
    injection Hx as <-. lra.
  - exists v. split; [exact Hv|exact Hbounds].
Defined.

Lemma calc_amplitude_spectrum_defined_witness :
  is_Some (calc_amplitude_spectrum [1; 2; 3; 4]%R 4 [0; 0; 0]%R) ∧
  calc_amplitude_spectrum [1; 2; 3; 4]%R 4 [0; 0]%R = None.
Proof.
  split.
  - apply calc_amplitude_spectrum_defined. split; [split|]; by vm_compute.
  - apply eq_None_not_Some. intros H.
    apply calc_amplitude_spectrum_defined in H. destruct H as [_ H]. by vm_compute in H.
Defined.

Lemma avgconst_half_life_witness :
  (avgconst default_config ^ Z.to_nat (10 * samplerate default_config) = 1 / 2)%R.
Proof.
  apply (avgconst_half_life default_config). cbn. lia.
Defined.

Lemma reopen_starts_silent_witness :
  moving_average (write_wav wav_env_new_day (1 / 2) (1, 2, 3)%R true initial_wav)
    = (1, 2, 3)%R.
Proof.
  apply (reopen_starts_silent wav_env_new_day (1 / 2)%R (1, 2, 3)%R initial_wav).
  left. reflexivity.
Defined.

Lemma constant_input_fades_witness :
  ∃ w', SpatialDataHandler_wav wav_env_ready default_config true (replicate 3 still) 3
          wav_opened = Some w' ∧
        wavfile w' = Some 1%nat.
Proof.
  destruct (constant_input_fades wav_env_ready default_config still 3 1 wav_opened)
    as (w' & Hw' & Hfile & _).
  - reflexivity.
  - intros t. reflexivity.
  - exists w'. split; [exact Hw'|exact Hfile].
Defined.

Lemma half_way_after_tau_witness :
  let n := Z.to_nat (10 * samplerate default_config) in
  ∃ w', SpatialDataHandler_wav wav_env_ready default_config true (replicate n still)
          (Z.of_nat n) wav_opened = Some w' ∧
        moving_average w' =
          frame_zip (fun m b => (m + b) / 2)%R (moving_average wav_opened) (wav_buf still).
Proof.
  intros n.
  destruct (half_way_after_tau wav_env_ready default_config still 1 wav_opened)
    as (w' & Hw' & Hma & _).
  - cbn. lia.
  - reflexivity.
  - intros t. reflexivity.
  - exists w'. split; [exact Hw'|exact Hma].
Defined.

Lemma sndfile_discipline_witness :
  ∃ w', SpatialDataHandler_wav wav_env_new_day default_config true [still; still]
          (Z.of_nat (length [still; still])) initial_wav = Some w' ∧
        wav_replay None (wav_trace w') = Some (wavfile w').
Proof.
  apply (sndfile_discipline wav_env_new_day default_config true [still; still]
           initial_wav).
  reflexivity.
Defined.
